(** * seller-apis: stock and price reconciliation for marketplace catalogs

    A shallow embedding of [seller.py] (the Ozon channel) and [market.py]
    (the Yandex Market channels): the normalisation of quantity and price
    tokens, the chunker [divide], the catalog pagination loops
    [get_offer_ids], the reconcilers [create_stocks] and [create_prices],
    and the two [main] orchestrators.

    Python values are modelled as follows.
    - [str] is [string]: the UTF-8 bytes of the text.  The source only
      inspects ASCII characters (['.'], the digits, the sign, ['_'] and
      blanks), and none of their byte values occurs inside the encoding
      of a non-ASCII character.
    - [int] is [Z].
      [int(s)] is modelled for ASCII text; the decimal digits and blanks
      outside ASCII that CPython also reads, and its limit on the number
      of digits, are left out.
    - a feed row ([dict] from the spreadsheet) is the record [watch] with
      the three cells the code reads, each as text, so that [str(cell)]
      is the cell.
    - a Python [list] that is passed around and mutated (the offer ids)
      lives in a store, addressed by a location; lists that stay local to
      one function are plain Rocq lists.
    - exceptions are the [Raise] outcome of a state-and-error monad.
    - the marketplaces, the dealer's site and the clock are a [world]:
      the reply to a request is a function of the position the request
      takes in the log of the run.
    - a [while True] loop runs for at most [fuel] turns; running out of
      them is the outcome [Fault OutOfFuel], never a result.

    The first part holds the definitions: the builtins, the monad, the
    two modules, and the vocabulary of the statements.  The second part
    holds the lemmas and the theorems. *)

From Stdlib Require Import ZArith String Ascii List Lia.
From stdpp Require Import base tactics option list strings gmap.

Local Open Scope string_scope.
Local Open Scope list_scope.
Local Open Scope Z_scope.

(** ** Python builtins used by the source *)

Module Py.

(** The exceptions that the modelled code can raise. *)
Inductive exn : Type :=
  | ValueError
  | HTTPError
  | ReadTimeout
  | ConnectionError.

#[global] Instance exn_eq_dec : EqDecision exn.
Proof. solve_decision. Defined.

Definition nat_of (c : ascii) : nat := nat_of_ascii c.

(** [Py_ISSPACE]: tab, line feed, vertical tab, form feed, carriage
    return and blank. *)
Definition is_space (c : ascii) : bool :=
  let n := nat_of c in
  ((9 <=? n)%nat && (n <=? 13)%nat) || (n =? 32)%nat.

(** The value of an ASCII decimal digit. *)
Definition digit_of (c : ascii) : option Z :=
  let n := nat_of c in
  if ((48 <=? n)%nat && (n <=? 57)%nat) then Some (Z.of_nat (n - 48)) else None.

Definition is_digit (c : ascii) : bool :=
  match digit_of c with Some _ => true | None => false end.

Fixpoint lstrip (s : string) : string :=
  match s with
  | EmptyString => EmptyString
  | String c r => if is_space c then lstrip r else s
  end.

Fixpoint all_space (s : string) : bool :=
  match s with
  | EmptyString => true
  | String c r => is_space c && all_space r
  end.

(** The digit loop of [int(str)] in base ten.  [acc] is the value read
    so far, [after_us] tells that the previous character was an
    underscore: an underscore has to stand between two digits.  The loop
    stops at the first character that is neither a digit nor an
    underscore and hands back the rest of the text. *)
Fixpoint scan_digits (acc : Z) (after_us : bool) (s : string) : option (Z * string) :=
  match s with
  | EmptyString => if after_us then None else Some (acc, EmptyString)
  | String c r =>
      match digit_of c with
      | Some d => scan_digits (10 * acc + d) false r
      | None =>
          if Ascii.eqb c "_"
          then (if after_us then None else scan_digits acc true r)
          else (if after_us then None else Some (acc, s))
      end
  end.

(** After the blanks and the sign the first character must be a digit. *)
Definition scan_number (s : string) : option (Z * string) :=
  match s with
  | EmptyString => None
  | String c r =>
      match digit_of c with
      | Some d => scan_digits d false r
      | None => None
      end
  end.

(** [int(s)] for a [str] argument, base ten: blanks, an optional sign,
    digits (single underscores allowed between them), blanks, end of
    text.  [None] stands for [ValueError].  The text is read byte by
    byte: the decimal digits and the blanks of other scripts, which
    CPython reads as well, are not known here. *)
Definition int (s : string) : option Z :=
  let s1 := lstrip s in
  let '(neg, s2) :=
    match s1 with
    | String c r =>
        if Ascii.eqb c "-" then (true, r)
        else if Ascii.eqb c "+" then (false, r)
        else (false, s1)
    | EmptyString => (false, s1)
    end in
  match scan_number s2 with
  | Some (v, rest) =>
      if all_space rest then Some (if neg then - v else v) else None
  | None => None
  end.

(** [s.split(sep)] for a one-character separator: the pieces between the
    occurrences of [sep], never an empty list. *)
Fixpoint split (sep : ascii) (s : string) : list string :=
  match s with
  | EmptyString => [EmptyString]
  | String c r =>
      if Ascii.eqb c sep then EmptyString :: split sep r
      else match split sep r with
           | p :: ps => String c p :: ps
           | [] => [String c EmptyString]
           end
  end.

(** [re.sub("[^0-9]", "", s)]: drop every character outside ['0'..'9']. *)
Fixpoint re_sub_non_digits (s : string) : string :=
  match s with
  | EmptyString => EmptyString
  | String c r =>
      if is_digit c then String c (re_sub_non_digits r) else re_sub_non_digits r
  end.

(** [l.remove(x)]: delete the first occurrence; [None] stands for the
    [ValueError] raised when there is none. *)
Fixpoint remove (x : string) (l : list string) : option (list string) :=
  match l with
  | [] => None
  | y :: r =>
      if decide (y = x) then Some r
      else match remove x r with
           | Some r' => Some (y :: r')
           | None => None
           end
  end.

(** [x in l] for a list. *)
Definition contains (x : string) (l : list string) : bool :=
  bool_decide (x ∈ l).

End Py.

(** ** Outcomes, the store and the monad of effects *)

(** Why a run produced no value although nothing was raised: the
    iteration bound of a [while True] loop was reached, or a reference
    does not point to a list (no Python program can produce that one). *)
Inductive fault : Type := OutOfFuel | Dangling.

Inductive outcome (A : Type) : Type :=
  | Ok (a : A)
  | Raise (e : Py.exn)
  | Fault (f : fault).
Arguments Ok {A} a.
Arguments Raise {A} e.
Arguments Fault {A} f.

(** A reference to a list object. *)
Definition loc := positive.

(** The machine state: the list objects, and the log of what the program
    did to the outside world, oldest event first. *)
Record state (E : Type) : Type := State {
  heap : gmap loc (list string);
  log : list E
}.
Arguments State {E} heap log.
Arguments heap {E} s.
Arguments log {E} s.

Definition M (E A : Type) : Type := state E → outcome A * state E.

Section Monad.
Context {E : Type}.

Definition ret {A} (a : A) : M E A := fun st => (Ok a, st).

Definition bind {A B} (m : M E A) (k : A → M E B) : M E B :=
  fun st =>
    match m st with
    | (Ok a, st') => k a st'
    | (Raise e, st') => (Raise e, st')
    | (Fault f, st') => (Fault f, st')
    end.

Definition raise {A} (e : Py.exn) : M E A := fun st => (Raise e, st).

(** Lift a builtin that may raise [ValueError]. *)
Definition value_of {A} (o : option A) : M E A :=
  match o with
  | Some a => ret a
  | None => raise Py.ValueError
  end.

(** [try: body except Exception as e: handler(e)]; every exception of
    the model derives from [Exception]. *)
Definition try_except {A} (body : M E A) (handler : Py.exn → M E A) : M E A :=
  fun st =>
    match body st with
    | (Raise e, st') => handler e st'
    | r => r
    end.

(** Append an event to the log. *)
Definition emit (ev : E) : M E unit :=
  fun st => (Ok tt, State (heap st) (log st ++ [ev])).

(** The position the next event will take in the log. *)
Definition clock : M E nat := fun st => (Ok (length (log st)), st).

(** A new list object. *)
Definition new_list (l : list string) : M E loc :=
  fun st =>
    let r := fresh (dom (heap st)) in
    (Ok r, State (<[r := l]> (heap st)) (log st)).

(** The current content of a list object. *)
Definition read_list (r : loc) : M E (list string) :=
  fun st =>
    match heap st !! r with
    | Some l => (Ok l, st)
    | None => (Fault Dangling, st)
    end.

Definition write_list (r : loc) (l : list string) : M E unit :=
  fun st => (Ok tt, State (<[r := l]> (heap st)) (log st)).

(** [x in r] *)
Definition list_contains (r : loc) (x : string) : M E bool :=
  bind (read_list r) (fun l => ret (Py.contains x l)).

(** [r.remove(x)], in place. *)
Definition list_remove (r : loc) (x : string) : M E unit :=
  bind (read_list r) (fun l =>
  bind (value_of (Py.remove x l)) (fun l' =>
  write_list r l')).

(** [for x in xs: acc = body(acc, x)] over a list that the body does
    not change; [acc] stands for the local variables the body updates. *)
Fixpoint for_each {A B} (xs : list A) (acc : B) (body : B → A → M E B) : M E B :=
  match xs with
  | [] => ret acc
  | x :: r => bind (body acc x) (fun acc' => for_each r acc' body)
  end.
End Monad.

Notation "'let*' x ':=' m 'in' k" := (bind m (fun x => k))
  (at level 10, x pattern, m at level 100, k at level 200).
Notation "m ';;' k" := (bind m (fun _ => k))
  (at level 100, k at level 200, right associativity).

(** ** The data of the feed *)

(** One row of the dealer's spreadsheet: the cells under the columns
    [Код], [Количество] and [Цена], as text. *)
Record watch : Type := Watch {
  kod : string;          (* watch.get("Код") *)
  kolichestvo : string;  (* watch.get("Количество") *)
  tsena : string         (* watch.get("Цена") *)
}.

(** ** Code shared by both channels *)

(** [create_stocks], lines 218 to 224 of [seller.py] and 175 to 181 of
    [market.py]: the stock figure for the quantity cell of a row.  The
    two tokens are compared with [str(cell)] and [int] is applied to the
    cell; both are the same text here. *)
Definition stock_of_quantity (count : string) : option Z :=
  if decide (count = ">10") then Some 100
  else if decide (count = "1") then Some 0
  else Py.int count.

(** [price_conversion] of [seller.py]. *)
Definition price_conversion (price : string) : string :=
  Py.re_sub_non_digits (hd EmptyString (Py.split "." price)).

(** The number of elements of [range(start, stop, step)]. *)
Definition range_len (start stop step : Z) : Z :=
  if 0 <? step then (if start <? stop then (stop - start - 1) / step + 1 else 0)
  else (if stop <? start then (start - stop - 1) / (- step) + 1 else 0).

(** [range(start, stop, step)] as a list; [None] stands for the
    [ValueError] of a zero step. *)
Definition range (start stop step : Z) : option (list Z) :=
  if step =? 0 then None
  else Some (map (fun k => start + k * step) (seqZ 0 (range_len start stop step))).

(** [lst[i:j]] with Python's treatment of negative and oversized bounds. *)
Definition slice {A} (lst : list A) (i j : Z) : list A :=
  let len := Z.of_nat (length lst) in
  let norm k := if k <? 0 then Z.max 0 (k + len) else Z.min k len in
  let i' := norm i in
  let j' := norm j in
  take (Z.to_nat (j' - i')) (drop (Z.to_nat i') lst).

(** [list(divide(lst, n))]: every place that calls [divide] consumes the
    generator at once with [list]. *)
Definition divide {A} (lst : list A) (n : Z) : option (list (list A)) :=
  match range 0 (Z.of_nat (length lst)) n with
  | None => None
  | Some starts => Some (map (fun i => slice lst i (i + n)) starts)
  end.

Section Reconcile.
Context {E : Type}.

(** The body of [create_stocks]; the two channels differ only in the
    shape of the entry they build from an offer id and a stock figure. *)
Definition create_stocks_with {entry : Type} (mk : string → Z → entry)
    (watch_remnants : list watch) (offer_ids : loc) : M E (list entry) :=
  let* stocks :=
    for_each watch_remnants [] (fun stocks watch =>
      let* found := list_contains offer_ids (kod watch) in
      if found : bool then
        let* stock := value_of (stock_of_quantity (kolichestvo watch)) in
        let stocks := stocks ++ [mk (kod watch) stock] in
        list_remove offer_ids (kod watch);;
        ret stocks
      else ret stocks) in
  let* remaining := read_list offer_ids in
  for_each remaining stocks (fun stocks offer_id =>
    ret (stocks ++ [mk offer_id 0])).

(** The body of [create_prices]; [mk] builds the entry and is where
    [market.py] parses the price. *)
Definition create_prices_with {entry : Type} (mk : watch → M E entry)
    (watch_remnants : list watch) (offer_ids : loc) : M E (list entry) :=
  for_each watch_remnants [] (fun prices watch =>
    let* found := list_contains offer_ids (kod watch) in
    if found : bool then
      let* price := mk watch in
      ret (prices ++ [price])
    else ret prices).
End Reconcile.

(** Calling a function declared with [async def] runs none of its body:
    the call builds a coroutine object, and the body runs when that
    object is awaited. *)
Inductive coroutine (E A : Type) : Type := Coroutine (body : M E A).
Arguments Coroutine {E A} body.

Definition await {E A} (c : coroutine E A) : M E A :=
  match c with Coroutine body => body end.

(** An expression statement: the value is built and dropped. *)
Definition expr_stmt {E A} (a : A) : M E unit := ret tt.

(** The outside world of one run.  A reply is indexed by the position
    that its request takes in the log. *)
Record world (page : Type) : Type := World {
  page_reply : nat → Py.exn + page;        (* the page listing requests *)
  push_reply : nat → option Py.exn;        (* the uploads; [None] accepts *)
  feed : Py.exn + list watch;              (* what [download_stock] gives *)
  utcnow : nat → string                    (* the clock, in ISO format *)
}.
Arguments page_reply {page} w k.
Arguments push_reply {page} w k.
Arguments feed {page} w.
Arguments utcnow {page} w k.

(** ** seller.py: the Ozon channel *)

Module Seller.

Record product : Type := Product { offer_id : string }.

(** The ["result"] object of a product list response. *)
Record page : Type := Page {
  items : list product;
  total : Z;
  last_id : string
}.

Record stock_entry : Type := Stock {
  s_offer_id : string;
  s_stock : Z
}.

Record price_entry : Type := Price {
  auto_action_enabled : string;
  currency_code : string;
  p_offer_id : string;
  old_price : string;
  p_price : string
}.

Inductive event : Type :=
  | ProductList (last_id client_id seller_token : string)
  | ImportPrices (prices : list price_entry) (client_id seller_token : string)
  | ImportStocks (stocks : list stock_entry) (client_id seller_token : string)
  | DownloadStock
  | Print (error : option Py.exn) (text : string).

Section Run.
Variable w : world page.

Definition get_product_list (last_id client_id seller_token : string)
  : M event page :=
  let* k := clock in
  emit (ProductList last_id client_id seller_token);;
  match page_reply w k with
  | inl e => raise e
  | inr result => ret result
  end.

(** The [while True] loop of [get_offer_ids], bounded by [fuel]
    iterations. *)
Fixpoint get_offer_ids_loop (fuel : nat) (last_id : string)
    (product_list : list product) (client_id seller_token : string)
  : M event (list product) :=
  match fuel with
  | O => fun st => (Fault OutOfFuel, st)
  | S fuel' =>
      let* some_prod := get_product_list last_id client_id seller_token in
      let product_list := product_list ++ items some_prod in
      let total := total some_prod in
      let last_id := Seller.last_id some_prod in
      if total =? Z.of_nat (length product_list) then ret product_list
      else get_offer_ids_loop fuel' last_id product_list client_id seller_token
  end.

Definition get_offer_ids (fuel : nat) (client_id seller_token : string)
  : M event loc :=
  let* product_list := get_offer_ids_loop fuel "" [] client_id seller_token in
  let* offer_ids :=
    for_each product_list [] (fun offer_ids product =>
      ret (offer_ids ++ [offer_id product])) in
  new_list offer_ids.

Definition update_price (prices : list price_entry)
    (client_id seller_token : string) : M event unit :=
  let* k := clock in
  emit (ImportPrices prices client_id seller_token);;
  match push_reply w k with
  | Some e => raise e
  | None => ret tt
  end.

Definition update_stocks (stocks : list stock_entry)
    (client_id seller_token : string) : M event unit :=
  let* k := clock in
  emit (ImportStocks stocks client_id seller_token);;
  match push_reply w k with
  | Some e => raise e
  | None => ret tt
  end.

Definition download_stock : M event (list watch) :=
  emit DownloadStock;;
  match feed w with
  | inl e => raise e
  | inr watch_remnants => ret watch_remnants
  end.

Definition create_stocks (watch_remnants : list watch) (offer_ids : loc)
  : M event (list stock_entry) :=
  create_stocks_with (fun offer_id stock => Stock offer_id stock)
    watch_remnants offer_ids.

Definition create_prices (watch_remnants : list watch) (offer_ids : loc)
  : M event (list price_entry) :=
  create_prices_with (fun watch =>
      ret {| auto_action_enabled := "UNKNOWN";
             currency_code := "RUB";
             p_offer_id := kod watch;
             old_price := "0";
             p_price := price_conversion (tsena watch) |})
    watch_remnants offer_ids.

(** [async def upload_prices] *)
Definition upload_prices (fuel : nat) (watch_remnants : list watch)
    (client_id seller_token : string) : coroutine event (list price_entry) :=
  Coroutine
    (let* offer_ids := get_offer_ids fuel client_id seller_token in
     let* prices := create_prices watch_remnants offer_ids in
     let* chunks := value_of (divide prices 1000) in
     for_each chunks tt (fun _ some_price =>
       update_price some_price client_id seller_token);;
     ret prices).

(** [async def upload_stocks] *)
Definition upload_stocks (fuel : nat) (watch_remnants : list watch)
    (client_id seller_token : string)
  : coroutine event (list stock_entry * list stock_entry) :=
  Coroutine
    (let* offer_ids := get_offer_ids fuel client_id seller_token in
     let* stocks := create_stocks watch_remnants offer_ids in
     let* chunks := value_of (divide stocks 100) in
     for_each chunks tt (fun _ some_stock =>
       update_stocks some_stock client_id seller_token);;
     let not_empty := List.filter (fun stock => negb (s_stock stock =? 0)) stocks in
     ret (not_empty, stocks)).

(** [main]; [client_id] and [seller_token] are read from the
    environment before the [try]. *)
Definition main (fuel : nat) (client_id seller_token : string) : M event unit :=
  try_except
    (let* offer_ids := get_offer_ids fuel client_id seller_token in
     let* watch_remnants := download_stock in
     let* stocks := create_stocks watch_remnants offer_ids in
     let* chunks := value_of (divide stocks 100) in
     for_each chunks tt (fun _ some_stock =>
       update_stocks some_stock client_id seller_token);;
     let* prices := create_prices watch_remnants offer_ids in
     let* chunks := value_of (divide prices 900) in
     for_each chunks tt (fun _ some_price =>
       update_price some_price client_id seller_token))
    (fun error =>
       match error with
       | Py.ReadTimeout => emit (Print None "Превышено время ожидания...")
       | Py.ConnectionError => emit (Print (Some error) "Ошибка соединения")
       | _ => emit (Print (Some error) "ERROR_2")
       end).
End Run.

End Seller.

(** ** market.py: the Yandex Market channels *)

Module Market.

Record offer : Type := Offer { shopSku : string }.
Record entry : Type := Entry { entry_offer : offer }.

(** The ["result"] object of an offer mapping response; [None] is a
    missing or null [nextPageToken]. *)
Record page : Type := Page {
  offerMappingEntries : list entry;
  nextPageToken : option string
}.

Record item : Type := Item {
  count : Z;
  type : string;
  updatedAt : string
}.

Record stock_entry : Type := Stock {
  sku : string;
  warehouseId : string;
  items : list item
}.

Record price_value : Type := PriceValue {
  value : Z;
  currencyId : string
}.

Record price_entry : Type := Price {
  id : string;
  price : price_value
}.

Inductive event : Type :=
  | OfferMappingEntries (page_token campaign_id access_token : string)
  | OfferStocks (stocks : list stock_entry) (campaign_id access_token : string)
  | OfferPrices (prices : list price_entry) (campaign_id access_token : string)
  | DownloadStock
  | Print (error : option Py.exn) (text : string).

Section Run.
Variable w : world page.

Definition get_product_list (page campaign_id access_token : string)
  : M event Market.page :=
  let* k := clock in
  emit (OfferMappingEntries page campaign_id access_token);;
  match page_reply w k with
  | inl e => raise e
  | inr result => ret result
  end.

Definition update_stocks (stocks : list stock_entry)
    (campaign_id access_token : string) : M event unit :=
  let* k := clock in
  emit (OfferStocks stocks campaign_id access_token);;
  match push_reply w k with
  | Some e => raise e
  | None => ret tt
  end.

Definition update_price (prices : list price_entry)
    (campaign_id access_token : string) : M event unit :=
  let* k := clock in
  emit (OfferPrices prices campaign_id access_token);;
  match push_reply w k with
  | Some e => raise e
  | None => ret tt
  end.

(** [download_stock] is imported from [seller.py]. *)
Definition download_stock : M event (list watch) :=
  emit DownloadStock;;
  match feed w with
  | inl e => raise e
  | inr watch_remnants => ret watch_remnants
  end.

(** [not page] for the token of the next page. *)
Definition no_page (page : option string) : bool :=
  match page with
  | None => true
  | Some t => bool_decide (t = "")
  end.

Fixpoint get_offer_ids_loop (fuel : nat) (page : string)
    (product_list : list entry) (campaign_id market_token : string)
  : M event (list entry) :=
  match fuel with
  | O => fun st => (Fault OutOfFuel, st)
  | S fuel' =>
      let* some_prod := get_product_list page campaign_id market_token in
      let product_list := product_list ++ offerMappingEntries some_prod in
      let page := nextPageToken some_prod in
      if no_page page then ret product_list
      else get_offer_ids_loop fuel' (default "" page) product_list
             campaign_id market_token
  end.

Definition get_offer_ids (fuel : nat) (campaign_id market_token : string)
  : M event loc :=
  let* product_list := get_offer_ids_loop fuel "" [] campaign_id market_token in
  let* offer_ids :=
    for_each product_list [] (fun offer_ids product =>
      ret (offer_ids ++ [shopSku (entry_offer product)])) in
  new_list offer_ids.

Definition create_stocks (watch_remnants : list watch) (offer_ids : loc)
    (warehouse_id : string) : M event (list stock_entry) :=
  let* k := clock in
  let date := (utcnow w k +:+ "Z")%string in
  create_stocks_with (fun offer_id stock =>
      {| sku := offer_id;
         warehouseId := warehouse_id;
         items := [ {| count := stock; type := "FIT"; updatedAt := date |} ] |})
    watch_remnants offer_ids.

Definition create_prices (watch_remnants : list watch) (offer_ids : loc)
  : M event (list price_entry) :=
  create_prices_with (fun watch =>
      let* value := value_of (Py.int (price_conversion (tsena watch))) in
      ret {| id := kod watch;
             price := {| value := value; currencyId := "RUR" |} |})
    watch_remnants offer_ids.

(** [async def upload_prices] *)
Definition upload_prices (fuel : nat) (watch_remnants : list watch)
    (campaign_id market_token : string)
  : coroutine event (list price_entry) :=
  Coroutine
    (let* offer_ids := get_offer_ids fuel campaign_id market_token in
     let* prices := create_prices watch_remnants offer_ids in
     let* chunks := value_of (divide prices 500) in
     for_each chunks tt (fun _ some_prices =>
       update_price some_prices campaign_id market_token);;
     ret prices).

(** [async def upload_stocks] *)
Definition upload_stocks (fuel : nat) (watch_remnants : list watch)
    (campaign_id market_token warehouse_id : string)
  : coroutine event (list stock_entry * list stock_entry) :=
  Coroutine
    (let* offer_ids := get_offer_ids fuel campaign_id market_token in
     let* stocks := create_stocks watch_remnants offer_ids warehouse_id in
     let* chunks := value_of (divide stocks 2000) in
     for_each chunks tt (fun _ some_stock =>
       update_stocks some_stock campaign_id market_token);;
     let not_empty :=
       List.filter (fun stock =>
         match items stock with
         | i :: _ => negb (count i =? 0)
         | [] => false
         end) stocks in
     ret (not_empty, stocks)).

Definition handler (error : Py.exn) : M event unit :=
  match error with
  | Py.ReadTimeout => emit (Print None "Превышено время ожидания...")
  | Py.ConnectionError => emit (Print (Some error) "Ошибка соединения")
  | _ => emit (Print (Some error) "ERROR_2")
  end.

(** [main]; the five settings are read from the environment first. *)
Definition main (fuel : nat)
    (market_token campaign_fbs_id campaign_dbs_id
     warehouse_fbs_id warehouse_dbs_id : string) : M event unit :=
  let* watch_remnants := download_stock in
  try_except
    (let* offer_ids := get_offer_ids fuel campaign_fbs_id market_token in
     let* stocks := create_stocks watch_remnants offer_ids warehouse_fbs_id in
     let* chunks := value_of (divide stocks 2000) in
     for_each chunks tt (fun _ some_stock =>
       update_stocks some_stock campaign_fbs_id market_token);;
     expr_stmt (upload_prices fuel watch_remnants campaign_fbs_id market_token);;
     let* offer_ids := get_offer_ids fuel campaign_dbs_id market_token in
     let* stocks := create_stocks watch_remnants offer_ids warehouse_dbs_id in
     let* chunks := value_of (divide stocks 2000) in
     for_each chunks tt (fun _ some_stock =>
       update_stocks some_stock campaign_dbs_id market_token);;
     expr_stmt (upload_prices fuel watch_remnants campaign_dbs_id market_token))
    handler.
End Run.

End Market.

(** ** Specification vocabulary *)

(** Texts made of decimal digits only, and the number they denote. *)
Fixpoint all_digits (s : string) : bool :=
  match s with
  | EmptyString => true
  | String c r => Py.is_digit c && all_digits r
  end.

Fixpoint value_from (acc : Z) (s : string) : Z :=
  match s with
  | EmptyString => acc
  | String c r =>
      match Py.digit_of c with
      | Some d => value_from (10 * acc + d) r
      | None => value_from acc r
      end
  end.

Definition decimal_value (s : string) : Z := value_from 0 s.

(** The characters a base ten numeral may be written with. *)
Definition numeral_char (c : ascii) : bool :=
  Py.is_digit c || Py.is_space c
  || Ascii.eqb c "-" || Ascii.eqb c "+" || Ascii.eqb c "_".

Fixpoint all_chars (p : ascii → bool) (s : string) : bool :=
  match s with
  | EmptyString => true
  | String c r => p c && all_chars p r
  end.

(** A visible ASCII character that no numeral is written with, such as a
    letter, a full stop or [>]. *)
Definition foreign_char (c : ascii) : bool :=
  let n := Py.nat_of c in
  (33 <=? n)%nat && (n <=? 126)%nat && negb (numeral_char c).

Fixpoint has_char (p : ascii → bool) (s : string) : bool :=
  match s with
  | EmptyString => false
  | String c r => p c || has_char p r
  end.

(** The sign before the digits of a numeral: none, [+] or [-]. *)
Definition sign_text (neg : option bool) : string :=
  match neg with
  | Some true => "-"
  | Some false => "+"
  | None => ""
  end.

(** A group of digits: a text of decimal digits that is not empty. *)
Definition digit_group (g : string) : Prop := g ≠ "" ∧ all_digits g = true.

(** A base ten numeral as it may be written: blanks, a sign, groups of
    digits with one underscore between two groups, blanks. *)
Definition numeral (a : string) (neg : option bool) (groups : list string)
    (b : string) : string :=
  a +:+ sign_text neg +:+ String.concat "_" groups +:+ b.

(** The number that the digits of a numeral denote, with its sign. *)
Definition numeral_value (neg : option bool) (groups : list string) : Z :=
  let v := decimal_value (String.concat "" groups) in
  if default false neg then - v else v.

(** The texts that denote an integer in base ten. *)
Definition well_formed (raw : string) : Prop :=
  ∃ a neg groups b,
    Py.all_space a = true ∧ Py.all_space b = true
    ∧ groups ≠ [] ∧ Forall digit_group groups
    ∧ raw = numeral a neg groups b.

(** A [str] is held as its UTF-8 bytes.  Beside the ASCII digits and
    blanks, [int] of CPython also reads the decimal digits and the
    blanks of other scripts, which [Py.int] does not know.  No such
    character occurs in an ASCII text, and a text with a letter of the
    Cyrillic block (U+0400 to U+04FF, the two-byte sequences led by
    0xD0 to 0xD3) is no numeral whatever else it holds. *)
Definition ascii_char (c : ascii) : bool := (Py.nat_of c <? 128)%nat.

Definition cyrillic_lead (c : ascii) : bool :=
  let n := Py.nat_of c in (208 <=? n)%nat && (n <=? 211)%nat.

Definition plain_text (s : string) : Prop :=
  all_chars ascii_char s = true ∨ has_char cyrillic_lead s = true.

(** The text up to the first full stop. *)
Fixpoint before_dot (s : string) : string :=
  match s with
  | EmptyString => EmptyString
  | String c r => if Ascii.eqb c "." then EmptyString else String c (before_dot r)
  end.

(** The chunks that [divide] cuts, counted in [nat]. *)
Section ChunkerVocabulary.
Context {A : Type}.

(** The chunks of [lst] of size [n], counted in [nat]. *)
Definition chunks_upto (n : nat) (lst : list A) (m : nat) : list (list A) :=
  map (fun k => take n (drop (k * n) lst)) (seq 0 m).

(** The number of chunks: the length of the list divided by [n], rounded
    up. *)
Definition chunk_count (lst : list A) (n : Z) : Z :=
  range_len 0 (Z.of_nat (length lst)) n.
End ChunkerVocabulary.

(** Lists of offer ids. *)

(** The list without the first occurrence of [x], if there is one. *)
Fixpoint remove_first (x : string) (l : list string) : list string :=
  match l with
  | [] => []
  | y :: r => if decide (y = x) then r else y :: remove_first x r
  end.

(** What is left of the offer ids once each code of the feed, in feed
    order, has taken away its first remaining occurrence. *)
Fixpoint remaining (codes : list string) (ids : list string) : list string :=
  match codes with
  | [] => ids
  | c :: cs => remaining cs (remove_first c ids)
  end.

(** The reconcilers as functions of the offer ids. *)
Section ReconcileVocabulary.
Context {E entry : Type} (mk : string → Z → entry).

(** The first loop of [create_stocks], with the list that the reference
    holds passed along: the outcome of the loop and the list it leaves. *)
Fixpoint stock_pass (rows : list watch) (ids : list string)
    (stocks : list entry) : outcome (list entry) * list string :=
  match rows with
  | [] => (Ok stocks, ids)
  | w :: rest =>
      if Py.contains (kod w) ids then
        match stock_of_quantity (kolichestvo w) with
        | Some q =>
            stock_pass rest (remove_first (kod w) ids) (stocks ++ [mk (kod w) q])
        | None => (Raise Py.ValueError, ids)
        end
      else stock_pass rest ids stocks
  end.

Definition set_list (l : loc) (ids : list string) (st : state E) : state E :=
  State (<[l := ids]> (heap st)) (log st).

(** One turn of the first loop of [create_stocks]. *)
Definition stock_row (l : loc) (stocks : list entry) (watch : watch)
  : M E (list entry) :=
  let* found := list_contains l (kod watch) in
  if found : bool then
    let* stock := value_of (stock_of_quantity (kolichestvo watch)) in
    let stocks := stocks ++ [mk (kod watch) stock] in
    list_remove l (kod watch);;
    ret stocks
  else ret stocks.
End ReconcileVocabulary.

(** The rows of the feed whose code is an offer id, in feed order. *)
Definition matching (ids : list string) (rows : list watch) : list watch :=
  filter (λ w, kod w ∈ ids) rows.

Definition market_stock (w : world Market.page) (warehouse_id : string)
    (k : nat) (offer_id : string) (stock : Z) : Market.stock_entry :=
  {| Market.sku := offer_id;
     Market.warehouseId := warehouse_id;
     Market.items :=
       [ {| Market.count := stock;
            Market.type := "FIT";
            Market.updatedAt := utcnow w k +:+ "Z" |} ] |}.

Definition seller_price (w : watch) : Seller.price_entry :=
  {| Seller.auto_action_enabled := "UNKNOWN";
     Seller.currency_code := "RUB";
     Seller.p_offer_id := kod w;
     Seller.old_price := "0";
     Seller.p_price := price_conversion (tsena w) |}.

Definition market_price (w : watch) : option Market.price_entry :=
  match Py.int (price_conversion (tsena w)) with
  | Some v =>
      Some {| Market.id := kod w;
              Market.price := {| Market.value := v; Market.currencyId := "RUR" |} |}
  | None => None
  end.

(** The catalog of the Ozon channel. *)
Section CatalogVocabulary.
Variable w : world Seller.page.
Variables client_id seller_token : string.

(** The pages [ps], added one after the other to the products [acc],
    never bring the number of products to the total they declare. *)
Fixpoint keeps_going (acc : list Seller.product) (ps : list Seller.page) : Prop :=
  match ps with
  | [] => True
  | p :: r =>
      Seller.total p ≠ Z.of_nat (length (acc ++ Seller.items p))
      ∧ keeps_going (acc ++ Seller.items p) r
  end.

(** The products of a sequence of pages. *)
Definition products (ps : list Seller.page) : list Seller.product :=
  concat (Seller.items <$> ps).

(** The requests that fetch one more page than [ps], the first with
    [cursor] and each next one with the [last_id] of the page before. *)
Definition requests (cursor : string) (ps : list Seller.page)
  : list Seller.event :=
  (λ c, Seller.ProductList c client_id seller_token)
    <$> (cursor :: (Seller.last_id <$> ps)).

(** The replies to the requests at the next positions of the log are
    the pages [ps]. *)
Definition served (st : state Seller.event) (ps : list Seller.page) : Prop :=
  ∀ j p, ps !! j = Some p → page_reply w (length (log st) + j) = inr p.
End CatalogVocabulary.

(** What a run adds to the log. *)

Definition is_price_upload (ev : Seller.event) : Prop :=
  match ev with
  | Seller.ImportPrices _ _ _ => True
  | _ => False
  end.

(** From [st] to [st'] the log has only grown, and by no price upload. *)
Definition quiet (st st' : state Seller.event) : Prop :=
  ∃ evs, log st' = log st ++ evs ∧ Forall (λ ev, ¬ is_price_upload ev) evs.

Section LogVocabulary.
Context {E : Type} (P : E → Prop).

(** Whatever the state and the outcome, the log grows by events that
    satisfy [P]. *)
Definition emits_only {A} (m : M E A) : Prop :=
  ∀ st, ∃ evs, log (snd (m st)) = log st ++ evs ∧ Forall P evs.
End LogVocabulary.

Definition no_price_upload (ev : Market.event) : Prop :=
  match ev with
  | Market.OfferPrices _ _ _ => False
  | _ => True
  end.

(** The price updates among the requests of a log. *)
Definition price_uploads (evs : list Market.event) : list Market.event :=
  List.filter (λ ev, match ev with
                     | Market.OfferPrices _ _ _ => true
                     | _ => false
                     end) evs.

(** The orchestrator as the specification describes it: the body of
    [main] with the two calls of [upload_prices] run to completion where
    they stand, as plain sequential calls. *)
Definition main_sequential (w : world Market.page) (fuel : nat)
    (market_token campaign_fbs_id campaign_dbs_id
     warehouse_fbs_id warehouse_dbs_id : string) : M Market.event unit :=
  let* watch_remnants := Market.download_stock w in
  try_except
    (let* offer_ids := Market.get_offer_ids w fuel campaign_fbs_id market_token in
     let* stocks := Market.create_stocks w watch_remnants offer_ids warehouse_fbs_id in
     let* chunks := value_of (divide stocks 2000) in
     for_each chunks tt (fun _ some_stock =>
       Market.update_stocks w some_stock campaign_fbs_id market_token);;
     await (Market.upload_prices w fuel watch_remnants campaign_fbs_id market_token);;
     let* offer_ids := Market.get_offer_ids w fuel campaign_dbs_id market_token in
     let* stocks := Market.create_stocks w watch_remnants offer_ids warehouse_dbs_id in
     let* chunks := value_of (divide stocks 2000) in
     for_each chunks tt (fun _ some_stock =>
       Market.update_stocks w some_stock campaign_dbs_id market_token);;
     await (Market.upload_prices w fuel watch_remnants campaign_dbs_id market_token);;
     ret tt)
    Market.handler.

(** ** Vocabulary of the further properties *)

Definition not_dot (c : ascii) : bool := negb (Ascii.eqb c ".").

(** The codes of a list in the order of their first occurrence. *)
Fixpoint first_occurrences (codes : list string) : list string :=
  match codes with
  | [] => []
  | c :: cs => c :: filter (λ x, x ≠ c) (first_occurrences cs)
  end.

(** The price entry that [create_prices] of [market.py] builds for a row
    whose price keeps a digit. *)
Definition market_price_entry (w : watch) : Market.price_entry :=
  {| Market.id := kod w;
     Market.price := {| Market.value := decimal_value (price_conversion (tsena w));
                        Market.currencyId := "RUR" |} |}.

(** The catalog of the Yandex channel. *)
Section MarketCatalogVocabulary.
Variable wm : world Market.page.
Variables campaign_id market_token : string.

(** Every page of [ps] names a next page. *)
Definition more_pages (ps : list Market.page) : Prop :=
  Forall (λ p, Market.no_page (Market.nextPageToken p) = false) ps.

(** The entries of a sequence of pages. *)
Definition listed (ps : list Market.page) : list Market.entry :=
  concat (Market.offerMappingEntries <$> ps).

(** The requests that fetch one more page than [ps], the first with
    [cursor] and each next one with the token of the page before. *)
Definition page_requests (cursor : string) (ps : list Market.page)
  : list Market.event :=
  (λ c, Market.OfferMappingEntries c campaign_id market_token)
    <$> (cursor :: ((λ p, default "" (Market.nextPageToken p)) <$> ps)).

(** The replies to the requests at the next positions of the log are
    the pages [ps]. *)
Definition answered (st : state Market.event) (ps : list Market.page) : Prop :=
  ∀ j p, ps !! j = Some p → page_reply wm (length (log st) + j) = inr p.
End MarketCatalogVocabulary.

(** The next [n] uploads of a run that stands at [st] are accepted. *)
Definition accepted {page E : Type} (w : world page) (st : state E) (n : nat) : Prop :=
  ∀ j, (j < n)%nat → push_reply w (length (log st) + j) = None.

(** The failure reports among the events of the two channels. *)
Definition seller_report (ev : Seller.event) : Prop :=
  match ev with
  | Seller.Print _ _ => True
  | _ => False
  end.

Definition market_report (ev : Market.event) : Prop :=
  match ev with
  | Market.Print _ _ => True
  | _ => False
  end.

(** * Lemmas and theorems *)

(** ** The builtins *)

Section Builtins.

Lemma digit_not_special c :
  Py.is_digit c = true →
  Py.is_space c = false ∧ Ascii.eqb c "-" = false ∧ Ascii.eqb c "+" = false
  ∧ Ascii.eqb c "_" = false ∧ Ascii.eqb c "." = false.
Proof.
  destruct c as [[] [] [] [] [] [] [] []]; vm_compute; intros;
    try discriminate; auto.
Qed.

Lemma space_not_special c :
  Py.is_space c = true →
  Py.digit_of c = None ∧ Ascii.eqb c "-" = false ∧ Ascii.eqb c "+" = false
  ∧ Ascii.eqb c "_" = false.
Proof.
  destruct c as [[] [] [] [] [] [] [] []]; vm_compute; intros;
    try discriminate; auto.
Qed.

Lemma is_digit_digit_of c :
  Py.is_digit c = true ↔ ∃ d, Py.digit_of c = Some d ∧ 0 ≤ d ≤ 9.
Proof.
  unfold Py.is_digit. split.
  - destruct (Py.digit_of c) as [d|] eqn:Hd; [intros _|done].
    exists d. split; [done|]. unfold Py.digit_of in Hd.
    destruct (_ && _) eqn:Hb; [|done]. injection Hd as <-.
    apply andb_true_iff in Hb as [H1%Nat.leb_le H2%Nat.leb_le]. lia.
  - intros (d & -> & _). done.
Qed.

Lemma scan_digits_all_digits s : ∀ acc,
  all_digits s = true →
  Py.scan_digits acc false s = Some (value_from acc s, EmptyString).
Proof.
  induction s as [|c r IH]; intros acc H; simpl in *; [done|].
  apply andb_true_iff in H as [Hc Hr].
  unfold Py.is_digit in Hc. destruct (Py.digit_of c); [|done].
  by apply IH.
Qed.

(** A plain digit text is read as the number it denotes. *)
Lemma int_all_digits s :
  all_digits s = true → s ≠ EmptyString → Py.int s = Some (decimal_value s).
Proof.
  destruct s as [|c r]; [done|]. intros H _.
  simpl in H. apply andb_true_iff in H as [Hc Hr].
  destruct (digit_not_special c Hc) as (Hs & Hm & Hp & _).
  unfold Py.int. simpl. rewrite Hs, Hm, Hp. simpl.
  unfold decimal_value. simpl.
  unfold Py.is_digit in Hc. destruct (Py.digit_of c) as [d|]; [|done].
  rewrite scan_digits_all_digits by done. simpl.
  by replace (10 * 0 + d) with d by lia.
Qed.

Lemma scan_digits_chars s : ∀ acc us v rest,
  Py.scan_digits acc us s = Some (v, rest) →
  all_chars numeral_char rest = true → all_chars numeral_char s = true.
Proof.
  induction s as [|c r IH]; intros acc us v rest H Hrest; simpl in *; [done|].
  unfold numeral_char at 1, Py.is_digit.
  destruct (Py.digit_of c) as [d|] eqn:Hd; simpl.
  - eauto.
  - destruct (Ascii.eqb c "_") eqn:Hu.
    + rewrite !orb_true_r. simpl. destruct us; [done|]. eauto.
    + destruct us; [done|]. injection H as <- <-. simpl in Hrest.
      apply andb_true_iff in Hrest as [Hc Hr]. rewrite Hr, andb_true_r.
      unfold numeral_char, Py.is_digit in Hc. by rewrite Hd, Hu in Hc.
Qed.

Lemma all_space_chars s :
  Py.all_space s = true → all_chars numeral_char s = true.
Proof.
  induction s as [|c r IH]; simpl; [done|].
  intros [Hc Hr]%andb_true_iff. rewrite IH by done.
  unfold numeral_char. rewrite Hc. by rewrite orb_true_r.
Qed.

Lemma lstrip_chars s :
  all_chars numeral_char (Py.lstrip s) = true → all_chars numeral_char s = true.
Proof.
  induction s as [|c r IH]; simpl; [done|].
  destruct (Py.is_space c) eqn:Hc; [|done].
  intros H. rewrite IH by done. unfold numeral_char. rewrite Hc.
  by rewrite orb_true_r.
Qed.

(** A text that [int] accepts is written with numeral characters only. *)
Lemma int_chars s z :
  Py.int s = Some z → all_chars numeral_char s = true.
Proof.
  unfold Py.int. intros H. apply lstrip_chars.
  destruct (Py.lstrip s) as [|c r] eqn:Hs; [done|].
  assert (Hnum : ∀ t, (∃ v rest, Py.scan_number t = Some (v, rest)
                         ∧ Py.all_space rest = true) →
                 all_chars numeral_char t = true).
  { intros [|c' r'] (v & rest & Hsc & Hsp); simpl in *; [done|].
    unfold numeral_char at 1, Py.is_digit.
    destruct (Py.digit_of c') as [d|]; [simpl|done].
    eapply scan_digits_chars; [done|]. by apply all_space_chars. }
  destruct (Ascii.eqb c "-") eqn:Hm; [|destruct (Ascii.eqb c "+") eqn:Hp].
  - destruct (Py.scan_number r) as [[v rest]|] eqn:Hsc; [|done].
    destruct (Py.all_space rest) eqn:Hsp; [|done].
    simpl. unfold numeral_char at 1. rewrite Hm, !orb_true_r. simpl. eauto.
  - destruct (Py.scan_number r) as [[v rest]|] eqn:Hsc; [|done].
    destruct (Py.all_space rest) eqn:Hsp; [|done].
    simpl. unfold numeral_char at 1. rewrite Hp, !orb_true_r. simpl. eauto.
  - destruct (Py.scan_number (String c r)) as [[v rest]|] eqn:Hsc; [|done].
    destruct (Py.all_space rest) eqn:Hsp; [|done]. eauto.
Qed.

Lemma has_foreign_char s :
  has_char foreign_char s = true → all_chars numeral_char s = false.
Proof.
  induction s as [|c r IH]; simpl; [done|].
  intros [Hc|Hr]%orb_true_iff.
  - unfold foreign_char in Hc. apply andb_true_iff in Hc as [_ Hc].
    apply negb_true_iff in Hc. by rewrite Hc.
  - rewrite IH by done. apply andb_false_r.
Qed.

(** A text with a foreign character is no numeral. *)
Lemma int_rejects s :
  has_char foreign_char s = true → Py.int s = None.
Proof.
  intros H%has_foreign_char. destruct (Py.int s) as [z|] eqn:Hz; [|done].
  apply int_chars in Hz. congruence.
Qed.

Lemma lstrip_space_app a s :
  Py.all_space a = true → Py.lstrip (a +:+ s) = Py.lstrip s.
Proof.
  induction a as [|c r IH]; simpl; [done|].
  intros [Hc Hr]%andb_true_iff. rewrite Hc. by apply IH.
Qed.

Lemma scan_digits_then_space d b : ∀ acc,
  all_digits d = true → Py.all_space b = true →
  Py.scan_digits acc false (d +:+ b) = Some (value_from acc d, b).
Proof.
  induction d as [|c r IH]; intros acc Hd Hb; simpl in *.
  - destruct b as [|c r]; [done|]. simpl in *.
    apply andb_true_iff in Hb as [Hc _].
    destruct (space_not_special c Hc) as (-> & _ & _ & ->). done.
  - apply andb_true_iff in Hd as [Hc Hr].
    unfold Py.is_digit in Hc. destruct (Py.digit_of c); [|done]. by apply IH.
Qed.

(** Blanks around a digit text and a sign before it are accepted. *)
Lemma int_numeral a (neg : option bool) d b :
  Py.all_space a = true → all_digits d = true → d ≠ EmptyString →
  Py.all_space b = true →
  Py.int (a +:+ match neg with
                | Some true => "-" | Some false => "+" | None => ""
                end +:+ d +:+ b)
  = Some (if default false neg then - decimal_value d else decimal_value d).
Proof.
  intros Ha Hd Hne Hb. unfold Py.int. rewrite lstrip_space_app by done.
  destruct d as [|c r]; [done|]. simpl in Hd.
  apply andb_true_iff in Hd as [Hc Hr].
  destruct (digit_not_special c Hc) as (Hs & Hm & Hp & _).
  assert (Hnum : Py.scan_number (String c (r +:+ b))
                 = Some (decimal_value (String c r), b)).
  { unfold decimal_value. simpl. unfold Py.is_digit in Hc.
    destruct (Py.digit_of c) as [x|]; [|done].
    rewrite scan_digits_then_space by done.
    by replace (10 * 0 + x) with x by lia. }
  assert (Hcons : ∀ x s t, String x s +:+ t = String x (s +:+ t)) by done.
  assert (Hnil : ∀ t, "" +:+ t = t) by done.
  destruct neg as [[]|]; rewrite ?Hcons, ?Hnil.
  - simpl in Hnum |- *. rewrite Hnum, Hb. done.
  - simpl in Hnum |- *. rewrite Hnum, Hb. done.
  - cbn [Py.lstrip]. rewrite Hs, Hm, Hp. rewrite Hnum, Hb. done.
Qed.

(** *** The numerals that [int] reads *)

Lemma value_from_app s t : ∀ acc,
  value_from acc (s +:+ t) = value_from (value_from acc s) t.
Proof.
  induction s as [|c r IH]; intros acc; simpl; [done|].
  destruct (Py.digit_of c); apply IH.
Qed.

Lemma scan_digits_run g rest : ∀ acc,
  all_digits g = true →
  Py.scan_digits acc false (g +:+ rest)
  = Py.scan_digits (value_from acc g) false rest.
Proof.
  induction g as [|c r IH]; intros acc Hg; simpl in *; [done|].
  apply andb_true_iff in Hg as [Hc Hr]. unfold Py.is_digit in Hc.
  destruct (Py.digit_of c); [|done]. by apply IH.
Qed.

Lemma scan_digits_group g rest acc us :
  digit_group g →
  Py.scan_digits acc us (g +:+ rest)
  = Py.scan_digits (value_from acc g) false rest.
Proof.
  intros [Hne Hg]. destruct g as [|c r]; [done|]. simpl in *.
  apply andb_true_iff in Hg as [Hc Hr]. unfold Py.is_digit in Hc.
  destruct (Py.digit_of c); [|done]. by apply scan_digits_run.
Qed.

Lemma scan_digits_blanks b acc :
  Py.all_space b = true → Py.scan_digits acc false b = Some (acc, b).
Proof.
  destruct b as [|c r]; simpl; [done|].
  intros [Hc _]%andb_true_iff.
  by destruct (space_not_special c Hc) as (-> & _ & _ & ->).
Qed.

Lemma concat_groups_cons sep g g1 gs :
  String.concat sep (g :: g1 :: gs) = g +:+ sep +:+ String.concat sep (g1 :: gs).
Proof. done. Qed.

Lemma append_assoc (s t u : string) : (s +:+ t) +:+ u = s +:+ t +:+ u.
Proof.
  induction s as [|c r IH]; [done|].
  change (String c ((r +:+ t) +:+ u) = String c (r +:+ t +:+ u)).
  by rewrite IH.
Qed.

(** Groups of digits with single underscores between them are read to
    the end, and the blanks after them are handed back. *)
Lemma scan_digits_groups b : ∀ gs g acc us,
  Py.all_space b = true →
  all_digits g = true → (us = true → g ≠ "") →
  Forall digit_group gs →
  Py.scan_digits acc us (String.concat "_" (g :: gs) +:+ b)
  = Some (value_from acc (String.concat "" (g :: gs)), b).
Proof.
  intros gs. induction gs as [|g1 gs IH]; intros g acc us Hb Hg Hus Hgs.
  - cbn [String.concat]. destruct g as [|c r].
    + destruct us; [by destruct Hus|]. by apply scan_digits_blanks.
    + rewrite (scan_digits_group (String c r)) by done.
      by apply scan_digits_blanks.
  - apply Forall_cons in Hgs as [Hg1 Hgs].
    rewrite !concat_groups_cons, !append_assoc.
    change ("" +:+ String.concat "" (g1 :: gs)) with (String.concat "" (g1 :: gs)).
    change ("_" +:+ String.concat "_" (g1 :: gs) +:+ b)
      with (String "_" (String.concat "_" (g1 :: gs) +:+ b)).
    rewrite value_from_app.
    assert (Hstep : Py.scan_digits acc us
                      (g +:+ String "_" (String.concat "_" (g1 :: gs) +:+ b))
                    = Py.scan_digits (value_from acc g) true
                        (String.concat "_" (g1 :: gs) +:+ b)).
    { destruct g as [|c r].
      - destruct us; [by destruct Hus|]. done.
      - by rewrite (scan_digits_group (String c r)). }
    rewrite Hstep. apply IH; [done|by destruct Hg1|by destruct Hg1|done].
Qed.

(** What [scan_digits] has read is the rest of a group of digits and
    then whole groups, each after one underscore. *)
Lemma scan_digits_shape s : ∀ acc us v rest,
  Py.scan_digits acc us s = Some (v, rest) →
  ∃ g gs,
    s = String.concat "_" (g :: gs) +:+ rest
    ∧ all_digits g = true ∧ (us = true → g ≠ "") ∧ Forall digit_group gs.
Proof.
  induction s as [|c r IH]; intros acc us v rest H; simpl in H.
  - destruct us; [done|]. injection H as <- <-.
    exists "", []. by split_and!.
  - destruct (Py.digit_of c) as [d|] eqn:Hd.
    + destruct (IH _ _ _ _ H) as (g & gs & -> & Hg & _ & Hgs).
      exists (String c g), gs. split_and!; [|simpl|done|done].
      * destruct gs; [done|]. by rewrite !concat_groups_cons.
      * unfold Py.is_digit. by rewrite Hd.
    + destruct (Ascii.eqb c "_") eqn:Hu.
      * destruct us; [done|]. apply Ascii.eqb_eq in Hu as ->.
        destruct (IH _ _ _ _ H) as (g & gs & -> & Hg & Hne & Hgs).
        exists "", (g :: gs). split_and!; [done|done|done|].
        apply Forall_cons. split; [|done]. split; [by apply Hne|done].
      * destruct us; [done|]. injection H as <- <-.
        exists "", []. by split_and!.
Qed.

Lemma lstrip_blanks s :
  ∃ a, Py.all_space a = true ∧ s = a +:+ Py.lstrip s.
Proof.
  induction s as [|c r (a & Ha & Hr)]; simpl.
  - by exists "".
  - destruct (Py.is_space c) eqn:Hc.
    + exists (String c a). simpl. rewrite Hc, Ha. split; [done|].
      change (String c r = String c (a +:+ Py.lstrip r)). by rewrite <- Hr.
    + by exists "".
Qed.

Lemma scan_number_shape s v rest :
  Py.scan_number s = Some (v, rest) →
  ∃ groups,
    s = String.concat "_" groups +:+ rest
    ∧ groups ≠ [] ∧ Forall digit_group groups.
Proof.
  destruct s as [|c r]; simpl; [done|].
  destruct (Py.digit_of c) as [d|] eqn:Hd; [|done]. intros H.
  destruct (scan_digits_shape _ _ _ _ _ H) as (g & gs & -> & Hg & _ & Hgs).
  exists (String c g :: gs). split_and!; [|done|].
  - destruct gs; [done|]. by rewrite !concat_groups_cons.
  - apply Forall_cons. split; [|done]. split; [done|]. simpl.
    unfold Py.is_digit. by rewrite Hd.
Qed.

(** Every text that [int] reads is a numeral. *)
Lemma int_well_formed s v : Py.int s = Some v → well_formed s.
Proof.
  unfold Py.int. intros H.
  destruct (lstrip_blanks s) as (a & Ha & Hs).
  assert (Hnum : ∀ neg t,
            Py.lstrip s = sign_text neg +:+ t →
            (∃ v rest, Py.scan_number t = Some (v, rest)
                       ∧ Py.all_space rest = true) →
            well_formed s).
  { intros neg t Ht (v' & rest & Hsc & Hsp).
    destruct (scan_number_shape _ _ _ Hsc) as (groups & -> & Hne & Hgs).
    exists a, neg, groups, rest. split_and!; try done.
    unfold numeral. by rewrite <- Ht. }
  destruct (Py.lstrip s) as [|c r] eqn:Hl; [done|].
  destruct (Ascii.eqb c "-") eqn:Hm; [|destruct (Ascii.eqb c "+") eqn:Hp].
  - apply Ascii.eqb_eq in Hm as ->.
    destruct (Py.scan_number r) as [[v' rest]|] eqn:Hsc; [|done].
    destruct (Py.all_space rest) eqn:Hsp; [|done].
    apply (Hnum (Some true) r); [done|eauto].
  - apply Ascii.eqb_eq in Hp as ->.
    destruct (Py.scan_number r) as [[v' rest]|] eqn:Hsc; [|done].
    destruct (Py.all_space rest) eqn:Hsp; [|done].
    apply (Hnum (Some false) r); [done|eauto].
  - destruct (Py.scan_number (String c r)) as [[v' rest]|] eqn:Hsc; [|done].
    destruct (Py.all_space rest) eqn:Hsp; [|done].
    apply (Hnum None (String c r)); [done|eauto].
Qed.

(** Every numeral is read as the number its digits denote. *)
Lemma int_of_numeral a neg groups b :
  Py.all_space a = true → Py.all_space b = true →
  groups ≠ [] → Forall digit_group groups →
  Py.int (numeral a neg groups b) = Some (numeral_value neg groups).
Proof.
  intros Ha Hb Hne Hgs. destruct groups as [|g gs]; [done|].
  apply Forall_cons in Hgs as [[Hg0 Hg] Hgs].
  destruct g as [|c r]; [done|]. simpl in Hg.
  apply andb_true_iff in Hg as [Hc Hr].
  destruct (digit_not_special c Hc) as (Hs & Hm & Hp & _).
  unfold Py.is_digit in Hc. destruct (Py.digit_of c) as [d|] eqn:Hd; [|done].
  assert (Hcat : ∀ sep, String.concat sep (String c r :: gs)
                        = String c (String.concat sep (r :: gs))).
  { intros sep. destruct gs; [done|]. by rewrite !concat_groups_cons. }
  assert (Hnum : Py.scan_number (String.concat "_" (String c r :: gs) +:+ b)
                 = Some (decimal_value (String.concat "" (String c r :: gs)), b)).
  { rewrite !Hcat. unfold decimal_value. simpl. rewrite Hd.
    by apply scan_digits_groups. }
  unfold Py.int, numeral, numeral_value. rewrite lstrip_space_app by done.
  assert (Hcons : ∀ x s t, String x s +:+ t = String x (s +:+ t)) by done.
  assert (Hnil : ∀ t, "" +:+ t = t) by done.
  destruct neg as [[]|]; cbn [sign_text default]; rewrite ?Hcons, ?Hnil.
  - remember (String.concat "_" (String c r :: gs) +:+ b) as t eqn:Ht.
    remember (decimal_value (String.concat "" (String c r :: gs))) as v eqn:Hv.
    simpl. by rewrite Hnum, Hb.
  - remember (String.concat "_" (String c r :: gs) +:+ b) as t eqn:Ht.
    remember (decimal_value (String.concat "" (String c r :: gs))) as v eqn:Hv.
    simpl. by rewrite Hnum, Hb.
  - rewrite Hcat in Hnum |- *. rewrite Hcons in Hnum |- *.
    cbn [Py.lstrip]. rewrite Hs, Hm, Hp. by rewrite Hnum, Hb.
Qed.

Lemma well_formed_int s : well_formed s → is_Some (Py.int s).
Proof.
  intros (a & neg & groups & b & Ha & Hb & Hne & Hgs & ->).
  rewrite int_of_numeral by done. by eexists.
Qed.

(** ** [price_conversion] *)

Lemma re_sub_all_digits s : all_digits (Py.re_sub_non_digits s) = true.
Proof.
  induction s as [|c r IH]; simpl; [done|].
  destruct (Py.is_digit c) eqn:Hc; simpl; [by rewrite Hc|done].
Qed.

Lemma split_head s : hd EmptyString (Py.split "." s) = before_dot s.
Proof.
  induction s as [|c r IH]; simpl; [done|].
  destruct (Ascii.eqb c "."); [done|].
  destruct (Py.split "." r) as [|p ps]; simpl in *; by rewrite <- IH.
Qed.

Lemma price_conversion_spec raw :
  price_conversion raw = Py.re_sub_non_digits (before_dot raw)
  ∧ all_digits (price_conversion raw) = true.
Proof.
  unfold price_conversion. rewrite split_head. split; [done|].
  apply re_sub_all_digits.
Qed.

(** What [market.py] makes of a price cell: the number the kept digits
    denote, and [ValueError] when no digit is kept. *)
Lemma int_price_conversion raw :
  Py.int (price_conversion raw)
  = if decide (price_conversion raw = EmptyString) then None
    else Some (decimal_value (price_conversion raw)).
Proof.
  case_decide as H; [by rewrite H|].
  apply int_all_digits; [|done]. apply price_conversion_spec.
Qed.
End Builtins.

(** ** The chunker *)

Section Chunker.
Context {A : Type}.
Implicit Types (lst : list A) (n : Z).

Lemma slice_forward lst (i n : Z) :
  0 ≤ i → 0 ≤ n →
  slice lst i (i + n) = take (Z.to_nat n) (drop (Z.to_nat i) lst).
Proof.
  intros Hi Hn. unfold slice.
  destruct (Z.ltb_spec i 0) as [?|_]; [lia|].
  destruct (Z.ltb_spec (i + n) 0) as [?|_]; [lia|].
  destruct (Z.le_gt_cases i (Z.of_nat (length lst))) as [Hle|Hgt].
  - rewrite (Z.min_l i) by lia.
    destruct (Z.le_gt_cases (i + n) (Z.of_nat (length lst))) as [Hle'|Hgt'].
    + rewrite Z.min_l by lia. f_equal. lia.
    + rewrite Z.min_r by lia.
      rewrite !take_ge; [done| |]; rewrite length_drop; lia.
  - rewrite !Z.min_r by lia. rewrite !drop_ge by lia. by rewrite !take_nil.
Qed.

Lemma divide_chunks lst n :
  0 < n →
  divide lst n
  = Some (chunks_upto (Z.to_nat n) lst (Z.to_nat (chunk_count lst n))).
Proof.
  intros Hn. unfold divide, range, chunk_count.
  destruct (Z.eqb_spec n 0) as [?|_]; [lia|]. f_equal.
  set (m := range_len 0 (Z.of_nat (length lst)) n).
  unfold chunks_upto, seqZ. change (@fmap list list_fmap) with (@map).
  rewrite !map_map. apply map_ext. intros k.
  rewrite slice_forward by lia. do 2 f_equal. lia.
Qed.

Lemma concat_chunks_upto (n : nat) lst (m : nat) :
  concat (chunks_upto n lst m) = take (m * n) lst.
Proof.
  unfold chunks_upto. induction m as [|m IH]; [done|].
  rewrite seq_S, map_app, concat_app, IH. simpl. rewrite app_nil_r.
  rewrite take_take_drop. f_equal. lia.
Qed.

Lemma chunk_count_pos lst n :
  0 < n →
  let len := Z.of_nat (length lst) in
  let m := chunk_count lst n in
  0 ≤ m ∧ len ≤ m * n ∧ (0 < len → (m - 1) * n < len) ∧ (0 < m → 0 < len).
Proof.
  intros Hn len m. subst m. unfold chunk_count, range_len. fold len.
  destruct (Z.ltb_spec 0 n) as [_|?]; [|lia].
  destruct (Z.ltb_spec 0 len) as [Hlen|Hlen]; [|lia].
  rewrite Z.sub_0_r.
  pose proof (Z.div_mod (len - 1) n ltac:(lia)) as Hdm.
  pose proof (Z.mod_pos_bound (len - 1) n Hn) as Hb.
  assert (0 ≤ (len - 1) / n) by (apply Z.div_pos; lia).
  nia.
Qed.
End Chunker.

(** ** Claims about the normalisers and the chunker *)

(** C3. The quantity policy of [create_stocks]: the token [">10"] gives
    100, the token ["1"] gives 0, and every other text goes through
    [int].  A text that denotes an integer in base ten (blanks, a sign,
    groups of digits with one underscore between two groups, blanks; a
    plain digit text such as ["7"] is the simplest case) gives the
    number its digits denote.  Every other text fails with
    [ValueError]: the empty text, a text of blanks, a sign without
    digits, a blank or a sign among the digits, an underscore that does
    not stand between two digits, and every text with a letter or
    another visible character that no numeral is written with, such as
    ["abc"].  The failure of every ill-formed text is stated for ASCII
    text and for text with a Cyrillic letter. *)
Theorem quantity_policy :
  stock_of_quantity ">10" = Some 100
  ∧ stock_of_quantity "1" = Some 0
  ∧ (∀ d, all_digits d = true → d ≠ "" → d ≠ "1" →
       stock_of_quantity d = Some (decimal_value d))
  ∧ (∀ a (neg : option bool) d b,
       let raw := a +:+ match neg with
                        | Some true => "-" | Some false => "+" | None => ""
                        end +:+ d +:+ b in
       Py.all_space a = true → all_digits d = true → d ≠ "" →
       Py.all_space b = true → raw ≠ ">10" → raw ≠ "1" →
       stock_of_quantity raw
       = Some (if default false neg then - decimal_value d else decimal_value d))
  ∧ (∀ a neg groups b,
       let raw := numeral a neg groups b in
       Py.all_space a = true → Py.all_space b = true →
       groups ≠ [] → Forall digit_group groups → raw ≠ "1" →
       stock_of_quantity raw = Some (numeral_value neg groups))
  ∧ (∀ raw, plain_text raw → raw ≠ ">10" → ¬ well_formed raw →
       stock_of_quantity raw = None)
  ∧ (∀ raw, raw ≠ ">10" → has_char foreign_char raw = true →
       stock_of_quantity raw = None)
  ∧ stock_of_quantity "7" = Some 7
  ∧ stock_of_quantity "abc" = None
  ∧ Forall (λ raw, stock_of_quantity raw = None)
      [""; " "; "-"; "+"; "5 5"; "- 5"; "+-5"; "1__0"; "_1"; "1_"; "1.0";
       "много"; "нет"].
Proof.
  assert (Hint : ∀ raw, raw ≠ ">10" → raw ≠ "1" →
                 stock_of_quantity raw = Py.int raw).
  { intros raw H1 H2. unfold stock_of_quantity. by rewrite !decide_False. }
  split_and!; try done.
  - intros d Hd Hne H1. rewrite Hint.
    + by apply int_all_digits.
    + intros ->. vm_compute in Hd. discriminate Hd.
    + exact H1.
  - intros a neg d b raw Ha Hd Hne Hb H10 H1. rewrite Hint by done.
    by apply int_numeral.
  - intros a neg groups b raw Ha Hb Hne Hgs H1.
    pose proof (int_of_numeral a neg groups b Ha Hb Hne Hgs) as Hnum.
    fold raw in Hnum. rewrite Hint; [done| |done].
    intros Heq. rewrite Heq in Hnum. vm_compute in Hnum. discriminate Hnum.
  - intros raw _ H10 Hraw. unfold stock_of_quantity.
    rewrite decide_False by done.
    destruct (decide (raw = "1")) as [->|_].
    + destruct Hraw. exists "", None, ["1"], "". by split_and!; repeat constructor.
    + destruct (Py.int raw) as [v|] eqn:Hv; [|done].
      by apply int_well_formed in Hv.
  - intros raw Hne Hraw. rewrite Hint.
    + by apply int_rejects.
    + exact Hne.
    + intros ->. vm_compute in Hraw. discriminate Hraw.
  - repeat (apply Forall_cons; split; [by vm_compute|]). apply Forall_nil_2.
Qed.

Lemma quantity_policy_witness :
  stock_of_quantity "0042" = Some 42
  ∧ stock_of_quantity " -1_000 " = Some (- 1000)
  ∧ stock_of_quantity "5 5" = None
  ∧ stock_of_quantity "12 pcs" = None.
Proof.
  destruct quantity_policy as (_ & _ & Hd & _ & Hn & Hf & Hr & _). split_and!.
  - apply (Hd "0042"); [reflexivity|discriminate|discriminate].
  - apply (Hn " " (Some true) ["1"; "000"] " ");
      [reflexivity|reflexivity|discriminate| |discriminate].
    apply Forall_cons. split; [split; [discriminate|reflexivity]|].
    apply Forall_cons. split; [split; [discriminate|reflexivity]|].
    apply Forall_nil_2.
  - apply (Hf "5 5"); [left; reflexivity|discriminate|].
    intros Hw. apply well_formed_int in Hw as [v Hv].
    vm_compute in Hv. discriminate Hv.
  - apply (Hr "12 pcs"); [discriminate|reflexivity].
Defined.

(** C5. For a positive size the chunks of [divide], put together in
    order, are the list again; every chunk but the last has [n]
    elements, and the last has [len mod n] of them, or [n] when [n]
    divides the length. *)
Theorem divide_concat_and_lengths {A} (items : list A) (n : Z) :
  0 < n →
  ∃ chunks,
    divide items n = Some chunks
    ∧ concat chunks = items
    ∧ ∀ (i : nat) c, chunks !! i = Some c →
        Z.of_nat (length c)
        = if decide (S i < length chunks)%nat then n
          else if decide (Z.of_nat (length items) mod n = 0) then n
               else Z.of_nat (length items) mod n.
Proof.
  intros Hn. eexists. split; [by apply divide_chunks|].
  destruct (chunk_count_pos items n Hn) as (Hm0 & Hcover & Hlast & Hpos).
  set (m := chunk_count items n) in *. set (len := Z.of_nat (length items)) in *.
  split.
  - rewrite concat_chunks_upto. apply take_ge. nia.
  - intros i c Hc. unfold chunks_upto in *. rewrite length_map, length_seq.
    change (@map nat (list A)) with (@fmap list _ nat (list A)) in Hc.
    apply list_lookup_fmap_Some in Hc as (k & -> & Hk).
    apply lookup_seq in Hk as [-> Hi]. simpl.
    rewrite length_take, length_drop.
    assert (0 < len) by (apply Hpos; lia).
    specialize (Hlast ltac:(done)).
    case_decide as Hlt.
    + nia.
    + assert (Z.of_nat i = m - 1) as Hi' by lia.
      set (r := len - (m - 1) * n).
      assert (0 < r ≤ n) by (subst r; nia).
      match goal with
      | |- Z.of_nat ?x = _ => assert (Z.of_nat x = r) as -> by (subst r len; nia)
      end.
      case_decide as Hmod.
      * apply Z.mod_divide in Hmod as [q Hq]; [|lia].
        assert (q = m) by nia. subst r. nia.
      * apply (Z.mod_unique_pos len n (m - 1) r); [|subst r; lia].
        split; [lia|]. destruct (decide (r = n)) as [Hr|]; [|lia].
        exfalso. apply Hmod. assert (len = m * n) as -> by (subst r; lia).
        apply Z.mod_mul. lia.
Qed.

Lemma divide_concat_and_lengths_witness :
  ∃ chunks,
    divide [1; 2; 3; 4; 5; 6; 7] 3 = Some chunks
    ∧ concat chunks = [1; 2; 3; 4; 5; 6; 7]
    ∧ ∀ (i : nat) c, chunks !! i = Some c →
        Z.of_nat (length c)
        = if decide (S i < length chunks)%nat then 3
          else if decide (7 mod 3 = 0) then 3 else 7 mod 3.
Proof. apply (divide_concat_and_lengths [1; 2; 3; 4; 5; 6; 7] 3). lia. Defined.

(** C6, as the code has it.  A size of zero makes [range] raise
    [ValueError]; a negative size makes it empty, so [divide] yields no
    chunk and raises nothing. *)
Theorem divide_non_positive_size {A} (items : list A) (size : Z) :
  size ≤ 0 →
  divide items size = if decide (size = 0) then None else Some [].
Proof.
  intros Hs. unfold divide, range.
  destruct (Z.eqb_spec size 0) as [->|Hne]; [done|].
  rewrite decide_False by done. unfold range_len.
  destruct (Z.ltb_spec 0 size) as [?|_]; [lia|].
  destruct (Z.ltb_spec (Z.of_nat (length items)) 0) as [?|_]; [lia|]. done.
Qed.

Lemma divide_non_positive_size_witness :
  divide [1; 2; 3] 0 = None ∧ divide [1; 2; 3] (-5) = Some [].
Proof.
  split.
  - apply (divide_non_positive_size [1; 2; 3] 0). lia.
  - apply (divide_non_positive_size [1; 2; 3] (-5)). lia.
Defined.

(** C6 as stated fails: a negative size raises nothing. *)
Lemma divide_negative_size_counterexample :
  divide [1; 2; 3] (-1) = Some []
  ∧ ¬ (∀ (items : list Z) (size : Z), size ≤ 0 → divide items size = None).
Proof.
  split; [reflexivity|].
  intros H. specialize (H [1; 2; 3] (-1) ltac:(lia)). discriminate H.
Qed.

(** ** Lists of offer ids *)

Section OfferIds.
Implicit Types (x y : string) (l ids : list string).

Lemma remove_present x l : x ∈ l → Py.remove x l = Some (remove_first x l).
Proof.
  induction l as [|y r IH]; simpl; [by intros ?%elem_of_nil|].
  intros Hx. case_decide as Hy; [done|].
  apply elem_of_cons in Hx as [->|Hx]; [done|]. by rewrite IH.
Qed.

Lemma remove_absent x l : x ∉ l → Py.remove x l = None ∧ remove_first x l = l.
Proof.
  induction l as [|y r IH]; simpl; [done|].
  intros Hx. apply not_elem_of_cons in Hx as [Hne Hx].
  rewrite !decide_False by congruence. destruct (IH Hx) as [-> ->]. done.
Qed.

Lemma remove_first_perm x l : x ∈ l → l ≡ₚ x :: remove_first x l.
Proof.
  induction l as [|y r IH]; simpl; [by intros ?%elem_of_nil|].
  intros Hx. case_decide as Hy; [by subst|].
  apply elem_of_cons in Hx as [Heq|Hx]; [by subst|].
  rewrite (IH Hx) at 1. apply Permutation_swap.
Qed.

Lemma filter_other_id x l : x ∉ l → filter (λ y, y ≠ x) l = l.
Proof.
  induction l as [|y r IH]; [done|].
  intros [Hne Hx]%not_elem_of_cons.
  rewrite filter_cons_True by done. by rewrite IH.
Qed.

Lemma remove_first_filter x l :
  NoDup l → remove_first x l = filter (λ y, y ≠ x) l.
Proof.
  induction 1 as [|y r Hy Hr IH]; simpl; [done|].
  case_decide as Hyx.
  - subst y. rewrite filter_cons_False by (intros ?; done).
    by rewrite filter_other_id.
  - rewrite filter_cons_True by done. by rewrite IH.
Qed.

Lemma remove_first_other x y l : x ≠ y → x ∈ remove_first y l ↔ x ∈ l.
Proof.
  intros Hne. induction l as [|z r IH]; simpl; [done|].
  case_decide as Hz.
  - subst z. rewrite elem_of_cons. intuition congruence.
  - rewrite !elem_of_cons, IH. done.
Qed.

Lemma remove_first_sublist x l : remove_first x l `sublist_of` l.
Proof.
  induction l as [|y r IH]; simpl; [done|].
  case_decide; [by apply sublist_cons|by apply sublist_skip].
Qed.

Lemma remaining_sublist codes : ∀ ids, remaining codes ids `sublist_of` ids.
Proof.
  induction codes as [|c cs IH]; intros ids; simpl; [done|].
  etrans; [apply IH|apply remove_first_sublist].
Qed.

(** On a list without duplicates the ids left over are those that no
    row of the feed carries, in their original order. *)
Lemma remaining_filter codes : ∀ ids,
  NoDup ids → remaining codes ids = filter (λ x, x ∉ codes) ids.
Proof.
  induction codes as [|c cs IH]; intros ids Hnd; simpl.
  - symmetry. induction ids as [|y r IHr]; [done|].
    rewrite filter_cons_True by apply not_elem_of_nil.
    rewrite IHr; [done|]. by apply NoDup_cons in Hnd as [_ ?].
  - rewrite IH
      by (apply (sublist_NoDup _ ids); [done|apply remove_first_sublist]).
    rewrite remove_first_filter by done. rewrite list_filter_filter.
    apply list_filter_iff. intros x. rewrite not_elem_of_cons. tauto.
Qed.

Lemma remaining_nil codes : remaining codes [] = [].
Proof. induction codes; simpl; auto. Qed.
End OfferIds.

(** ** The stock reconciler as a function of the offer ids *)

Section StockPass.
Context {E entry : Type} (mk : string → Z → entry) (key : entry → string).
Hypothesis key_mk : ∀ x q, key (mk x q) = x.

Lemma set_list_same l ids (st : state E) :
  heap st !! l = Some ids → set_list l ids st = st.
Proof.
  intros H. destruct st as [h lg]. unfold set_list. simpl in *.
  by rewrite insert_id.
Qed.

Lemma set_list_twice l ids ids' (st : state E) :
  set_list l ids' (set_list l ids st) = set_list l ids' st.
Proof. unfold set_list. simpl. by rewrite insert_insert_eq. Qed.

Lemma bind_ok {A B} (m : M E A) (k : A → M E B) st a st' :
  m st = (Ok a, st') → bind m k st = k a st'.
Proof. intros H. unfold bind. by rewrite H. Qed.

Lemma bind_raise {A B} (m : M E A) (k : A → M E B) st e st' :
  m st = (Raise e, st') → bind m k st = (Raise e, st').
Proof. intros H. unfold bind. by rewrite H. Qed.

Lemma bind_fault {A B} (m : M E A) (k : A → M E B) st f st' :
  m st = (Fault f, st') → bind m k st = (Fault f, st').
Proof. intros H. unfold bind. by rewrite H. Qed.

Lemma list_contains_run l x ids (st : state E) :
  heap st !! l = Some ids →
  list_contains l x st = (Ok (Py.contains x ids), st).
Proof. intros H. unfold list_contains, bind, read_list. by rewrite H. Qed.

Lemma list_remove_run l x ids (st : state E) :
  heap st !! l = Some ids → x ∈ ids →
  list_remove l x st = (Ok tt, set_list l (remove_first x ids) st).
Proof.
  intros H Hx. unfold list_remove, bind, read_list. rewrite H.
  by rewrite (remove_present _ _ Hx).
Qed.

Lemma for_each_cons {A B} (x : A) r (acc : B) (body : B → A → M E B) st :
  for_each (x :: r) acc body st
  = match body acc x st with
    | (Ok acc', st') => for_each r acc' body st'
    | (Raise e, st') => (Raise e, st')
    | (Fault f, st') => (Fault f, st')
    end.
Proof. done. Qed.

Lemma stock_row_run l stocks w ids (st : state E) :
  heap st !! l = Some ids →
  stock_row mk l stocks w st
  = if Py.contains (kod w) ids then
      match stock_of_quantity (kolichestvo w) with
      | Some q => (Ok (stocks ++ [mk (kod w) q]),
                   set_list l (remove_first (kod w) ids) st)
      | None => (Raise Py.ValueError, st)
      end
    else (Ok stocks, st).
Proof.
  intros Hl. unfold stock_row.
  rewrite (bind_ok _ _ _ _ _ (list_contains_run l (kod w) ids st Hl)).
  destruct (Py.contains (kod w) ids) eqn:Hin; [|done].
  apply bool_decide_eq_true in Hin.
  destruct (stock_of_quantity (kolichestvo w)) as [q|]; [|done].
  simpl value_of. unfold bind at 1, ret at 1.
  by rewrite (bind_ok _ _ _ _ _ (list_remove_run l (kod w) ids st Hl Hin)).
Qed.

Lemma first_loop_run rows l : ∀ ids stocks (st : state E),
  heap st !! l = Some ids →
  for_each rows stocks (stock_row mk l) st
  = (fst (stock_pass mk rows ids stocks),
     set_list l (snd (stock_pass mk rows ids stocks)) st).
Proof.
  induction rows as [|w rest IH]; intros ids stocks st Hl.
  - simpl. by rewrite set_list_same.
  - rewrite for_each_cons, (stock_row_run _ _ _ _ _ Hl). simpl.
    destruct (Py.contains (kod w) ids); [|by apply IH].
    destruct (stock_of_quantity (kolichestvo w)) as [q|].
    + rewrite (IH (remove_first (kod w) ids)).
      * f_equal. apply set_list_twice.
      * simpl. apply lookup_insert_eq.
    + simpl. by rewrite set_list_same.
Qed.

Lemma second_loop_run ids : ∀ stocks (st : state E),
  for_each ids stocks (fun stocks offer_id => ret (stocks ++ [mk offer_id 0])) st
  = (Ok (stocks ++ ((λ x, mk x 0) <$> ids)), st).
Proof.
  induction ids as [|x r IH]; intros stocks st; simpl.
  - by rewrite app_nil_r.
  - unfold bind, ret at 1. rewrite IH. by rewrite <- app_assoc.
Qed.

(** [create_stocks] in terms of the pass: the entries are the matched
    ones followed by a zero entry for every id left, and the list behind
    the reference is replaced by what the pass leaves. *)
Lemma create_stocks_with_run rows l ids (st : state E) :
  heap st !! l = Some ids →
  create_stocks_with mk rows l st
  = (match fst (stock_pass mk rows ids []) with
     | Ok stocks =>
         Ok (stocks ++ ((λ x, mk x 0) <$> snd (stock_pass mk rows ids [])))
     | Raise e => Raise e
     | Fault f => Fault f
     end,
     set_list l (snd (stock_pass mk rows ids [])) st).
Proof.
  intros Hl. unfold create_stocks_with. unfold bind at 1.
  change (for_each rows [] _ st) with (for_each rows [] (stock_row mk l) st).
  rewrite (first_loop_run rows l ids [] st Hl).
  destruct (stock_pass mk rows ids []) as [[stocks|e|f] ids']; simpl; [|done..].
  unfold bind, read_list. simpl. rewrite lookup_insert_eq.
  by rewrite second_loop_run.
Qed.

Lemma stock_pass_ok rows : ∀ ids acc stocks ids',
  stock_pass mk rows ids acc = (Ok stocks, ids') →
  ids' = remaining (kod <$> rows) ids
  ∧ (key <$> stocks) ++ ids' ≡ₚ (key <$> acc) ++ ids
  ∧ acc `prefix_of` stocks.
Proof.
  induction rows as [|w rest IH]; intros ids acc stocks ids' H; simpl in *.
  - by injection H as <- <-.
  - destruct (Py.contains (kod w) ids) eqn:Hin.
    + apply bool_decide_eq_true in Hin.
      destruct (stock_of_quantity (kolichestvo w)) as [q|]; [|done].
      apply IH in H as (-> & Hp & Hpre). split_and!; [done| |].
      * rewrite Hp, fmap_app. simpl. rewrite key_mk, <- app_assoc. simpl.
        by rewrite <- (remove_first_perm _ _ Hin).
      * etrans; [|done]. by apply prefix_app_r.
    + apply bool_decide_eq_false in Hin.
      rewrite (proj2 (remove_absent _ _ Hin)). by apply IH.
Qed.

Lemma stock_pass_not_ok rows : ∀ ids acc,
  match fst (stock_pass mk rows ids acc) with
  | Ok _ => True
  | Raise e =>
      e = Py.ValueError
      ∧ ∃ w, w ∈ rows ∧ kod w ∈ ids ∧ stock_of_quantity (kolichestvo w) = None
  | Fault _ => False
  end.
Proof.
  induction rows as [|w rest IH]; intros ids acc; simpl; [done|].
  destruct (Py.contains (kod w) ids) eqn:Hin.
  - apply bool_decide_eq_true in Hin.
    destruct (stock_of_quantity (kolichestvo w)) as [q|] eqn:Hq; simpl.
    + specialize (IH (remove_first (kod w) ids) (acc ++ [mk (kod w) q])).
      destruct (fst (stock_pass mk rest _ _)); [done| |done].
      destruct IH as (-> & w' & Hw' & Hk & Hq'). split; [done|].
      exists w'. split_and!; [by apply elem_of_cons; right| |done].
      eapply elem_of_sublist; [done|apply remove_first_sublist].
    + split; [done|]. exists w. split_and!; [by apply elem_of_cons; left|done..].
  - specialize (IH ids acc). destruct (fst (stock_pass mk rest ids acc)); [done| |done].
    destruct IH as (-> & w' & Hw' & Hk & Hq'). split; [done|].
    exists w'. split_and!; [by apply elem_of_cons; right|done..].
Qed.

(** First match wins: a row whose code has not occurred before it in the
    feed and is an offer id gives the entry with its own quantity. *)
Lemma stock_pass_first rows : ∀ ids acc stocks ids' pre w post,
  stock_pass mk rows ids acc = (Ok stocks, ids') →
  rows = pre ++ w :: post → kod w ∉ kod <$> pre → kod w ∈ ids →
  ∃ q, stock_of_quantity (kolichestvo w) = Some q ∧ mk (kod w) q ∈ stocks.
Proof.
  induction rows as [|r rest IH]; intros ids acc stocks ids' pre w post H Hrows Hpre Hin.
  - by destruct pre.
  - destruct pre as [|p pre]; simpl in Hrows; injection Hrows as -> ->.
    + simpl in H. unfold Py.contains in H.
      rewrite (bool_decide_eq_true_2 _ Hin) in H.
      destruct (stock_of_quantity (kolichestvo w)) as [q|]; [|done].
      exists q. split; [done|].
      apply stock_pass_ok in H as (_ & _ & Hp).
      eapply elem_of_prefix; [|done].
      apply elem_of_app. right. by apply elem_of_cons; left.
    + rewrite fmap_cons in Hpre. apply not_elem_of_cons in Hpre as [Hne Hpre].
      simpl in H. destruct (Py.contains (kod p) ids).
      * destruct (stock_of_quantity (kolichestvo p)) as [q|]; [|done].
        eapply IH; [done..|]. by apply remove_first_other.
      * by eapply IH.
Qed.

(** Everything the claims need about one call of [create_stocks]. *)
Lemma create_stocks_with_spec rows l ids (st : state E) :
  heap st !! l = Some ids →
  match create_stocks_with mk rows l st with
  | (Ok stocks, st') =>
      key <$> stocks ≡ₚ ids
      ∧ st' = set_list l (remaining (kod <$> rows) ids) st
      ∧ (∀ pre w post,
           rows = pre ++ w :: post → kod w ∉ kod <$> pre → kod w ∈ ids →
           ∃ q, stock_of_quantity (kolichestvo w) = Some q
                ∧ mk (kod w) q ∈ stocks)
  | (Raise e, _) =>
      e = Py.ValueError
      ∧ ∃ w, w ∈ rows ∧ kod w ∈ ids ∧ stock_of_quantity (kolichestvo w) = None
  | (Fault _, _) => False
  end.
Proof.
  intros Hl. rewrite (create_stocks_with_run rows l ids st Hl).
  pose proof (stock_pass_not_ok rows ids []) as Hno.
  destruct (stock_pass mk rows ids []) as [[stocks|e|f] ids'] eqn:Hpass;
    simpl in *; [|done..].
  destruct (stock_pass_ok _ _ _ _ _ Hpass) as (-> & Hperm & _).
  split_and!; [|done|].
  - rewrite fmap_app, <- list_fmap_compose.
    rewrite (list_fmap_ext (key ∘ (λ x, mk x 0)) id) by (intros; by simpl).
    by rewrite list_fmap_id, Hperm.
  - intros pre w post Hrows Hpre Hin.
    destruct (stock_pass_first _ _ _ _ _ _ _ _ Hpass Hrows Hpre Hin)
      as (q & Hq & Hmem).
    exists q. split; [done|]. apply elem_of_app. by left.
Qed.
End StockPass.

(** ** Claims about [create_stocks] *)

Lemma market_create_stocks_unfold w rows l warehouse_id (st : state Market.event) :
  Market.create_stocks w rows l warehouse_id st
  = create_stocks_with (market_stock w warehouse_id (length (log st))) rows l st.
Proof. done. Qed.

Lemma seller_stock_step_leaves rows l ids
    (st st' : state Seller.event) stocks :
  heap st !! l = Some ids →
  Seller.create_stocks rows l st = (Ok stocks, st') →
  heap st' !! l = Some (remaining (kod <$> rows) ids).
Proof.
  intros Hl Hrun.
  pose proof (create_stocks_with_spec (E := Seller.event)
                (λ x q, Seller.Stock x q) Seller.s_offer_id
                ltac:(done) rows l ids st Hl) as Hspec.
  unfold Seller.create_stocks in Hrun. rewrite Hrun in Hspec.
  destruct Hspec as (_ & -> & _). simpl. apply lookup_insert_eq.
Qed.

(** C1, as the code has it.  [create_stocks] works on the caller's list
    itself: after a call that returns, the list behind the reference
    holds what is left once every feed row, in order, has removed the
    first remaining occurrence of its code.  For ids without duplicates
    these are the ids that no feed row carries, in their original order.
    No other list and no part of the log changes. *)
Theorem create_stocks_consumes_offer_ids (rows : list watch) (l : loc)
    (ids : list string) :
  (∀ (st st' : state Seller.event) stocks,
     heap st !! l = Some ids →
     Seller.create_stocks rows l st = (Ok stocks, st') →
     heap st' !! l = Some (remaining (kod <$> rows) ids)
     ∧ (NoDup ids →
        heap st' !! l = Some (filter (λ x, x ∉ kod <$> rows) ids))
     ∧ (∀ l', l' ≠ l → heap st' !! l' = heap st !! l')
     ∧ log st' = log st)
  ∧ (∀ w warehouse_id (st st' : state Market.event) stocks,
     heap st !! l = Some ids →
     Market.create_stocks w rows l warehouse_id st = (Ok stocks, st') →
     heap st' !! l = Some (remaining (kod <$> rows) ids)
     ∧ (NoDup ids →
        heap st' !! l = Some (filter (λ x, x ∉ kod <$> rows) ids))
     ∧ (∀ l', l' ≠ l → heap st' !! l' = heap st !! l')
     ∧ log st' = log st).
Proof.
  assert (Hset : ∀ E (st : state E),
            let st' := set_list l (remaining (kod <$> rows) ids) st in
            heap st' !! l = Some (remaining (kod <$> rows) ids)
            ∧ (NoDup ids →
               heap st' !! l = Some (filter (λ x, x ∉ kod <$> rows) ids))
            ∧ (∀ l', l' ≠ l → heap st' !! l' = heap st !! l')
            ∧ log st' = log st).
  { intros E st. simpl. rewrite lookup_insert_eq. split_and!; [done| |  |done].
    - intros Hnd. by rewrite remaining_filter.
    - intros l' Hne. by rewrite lookup_insert_ne. }
  split.
  - intros st st' stocks Hl Hrun.
    pose proof (create_stocks_with_spec (E := Seller.event)
                  (λ x q, Seller.Stock x q) Seller.s_offer_id
                  ltac:(done) rows l ids st Hl) as Hspec.
    unfold Seller.create_stocks in Hrun. rewrite Hrun in Hspec.
    destruct Hspec as (_ & -> & _). apply Hset.
  - intros w warehouse_id st st' stocks Hl Hrun.
    rewrite market_create_stocks_unfold in Hrun.
    pose proof (create_stocks_with_spec (E := Market.event)
                  (market_stock w warehouse_id (length (log st))) Market.sku
                  ltac:(done) rows l ids st Hl) as Hspec.
    rewrite Hrun in Hspec. destruct Hspec as (_ & -> & _). apply Hset.
Qed.

Lemma create_stocks_consumes_offer_ids_witness :
  let st := State {[ 1%positive := ["A"; "B"; "C"] ]} [] in
  let rows := [Watch "A" "5" "100.00"; Watch "B" ">10" "200.50"] in
  heap (snd (Seller.create_stocks rows 1%positive st)) !! 1%positive
  = Some (remaining (kod <$> rows) ["A"; "B"; "C"]).
Proof.
  intros st rows.
  destruct (create_stocks_consumes_offer_ids rows 1%positive ["A"; "B"; "C"])
    as [Hseller _].
  destruct (Seller.create_stocks rows 1%positive st) as [r st'] eqn:Hrun.
  assert (∃ stocks, r = Ok stocks) as [stocks ->].
  { vm_compute in Hrun. injection Hrun as <- _. by eexists. }
  simpl. by destruct (Hseller st st' stocks eq_refl Hrun) as [Hleft _].
Defined.

(** C1 as stated fails: the caller's list is not what it was. *)
Lemma create_stocks_mutates_counterexample :
  let st := State {[ 1%positive := ["A"; "B"] ]} [] in
  let st' := snd (Seller.create_stocks [Watch "A" "5" "100.00"] 1%positive st) in
  heap st !! 1%positive = Some ["A"; "B"]
  ∧ heap st' !! 1%positive = Some ["B"].
Proof. split; by vm_compute. Qed.

(** C2. For offer ids without duplicates, a call of [create_stocks] that
    returns gives one entry per offer id: the offer ids of the entries
    are the known offer ids, each once and no other.  The only other
    outcome is the [ValueError] of a matched row whose quantity is no
    integer. *)
Theorem create_stocks_one_entry_per_offer (rows : list watch) (l : loc)
    (ids : list string) :
  NoDup ids →
  (∀ st : state Seller.event,
     heap st !! l = Some ids →
     match Seller.create_stocks rows l st with
     | (Ok stocks, _) =>
         Seller.s_offer_id <$> stocks ≡ₚ ids
         ∧ NoDup (Seller.s_offer_id <$> stocks)
         ∧ ∀ x, x ∈ Seller.s_offer_id <$> stocks ↔ x ∈ ids
     | (Raise e, _) =>
         e = Py.ValueError
         ∧ ∃ w, w ∈ rows ∧ kod w ∈ ids
                ∧ stock_of_quantity (kolichestvo w) = None
     | (Fault _, _) => False
     end)
  ∧ (∀ w warehouse_id (st : state Market.event),
     heap st !! l = Some ids →
     match Market.create_stocks w rows l warehouse_id st with
     | (Ok stocks, _) =>
         Market.sku <$> stocks ≡ₚ ids
         ∧ NoDup (Market.sku <$> stocks)
         ∧ ∀ x, x ∈ Market.sku <$> stocks ↔ x ∈ ids
     | (Raise e, _) =>
         e = Py.ValueError
         ∧ ∃ w, w ∈ rows ∧ kod w ∈ ids
                ∧ stock_of_quantity (kolichestvo w) = None
     | (Fault _, _) => False
     end).
Proof.
  intros Hnd. split.
  - intros st Hl.
    pose proof (create_stocks_with_spec (E := Seller.event)
                  (λ x q, Seller.Stock x q) Seller.s_offer_id
                  ltac:(done) rows l ids st Hl) as Hspec.
    unfold Seller.create_stocks.
    destruct (create_stocks_with _ rows l st) as [[stocks|e|f] st']; [|done..].
    destruct Hspec as (Hperm & _). split_and!; [done| |].
    + by rewrite Hperm.
    + intros x. by rewrite Hperm.
  - intros w warehouse_id st Hl. rewrite market_create_stocks_unfold.
    pose proof (create_stocks_with_spec (E := Market.event)
                  (market_stock w warehouse_id (length (log st))) Market.sku
                  ltac:(done) rows l ids st Hl) as Hspec.
    destruct (create_stocks_with _ rows l st) as [[stocks|e|f] st']; [|done..].
    destruct Hspec as (Hperm & _). split_and!; [done| |].
    + by rewrite Hperm.
    + intros x. by rewrite Hperm.
Qed.

Lemma create_stocks_one_entry_per_offer_witness :
  let st : state Seller.event := State {[ 1%positive := ["A"; "B"; "C"] ]} [] in
  let rows := [Watch "A" "5" "1.00"; Watch "A" "9" "2.00"; Watch "B" ">10" "3"] in
  match Seller.create_stocks rows 1%positive st with
  | (Ok stocks, _) =>
      Seller.s_offer_id <$> stocks ≡ₚ ["A"; "B"; "C"]
      ∧ NoDup (Seller.s_offer_id <$> stocks)
      ∧ ∀ x, x ∈ Seller.s_offer_id <$> stocks ↔ x ∈ ["A"; "B"; "C"]
  | (Raise e, _) =>
      e = Py.ValueError
      ∧ ∃ w, w ∈ rows ∧ kod w ∈ ["A"; "B"; "C"]
             ∧ stock_of_quantity (kolichestvo w) = None
  | (Fault _, _) => False
  end.
Proof.
  intros st rows.
  assert (Hnd : NoDup ["A"; "B"; "C"]) by (apply (bool_decide_unpack _); by vm_compute).
  destruct (create_stocks_one_entry_per_offer rows 1%positive ["A"; "B"; "C"] Hnd)
    as [Hseller _].
  apply (Hseller st). reflexivity.
Defined.

(** ** The price reconciler as a function of the offer ids *)

Section PricePass.
Context {E entry : Type} (f : watch → option entry) (mk : watch → M E entry).
Hypothesis mk_run : ∀ w st,
  mk w st = (match f w with Some e => Ok e | None => Raise Py.ValueError end, st).

Lemma price_loop_run rows l ids : ∀ prices (st : state E),
  heap st !! l = Some ids →
  for_each rows prices (fun prices watch =>
    let* found := list_contains l (kod watch) in
    if found : bool then
      let* price := mk watch in
      ret (prices ++ [price])
    else ret prices) st
  = (match mapM f (matching ids rows) with
     | Some es => Ok (prices ++ es)
     | None => Raise Py.ValueError
     end, st).
Proof.
  induction rows as [|w rest IH]; intros prices st Hl.
  - simpl. by rewrite app_nil_r.
  - rewrite for_each_cons.
    rewrite (bind_ok _ _ _ _ _ (list_contains_run l (kod w) ids st Hl)).
    unfold matching. destruct (Py.contains (kod w) ids) eqn:Hin.
    + apply bool_decide_eq_true in Hin. rewrite filter_cons_True by done.
      unfold bind at 1. rewrite mk_run. simpl.
      destruct (f w) as [e|]; [|done]. unfold ret at 1.
      rewrite (IH _ _ Hl). fold (matching ids rest).
      destruct (mapM f (matching ids rest)); simpl; [|done].
      by rewrite <- app_assoc.
    + apply bool_decide_eq_false in Hin. rewrite filter_cons_False by done.
      unfold ret at 1. by apply IH.
Qed.

(** [create_prices] reads the offer ids and leaves the state as it was:
    one entry for every matching row, in feed order, or the
    [ValueError] of the first matching row whose entry cannot be built. *)
Lemma create_prices_with_run rows l ids (st : state E) :
  heap st !! l = Some ids →
  create_prices_with mk rows l st
  = (match mapM f (matching ids rows) with
     | Some es => Ok es
     | None => Raise Py.ValueError
     end, st).
Proof. intros Hl. unfold create_prices_with. by rewrite (price_loop_run _ _ _ _ _ Hl). Qed.
End PricePass.

Lemma seller_create_prices_run rows l ids (st : state Seller.event) :
  heap st !! l = Some ids →
  Seller.create_prices rows l st = (Ok (seller_price <$> matching ids rows), st).
Proof.
  intros Hl. unfold Seller.create_prices.
  etrans; [exact (create_prices_with_run (λ w, Some (seller_price w))
             (λ w, ret (seller_price w)) ltac:(done) rows l ids st Hl)|].
  replace (mapM (λ w, Some (seller_price w)) (matching ids rows))
    with (Some (seller_price <$> matching ids rows)); [done|].
  symmetry. apply mapM_Some. induction (matching ids rows); by constructor.
Qed.

Lemma market_create_prices_run rows l ids (st : state Market.event) :
  heap st !! l = Some ids →
  Market.create_prices rows l st
  = (match mapM market_price (matching ids rows) with
     | Some es => Ok es
     | None => Raise Py.ValueError
     end, st).
Proof.
  intros Hl. unfold Market.create_prices.
  apply (create_prices_with_run market_price); [|done].
  intros w st0. unfold market_price, bind.
  by destruct (Py.int (price_conversion (tsena w))).
Qed.

(** ** Claims about [create_prices] *)

(** C4. [price_conversion] keeps the digits before the first full stop
    and never fails: for the price of its own docstring, written out in
    words, and for the empty text it returns the empty text where the
    docstring announces [ValueError].  [create_prices] of [seller.py]
    passes the empty price on in its entry; [create_prices] of
    [market.py] parses the result with [int], which gives the number the
    kept digits denote and raises [ValueError] when none is kept. *)
Theorem price_conversion_without_digits :
  let words := "пять тысяч девятьсот девяносто руб" in
  let seller_state : state Seller.event := State {[ 1%positive := ["A"] ]} [] in
  let market_state : state Market.event := State {[ 1%positive := ["A"] ]} [] in
  price_conversion words = ""
  ∧ price_conversion "" = ""
  ∧ Seller.create_prices [Watch "A" "5" words] 1%positive seller_state
    = (Ok [ {| Seller.auto_action_enabled := "UNKNOWN";
               Seller.currency_code := "RUB";
               Seller.p_offer_id := "A";
               Seller.old_price := "0";
               Seller.p_price := "" |} ], seller_state)
  ∧ Market.create_prices [Watch "A" "5" words] 1%positive market_state
    = (Raise Py.ValueError, market_state)
  ∧ (∀ raw,
       price_conversion raw = Py.re_sub_non_digits (before_dot raw)
       ∧ all_digits (price_conversion raw) = true
       ∧ Py.int (price_conversion raw)
         = if decide (price_conversion raw = "") then None
           else Some (decimal_value (price_conversion raw)))
  ∧ price_conversion "5'990.00 руб." = "5990"
  ∧ Py.int (price_conversion "5'990.00 руб.") = Some 5990
  ∧ Py.int (price_conversion "100") = Some 100.
Proof.
  split_and!; try by vm_compute.
  intros raw. destruct (price_conversion_spec raw) as [Heq Hdig].
  split_and!; [done..|]. apply int_price_conversion.
Qed.


Section Helpers.
Context {A : Type}.



End Helpers.



(** ** The catalog of the Ozon channel: pagination by count *)

Section SellerCatalog.
Variable w : world Seller.page.
Variables client_id seller_token : string.

Lemma get_product_list_run cursor (st : state Seller.event) :
  Seller.get_product_list w cursor client_id seller_token st
  = (match page_reply w (length (log st)) with
     | inl e => Raise e
     | inr p => Ok p
     end,
     State (heap st) (log st ++ [Seller.ProductList cursor client_id seller_token])).
Proof.
  unfold Seller.get_product_list, bind, clock, emit. simpl.
  by destruct (page_reply w (length (log st))).
Qed.

Lemma served_tail (st : state Seller.event) ev p ps :
  served w st (p :: ps) → served w (State (heap st) (log st ++ [ev])) ps.
Proof.
  intros H j q Hq. simpl. rewrite length_app. simpl.
  replace (length (log st) + 1 + j)%nat with (length (log st) + S j)%nat by lia.
  by apply H.
Qed.

Lemma served_head (st : state Seller.event) p ps :
  served w st (p :: ps) → page_reply w (length (log st)) = inr p.
Proof. intros H. specialize (H 0%nat p eq_refl). by rewrite Nat.add_0_r in H. Qed.

(** The loop asks for pages as long as the count differs from the
    declared total and stops at the first page where they agree. *)
Lemma loop_stops ps : ∀ acc cursor (st : state Seller.event) last fuel,
  served w st (ps ++ [last]) →
  keeps_going acc ps →
  Seller.total last = Z.of_nat (length (acc ++ products (ps ++ [last]))) →
  (length ps < fuel)%nat →
  Seller.get_offer_ids_loop w fuel cursor acc client_id seller_token st
  = (Ok (acc ++ products (ps ++ [last])),
     State (heap st) (log st ++ requests client_id seller_token cursor ps)).
Proof.
  induction ps as [|p r IH]; intros acc cursor st last fuel Hs Hgo Hlast Hfuel;
    (destruct fuel as [|fuel]; [simpl in Hfuel; lia|]); simpl in Hs.
  - simpl. unfold bind at 1. rewrite get_product_list_run, (served_head _ _ _ Hs).
    unfold products in *. simpl in *. rewrite app_nil_r in *.
    by rewrite Hlast, Z.eqb_refl.
  - destruct Hgo as [Hne Hgo].
    simpl. unfold bind at 1. rewrite get_product_list_run, (served_head _ _ _ Hs).
    apply Z.eqb_neq in Hne. rewrite Hne.
    rewrite (IH (acc ++ Seller.items p) (Seller.last_id p) _ last fuel).
    + unfold products, requests. simpl. rewrite <- !app_assoc. done.
    + by eapply served_tail.
    + done.
    + unfold products in *. simpl in Hlast. by rewrite <- app_assoc.
    + simpl in Hfuel. lia.
Qed.

(** A page request that fails ends the loop with the exception it
    raised; the request is not sent again. *)
Lemma loop_raises ps : ∀ acc cursor (st : state Seller.event) e fuel,
  served w st ps →
  keeps_going acc ps →
  page_reply w (length (log st) + length ps) = inl e →
  (length ps < fuel)%nat →
  Seller.get_offer_ids_loop w fuel cursor acc client_id seller_token st
  = (Raise e, State (heap st) (log st ++ requests client_id seller_token cursor ps)).
Proof.
  induction ps as [|p r IH]; intros acc cursor st e fuel Hs Hgo He Hfuel;
    (destruct fuel as [|fuel]; [simpl in Hfuel; lia|]).
  - simpl. unfold bind at 1. rewrite get_product_list_run.
    simpl in He. rewrite Nat.add_0_r in He. by rewrite He.
  - destruct Hgo as [Hne Hgo].
    simpl. unfold bind at 1. rewrite get_product_list_run, (served_head _ _ _ Hs).
    apply Z.eqb_neq in Hne. rewrite Hne.
    rewrite (IH (acc ++ Seller.items p) (Seller.last_id p) _ e fuel).
    + unfold requests. simpl. rewrite <- !app_assoc. done.
    + by eapply served_tail.
    + done.
    + simpl. rewrite length_app. simpl. rewrite <- He. f_equal. simpl. lia.
    + simpl in Hfuel. lia.
Qed.

Lemma projection_run (product_list : list Seller.product) :
  ∀ offer_ids (st : state Seller.event),
  for_each product_list offer_ids (fun offer_ids product =>
    ret (offer_ids ++ [Seller.offer_id product])) st
  = (Ok (offer_ids ++ (Seller.offer_id <$> product_list)), st).
Proof.
  induction product_list as [|x r IH]; intros offer_ids st; simpl.
  - by rewrite app_nil_r.
  - unfold bind, ret at 1. rewrite IH. by rewrite <- app_assoc.
Qed.
End SellerCatalog.

Lemma market_get_product_list_run (wm : world Market.page)
    page campaign_id access_token (st : state Market.event) :
  Market.get_product_list wm page campaign_id access_token st
  = (match page_reply wm (length (log st)) with
     | inl e => Raise e
     | inr p => Ok p
     end,
     State (heap st)
       (log st ++ [Market.OfferMappingEntries page campaign_id access_token])).
Proof.
  unfold Market.get_product_list, bind, clock, emit. simpl.
  by destruct (page_reply wm (length (log st))).
Qed.

(** C8. [get_offer_ids] of the Ozon channel asks for page after page and
    stops with the first page that brings the number of products to the
    total the page declares; it returns a new list with the offer ids of
    all the products read.  A first page without products and with
    total zero gives the empty list after one request.  When a page
    request raises, the exception leaves [get_offer_ids] and no request
    is repeated.  The loop of the Yandex channel treats an empty first
    page and a failing request in the same way. *)
Theorem get_offer_ids_count_based (w : world Seller.page)
    (client_id seller_token : string) (st : state Seller.event) :
  let r := fresh (dom (heap st)) in
  heap st !! r = None
  ∧ (∀ ps last fuel,
       served w st (ps ++ [last]) →
       keeps_going [] ps →
       Seller.total last = Z.of_nat (length (products (ps ++ [last]))) →
       (length ps < fuel)%nat →
       Seller.get_offer_ids w fuel client_id seller_token st
       = (Ok r,
          State (<[r := Seller.offer_id <$> products (ps ++ [last])]> (heap st))
                (log st ++ requests client_id seller_token "" ps)))
  ∧ (∀ cursor fuel,
       page_reply w (length (log st)) = inr (Seller.Page [] 0 cursor) →
       (0 < fuel)%nat →
       Seller.get_offer_ids w fuel client_id seller_token st
       = (Ok r,
          State (<[r := []]> (heap st))
                (log st ++ [Seller.ProductList "" client_id seller_token])))
  ∧ (∀ ps e fuel,
       served w st ps →
       keeps_going [] ps →
       page_reply w (length (log st) + length ps) = inl e →
       (length ps < fuel)%nat →
       Seller.get_offer_ids w fuel client_id seller_token st
       = (Raise e,
          State (heap st) (log st ++ requests client_id seller_token "" ps)))
  ∧ (∀ (wm : world Market.page) (sm : state Market.event) fuel,
       (0 < fuel)%nat →
       (page_reply wm (length (log sm)) = inr (Market.Page [] None) →
        Market.get_offer_ids wm fuel client_id seller_token sm
        = (Ok (fresh (dom (heap sm))),
           State (<[fresh (dom (heap sm)) := []]> (heap sm))
                 (log sm ++ [Market.OfferMappingEntries "" client_id seller_token])))
       ∧ (∀ e, page_reply wm (length (log sm)) = inl e →
          Market.get_offer_ids wm fuel client_id seller_token sm
          = (Raise e,
             State (heap sm)
                   (log sm ++ [Market.OfferMappingEntries "" client_id seller_token])))).
Proof.
  intros r.
  assert (Hstop : ∀ ps last fuel,
            served w st (ps ++ [last]) →
            keeps_going [] ps →
            Seller.total last = Z.of_nat (length (products (ps ++ [last]))) →
            (length ps < fuel)%nat →
            Seller.get_offer_ids w fuel client_id seller_token st
            = (Ok r,
               State (<[r := Seller.offer_id <$> products (ps ++ [last])]> (heap st))
                     (log st ++ requests client_id seller_token "" ps))).
  { intros ps last fuel Hs Hgo Hlast Hfuel. unfold Seller.get_offer_ids.
    unfold bind at 1.
    rewrite (loop_stops w client_id seller_token ps [] "" st last fuel Hs Hgo Hlast Hfuel).
    simpl. unfold bind at 1. by rewrite projection_run. }
  split_and!.
  - apply (not_elem_of_dom (heap st)). apply is_fresh.
  - exact Hstop.
  - intros cursor fuel Hpage Hfuel.
    apply (Hstop [] (Seller.Page [] 0 cursor) fuel); [|done|done|simpl; lia].
    intros j p Hj. destruct j as [|j]; [|done]. injection Hj as <-.
    by rewrite Nat.add_0_r.
  - intros ps e fuel Hs Hgo He Hfuel. unfold Seller.get_offer_ids.
    unfold bind at 1.
    by rewrite (loop_raises w client_id seller_token ps [] "" st e fuel Hs Hgo He Hfuel).
  - intros wm sm fuel Hfuel. destruct fuel as [|fuel]; [lia|].
    unfold Market.get_offer_ids. cbn [Market.get_offer_ids_loop].
    split; [intros Hpage|intros e Hpage]; unfold bind at 1; unfold bind at 1;
      rewrite market_get_product_list_run, Hpage; done.
Qed.

Lemma get_offer_ids_count_based_witness :
  let p0 := Seller.Page [Seller.Product "A"; Seller.Product "B"] 3 "B" in
  let p1 := Seller.Page [Seller.Product "C"] 3 "C" in
  let w := World Seller.page
             (λ k, match k with O => inr p0 | _ => inr p1 end)
             (λ _, None) (inr []) (λ _, "") in
  let st : state Seller.event := State ∅ [] in
  let r := fresh (dom (heap st)) in
  Seller.get_offer_ids w 5 "id" "token" st
  = (Ok r,
     State (<[r := Seller.offer_id <$> products ([p0] ++ [p1])]> (heap st))
           (log st ++ requests "id" "token" "" [p0])).
Proof.
  intros p0 p1 w st r.
  destruct (get_offer_ids_count_based w "id" "token" st) as (_ & Hstop & _).
  apply (Hstop [p0] p1 5%nat).
  - intros j p Hj. destruct j as [|[|j]]; simpl in Hj; [| |done];
      by injection Hj as <-.
  - simpl. split; [lia|done].
  - reflexivity.
  - simpl. lia.
Defined.

(** ** The run of [main] in [seller.py] *)

Section SellerMain.
Variable w : world Seller.page.
Variables client_id seller_token : string.

Lemma quiet_refl st : quiet st st.
Proof. exists []. by rewrite app_nil_r. Qed.

Lemma quiet_trans st1 st2 st3 : quiet st1 st2 → quiet st2 st3 → quiet st1 st3.
Proof.
  intros (e1 & H1 & F1) (e2 & H2 & F2). exists (e1 ++ e2).
  rewrite H2, H1, app_assoc. split; [done|]. by apply Forall_app.
Qed.

Lemma quiet_emit st ev :
  ¬ is_price_upload ev → quiet st (State (heap st) (log st ++ [ev])).
Proof. intros H. exists [ev]. split; [done|]. by apply Forall_singleton. Qed.

Lemma catalog_loop_quiet fuel : ∀ cursor acc st,
  let run := Seller.get_offer_ids_loop w fuel cursor acc client_id seller_token st in
  quiet st (snd run) ∧ heap (snd run) = heap st.
Proof.
  induction fuel as [|fuel IH]; intros cursor acc st; simpl.
  - split; [apply quiet_refl|done].
  - unfold bind at 1 2. rewrite get_product_list_run.
    set (st1 := State (heap st) (log st ++ [_])).
    assert (Hq : quiet st st1) by (apply quiet_emit; by intros []).
    destruct (page_reply w (length (log st))) as [e|p]; [done|].
    destruct (Seller.total p =? _); [done|].
    destruct (IH (Seller.last_id p) (acc ++ Seller.items p) st1) as [Hq' Hh].
    split; [by eapply quiet_trans|]. by rewrite Hh.
Qed.

Lemma get_offer_ids_quiet fuel st :
  quiet st (snd (Seller.get_offer_ids w fuel client_id seller_token st)).
Proof.
  unfold Seller.get_offer_ids. unfold bind at 1.
  destruct (catalog_loop_quiet fuel "" [] st) as [Hq _]. simpl in Hq.
  destruct (Seller.get_offer_ids_loop w fuel "" [] client_id seller_token st)
    as [[ps|e|f] st1]; [|done..].
  unfold bind. rewrite projection_run. simpl.
  destruct Hq as (evs & Hlog & Hall). by exists evs.
Qed.

Lemma update_stocks_loop_quiet chunks : ∀ st,
  let run := for_each chunks tt (fun _ some_stock =>
               Seller.update_stocks w some_stock client_id seller_token) st in
  quiet st (snd run) ∧ heap (snd run) = heap st.
Proof.
  induction chunks as [|c r IH]; intros st; simpl.
  - split; [apply quiet_refl|done].
  - unfold bind at 1 2. unfold Seller.update_stocks at 1 3, bind, clock, emit. simpl.
    set (st1 := State (heap st) (log st ++ [_])).
    assert (Hq : quiet st st1) by (apply quiet_emit; by intros []).
    destruct (push_reply w (length (log st))) as [e|]; [done|].
    destruct (IH st1) as [Hq' Hh]. split; [by eapply quiet_trans|done].
Qed.

Lemma handler_quiet error st :
  quiet st (snd (match error with
                 | Py.ReadTimeout =>
                     emit (Seller.Print None "Превышено время ожидания...")
                 | Py.ConnectionError =>
                     emit (Seller.Print (Some error) "Ошибка соединения")
                 | _ => emit (Seller.Print (Some error) "ERROR_2")
                 end st)).
Proof. destruct error; apply quiet_emit; by intros []. Qed.

Lemma matching_none ids rows :
  (∀ r, r ∈ rows → kod r ∉ ids) → matching ids rows = [].
Proof.
  unfold matching. induction rows as [|r rest IH]; intros H; [done|].
  rewrite filter_cons_False by (apply H, elem_of_cons; by left).
  apply IH. intros r' Hr'. apply H, elem_of_cons. by right.
Qed.

(** Once the stock step has run, no feed row finds its code among the
    offer ids any more, provided these had no duplicates. *)
Lemma matching_after_stock rows ids :
  NoDup ids → matching (remaining (kod <$> rows) ids) rows = [].
Proof.
  intros Hnd. rewrite remaining_filter by done. apply matching_none.
  intros r Hr [Hno _]%list_elem_of_filter. apply Hno.
  by apply list_elem_of_fmap_2.
Qed.

Lemma get_offer_ids_ok fuel st l st1 :
  Seller.get_offer_ids w fuel client_id seller_token st = (Ok l, st1) →
  ∃ ids, heap st1 !! l = Some ids.
Proof.
  unfold Seller.get_offer_ids. unfold bind at 1.
  destruct (Seller.get_offer_ids_loop w fuel "" [] client_id seller_token st)
    as [[ps|e|f] st0]; [|done..].
  unfold bind. rewrite projection_run. unfold new_list. intros [= <- <-].
  eexists. simpl. apply lookup_insert_eq.
Qed.

Lemma download_stock_run st :
  Seller.download_stock w st
  = (match feed w with inl e => Raise e | inr rows => Ok rows end,
     State (heap st) (log st ++ [Seller.DownloadStock])).
Proof. unfold Seller.download_stock, bind, emit. simpl. by destruct (feed w). Qed.

(** The price step of [main] after the stock step on the same list. *)
Lemma price_step_after_stock rows l ids (st : state Seller.event) :
  NoDup ids →
  heap st !! l = Some (remaining (kod <$> rows) ids) →
  Seller.create_prices rows l st = (Ok [], st).
Proof.
  intros Hnd Hl. rewrite (seller_create_prices_run _ _ _ _ Hl).
  by rewrite matching_after_stock.
Qed.

(** If the offer ids that the catalog returns have no duplicates, a run
    of [main] sends no price upload at all. *)
Lemma main_quiet fuel st :
  (∀ l st1 ids,
     Seller.get_offer_ids w fuel client_id seller_token st = (Ok l, st1) →
     heap st1 !! l = Some ids → NoDup ids) →
  quiet st (snd (Seller.main w fuel client_id seller_token st)).
Proof.
  intros Hset. unfold Seller.main, try_except.
  pose proof (get_offer_ids_quiet fuel st) as Hq1.
  destruct (Seller.get_offer_ids w fuel client_id seller_token st)
    as [[l|e|f] st1] eqn:Hcat; simpl in Hq1.
  2:{ rewrite (bind_raise _ _ _ _ _ Hcat).
      eapply quiet_trans; [exact Hq1|apply handler_quiet]. }
  2:{ by rewrite (bind_fault _ _ _ _ _ Hcat). }
  rewrite (bind_ok _ _ _ _ _ Hcat).
  destruct (get_offer_ids_ok _ _ _ _ Hcat) as [ids Hl].
  specialize (Hset l st1 ids eq_refl Hl).
  pose proof (download_stock_run st1) as Hfeed.
  set (st2 := State (heap st1) (log st1 ++ [Seller.DownloadStock])) in *.
  assert (Hq2 : quiet st st2).
  { eapply quiet_trans; [exact Hq1|]. apply quiet_emit. by intros []. }
  destruct (feed w) as [e|rows].
  { rewrite (bind_raise _ _ _ _ _ Hfeed).
    eapply quiet_trans; [exact Hq2|apply handler_quiet]. }
  rewrite (bind_ok _ _ _ _ _ Hfeed).
  assert (Hl2 : heap st2 !! l = Some ids) by done.
  pose proof (create_stocks_with_run (E := Seller.event)
                (λ x q, Seller.Stock x q) rows l ids st2 Hl2) as Hstock.
  pose proof (stock_pass_ok (λ x q, Seller.Stock x q) Seller.s_offer_id
                ltac:(done) rows ids []) as Hpass.
  destruct (stock_pass (λ x q, Seller.Stock x q) rows ids [])
    as [[matched|e|f] ids'] eqn:Hsp; simpl in Hstock.
  2:{ unfold Seller.create_stocks. rewrite (bind_raise _ _ _ _ _ Hstock).
      eapply quiet_trans; [|apply handler_quiet].
      destruct Hq2 as (evs & Hlog & Hall). by exists evs. }
  2:{ unfold Seller.create_stocks. rewrite (bind_fault _ _ _ _ _ Hstock).
      destruct Hq2 as (evs & Hlog & Hall). by exists evs. }
  destruct (Hpass _ _ eq_refl) as (-> & _ & _).
  unfold Seller.create_stocks. rewrite (bind_ok _ _ _ _ _ Hstock).
  set (st3 := set_list l (remaining (kod <$> rows) ids) st2) in *.
  assert (Hq3 : quiet st st3).
  { destruct Hq2 as (evs & Hlog & Hall). by exists evs. }
  rewrite divide_chunks by lia. simpl value_of. unfold bind at 1, ret at 1.
  match goal with
  | |- context [for_each ?chunks tt _] =>
      destruct (update_stocks_loop_quiet chunks st3) as [Hq4 Hh4];
      simpl in Hq4, Hh4; unfold bind at 1;
      destruct (for_each chunks tt _ st3) as [[[]|e|f] st4]
  end; simpl in Hq4, Hh4.
  2:{ eapply quiet_trans; [|apply handler_quiet]. by eapply quiet_trans. }
  2:{ by eapply quiet_trans. }
  assert (Hl4 : heap st4 !! l = Some (remaining (kod <$> rows) ids)).
  { rewrite Hh4. simpl. apply lookup_insert_eq. }
  rewrite (bind_ok _ _ _ _ _ (price_step_after_stock rows l ids st4 Hset Hl4)).
  simpl. by eapply quiet_trans.
Qed.
End SellerMain.

(** C10. In [main] of [seller.py] the list of offer ids that
    [create_stocks] has worked on is the list that [create_prices]
    reads.  For offer ids without duplicates, after a stock step that
    returns, the price step gives no entry for the code of any feed row
    that was matched (in fact no entry at all), whatever was added to
    the log in between; and a run of [main] sends no price upload. *)
Theorem price_step_sees_consumed_offer_ids (w : world Seller.page)
    (client_id seller_token : string) :
  (∀ rows l ids (st st1 st2 : state Seller.event) stocks,
     heap st !! l = Some ids → NoDup ids →
     Seller.create_stocks rows l st = (Ok stocks, st1) →
     heap st2 !! l = heap st1 !! l →
     ∃ prices,
       Seller.create_prices rows l st2 = (Ok prices, st2)
       ∧ (∀ r p, r ∈ rows → kod r ∈ ids → p ∈ prices →
            Seller.p_offer_id p ≠ kod r)
       ∧ prices = [])
  ∧ (∀ fuel st,
       (∀ l st1 ids,
          Seller.get_offer_ids w fuel client_id seller_token st = (Ok l, st1) →
          heap st1 !! l = Some ids → NoDup ids) →
       ∃ evs,
         log (snd (Seller.main w fuel client_id seller_token st)) = log st ++ evs
         ∧ ∀ prices c t, Seller.ImportPrices prices c t ∉ evs).
Proof.
  split.
  - intros rows l ids st st1 st2 stocks Hl Hnd Hrun Hsame.
    pose proof (seller_stock_step_leaves rows l ids st st1 stocks Hl Hrun)
      as Hl1.
    exists []. split_and!; [|by intros r p _ _ ?%elem_of_nil|done].
    apply (price_step_after_stock rows l ids st2 Hnd). by rewrite Hsame.
  - intros fuel st Hset.
    destruct (main_quiet w client_id seller_token fuel st Hset) as (evs & Hlog & Hall).
    exists evs. split; [done|]. intros prices c t Hin.
    by apply (proj1 (Forall_forall _ _) Hall _ Hin).
Qed.

Lemma price_step_sees_consumed_offer_ids_witness :
  let page := Seller.Page [Seller.Product "A"; Seller.Product "B";
                           Seller.Product "C"] 3 "C" in
  let rows := [Watch "A" "5" "100.00"; Watch "B" ">10" "200.50"] in
  let w := World Seller.page (λ _, inr page) (λ _, None) (inr rows) (λ _, "") in
  let st : state Seller.event := State ∅ [] in
  let st0 : state Seller.event := State {[ 1%positive := ["A"; "B"; "C"] ]} [] in
  let st1 := snd (Seller.create_stocks rows 1%positive st0) in
  (∃ prices,
     Seller.create_prices rows 1%positive st1 = (Ok prices, st1)
     ∧ (∀ r p, r ∈ rows → kod r ∈ ["A"; "B"; "C"] → p ∈ prices →
          Seller.p_offer_id p ≠ kod r)
     ∧ prices = [])
  ∧ (∃ evs,
       log (snd (Seller.main w 5 "id" "token" st)) = log st ++ evs
       ∧ ∀ prices c t, Seller.ImportPrices prices c t ∉ evs).
Proof.
  intros page rows w st st0 st1.
  assert (Hnd : NoDup ["A"; "B"; "C"]) by (apply (bool_decide_unpack _); by vm_compute).
  destruct (price_step_sees_consumed_offer_ids w "id" "token") as [Hstep Hmain].
  split.
  - destruct (Seller.create_stocks rows 1%positive st0) as [o st1'] eqn:Hrun.
    assert (∃ stocks, o = Ok stocks) as [stocks ->].
    { vm_compute in Hrun. injection Hrun as <- _. by eexists. }
    apply (Hstep rows 1%positive ["A"; "B"; "C"] st0 st1' st1 stocks eq_refl Hnd Hrun).
    reflexivity.
  - apply Hmain. intros l st1' ids Hcat Hl.
    vm_compute in Hcat. injection Hcat as <- <-.
    vm_compute in Hl. by injection Hl as <-.
Defined.

(** C10 without the premise on duplicates fails.  With the offer id
    ["A"] listed twice in the catalog and one feed row for it, the stock
    step matches the row and takes one occurrence away; the other is
    still in the list (and gets a stock entry of zero), the price step
    gives the matched code a price entry, and the run of [main] sends
    it. *)
Lemma price_step_duplicate_id_counterexample :
  let row := Watch "A" "5" "100.00" in
  let page := Seller.Page [Seller.Product "A"; Seller.Product "A"] 2 "A" in
  let w := World Seller.page (λ _, inr page) (λ _, None) (inr [row]) (λ _, "") in
  let st : state Seller.event := State ∅ [] in
  let st0 : state Seller.event := State {[ 1%positive := ["A"; "A"] ]} [] in
  let st1 := snd (Seller.create_stocks [row] 1%positive st0) in
  fst (Seller.create_stocks [row] 1%positive st0)
  = Ok [Seller.Stock "A" 5; Seller.Stock "A" 0]
  ∧ heap st1 !! 1%positive = Some ["A"]
  ∧ Seller.create_prices [row] 1%positive st1 = (Ok [seller_price row], st1)
  ∧ Seller.p_offer_id (seller_price row) = kod row
  ∧ log (snd (Seller.main w 5 "id" "token" st))
    = [Seller.ProductList "" "id" "token";
       Seller.DownloadStock;
       Seller.ImportStocks [Seller.Stock "A" 5; Seller.Stock "A" 0] "id" "token";
       Seller.ImportPrices [seller_price row] "id" "token"]
  ∧ ¬ (∀ rows l ids (st st1 st2 : state Seller.event) stocks,
         heap st !! l = Some ids →
         Seller.create_stocks rows l st = (Ok stocks, st1) →
         heap st2 !! l = heap st1 !! l →
         ∃ prices,
           Seller.create_prices rows l st2 = (Ok prices, st2)
           ∧ ∀ r p, r ∈ rows → kod r ∈ ids → p ∈ prices →
               Seller.p_offer_id p ≠ kod r).
Proof.
  intros row page w st st0 st1. split_and!; try by vm_compute.
  intros Hclaim.
  destruct (Hclaim [row] 1%positive ["A"; "A"] st0 st1 st1
              [Seller.Stock "A" 5; Seller.Stock "A" 0])
    as (prices & Hrun & Hno); [by vm_compute..|].
  assert (Hprices : prices = [seller_price row]).
  { vm_compute in Hrun. by injection Hrun as <-. }
  apply (Hno row (seller_price row)); [| |by rewrite Hprices; left|done];
    by left.
Qed.

(** Of an offer id listed twice one occurrence survives the stock step,
    and the price step finds it. *)
Example duplicate_offer_id_keeps_its_price :
  let rows := [Watch "A" "5" "100.00"] in
  let st0 : state Seller.event := State {[ 1%positive := ["A"; "A"] ]} [] in
  let st1 := snd (Seller.create_stocks rows 1%positive st0) in
  heap st1 !! 1%positive = Some ["A"]
  ∧ fst (Seller.create_prices rows 1%positive st1) = Ok [seller_price (Watch "A" "5" "100.00")].
Proof. split; by vm_compute. Qed.

(** ** What a computation may add to the log *)

Section EmitsOnly.
Context {E : Type} (P : E → Prop).

Lemma emits_only_silent {A} (m : M E A) :
  (∀ st, log (snd (m st)) = log st) → emits_only P m.
Proof. intros H st. exists []. by rewrite H, app_nil_r. Qed.

Lemma emits_only_ret {A} (a : A) : emits_only P (ret a).
Proof. by apply emits_only_silent. Qed.

Lemma emits_only_raise {A} e : emits_only P (raise (A := A) e).
Proof. by apply emits_only_silent. Qed.

Lemma emits_only_value_of {A} (o : option A) : emits_only P (value_of o).
Proof. destruct o; [apply emits_only_ret|apply emits_only_raise]. Qed.

Lemma emits_only_clock : emits_only P clock.
Proof. by apply emits_only_silent. Qed.

Lemma emits_only_emit ev : P ev → emits_only P (emit ev).
Proof. intros H st. exists [ev]. split; [done|]. by apply Forall_singleton. Qed.

Lemma emits_only_new_list l : emits_only P (new_list l).
Proof. by apply emits_only_silent. Qed.

Lemma emits_only_read_list r : emits_only P (read_list r).
Proof.
  apply emits_only_silent. intros st. unfold read_list.
  by destruct (heap st !! r).
Qed.

Lemma emits_only_write_list r l : emits_only P (write_list r l).
Proof. by apply emits_only_silent. Qed.

Lemma emits_only_expr_stmt {A} (a : A) : emits_only P (expr_stmt a).
Proof. by apply emits_only_silent. Qed.

Lemma emits_only_bind {A B} (m : M E A) (k : A → M E B) :
  emits_only P m → (∀ a, emits_only P (k a)) → emits_only P (bind m k).
Proof.
  intros Hm Hk st. unfold bind. destruct (Hm st) as (e1 & H1 & F1).
  destruct (m st) as [[a|e|f] st1]; simpl in H1; [|by exists e1..].
  destruct (Hk a st1) as (e2 & H2 & F2). exists (e1 ++ e2).
  rewrite H2, H1, app_assoc. split; [done|]. by apply Forall_app.
Qed.

Lemma emits_only_try_except {A} (m : M E A) (h : Py.exn → M E A) :
  emits_only P m → (∀ e, emits_only P (h e)) → emits_only P (try_except m h).
Proof.
  intros Hm Hh st. unfold try_except. destruct (Hm st) as (e1 & H1 & F1).
  destruct (m st) as [[a|e|f] st1]; simpl in H1; [by exists e1| |by exists e1].
  destruct (Hh e st1) as (e2 & H2 & F2). exists (e1 ++ e2).
  rewrite H2, H1, app_assoc. split; [done|]. by apply Forall_app.
Qed.

Lemma emits_only_for_each {A B} (xs : list A) (body : B → A → M E B) :
  (∀ acc x, emits_only P (body acc x)) → ∀ acc, emits_only P (for_each xs acc body).
Proof.
  intros Hbody. induction xs as [|x r IH]; intros acc; simpl.
  - apply emits_only_ret.
  - apply emits_only_bind; [apply Hbody|apply IH].
Qed.

Lemma emits_only_list_contains r x : emits_only P (list_contains r x).
Proof.
  apply emits_only_bind; [apply emits_only_read_list|].
  intros l. apply emits_only_ret.
Qed.

Lemma emits_only_list_remove r x : emits_only P (list_remove r x).
Proof.
  apply emits_only_bind; [apply emits_only_read_list|]. intros l.
  apply emits_only_bind; [apply emits_only_value_of|]. intros l'.
  apply emits_only_write_list.
Qed.

Lemma emits_only_create_stocks_with {entry} (mk : string → Z → entry) rows l :
  emits_only P (create_stocks_with mk rows l).
Proof.
  apply emits_only_bind.
  - apply emits_only_for_each. intros acc x.
    apply emits_only_bind; [apply emits_only_list_contains|]. intros [].
    + apply emits_only_bind; [apply emits_only_value_of|]. intros q.
      apply emits_only_bind; [apply emits_only_list_remove|]. intros _.
      apply emits_only_ret.
    + apply emits_only_ret.
  - intros stocks. apply emits_only_bind; [apply emits_only_read_list|].
    intros ids. apply emits_only_for_each. intros acc x. apply emits_only_ret.
Qed.
End EmitsOnly.

(** ** The run of [main] in [market.py] *)

Section MarketMain.
Variable w : world Market.page.

Lemma market_get_offer_ids_emits fuel campaign_id market_token :
  emits_only no_price_upload
    (Market.get_offer_ids w fuel campaign_id market_token).
Proof.
  assert (Hloop : ∀ page acc,
            emits_only no_price_upload
              (Market.get_offer_ids_loop w fuel page acc campaign_id market_token)).
  { induction fuel as [|fuel' IH]; intros page acc; simpl.
    - by apply emits_only_silent.
    - apply emits_only_bind.
      + apply emits_only_bind; [apply emits_only_clock|]. intros k.
        apply emits_only_bind; [by apply emits_only_emit|]. intros _.
        destruct (page_reply w k); [apply emits_only_raise|apply emits_only_ret].
      + intros p. destruct (Market.no_page _); [apply emits_only_ret|apply IH]. }
  apply emits_only_bind; [apply Hloop|]. intros ps.
  apply emits_only_bind; [|intros ids; apply emits_only_new_list].
  apply emits_only_for_each. intros acc x. apply emits_only_ret.
Qed.

Lemma market_update_stocks_emits stocks campaign_id market_token :
  emits_only no_price_upload
    (Market.update_stocks w stocks campaign_id market_token).
Proof.
  apply emits_only_bind; [apply emits_only_clock|]. intros k.
  apply emits_only_bind; [by apply emits_only_emit|]. intros _.
  destruct (push_reply w k); [apply emits_only_raise|apply emits_only_ret].
Qed.

Lemma market_create_stocks_emits rows l warehouse_id :
  emits_only no_price_upload (Market.create_stocks w rows l warehouse_id).
Proof.
  apply emits_only_bind; [apply emits_only_clock|]. intros k.
  apply emits_only_create_stocks_with.
Qed.

Lemma market_download_stock_emits :
  emits_only no_price_upload (Market.download_stock w).
Proof.
  apply emits_only_bind; [by apply emits_only_emit|]. intros _.
  destruct (feed w); [apply emits_only_raise|apply emits_only_ret].
Qed.

Lemma market_handler_emits e : emits_only no_price_upload (Market.handler e).
Proof. destruct e; by apply emits_only_emit. Qed.

(** Whatever the world does, a run of [main] sends no price update. *)
Lemma market_main_emits fuel market_token campaign_fbs_id campaign_dbs_id
    warehouse_fbs_id warehouse_dbs_id :
  emits_only no_price_upload
    (Market.main w fuel market_token campaign_fbs_id campaign_dbs_id
       warehouse_fbs_id warehouse_dbs_id).
Proof.
  unfold Market.main.
  apply emits_only_bind; [apply market_download_stock_emits|]. intros rows.
  apply emits_only_try_except; [|apply market_handler_emits].
  repeat first
    [ apply market_get_offer_ids_emits
    | apply market_create_stocks_emits
    | apply market_update_stocks_emits
    | apply emits_only_value_of
    | apply emits_only_expr_stmt
    | apply emits_only_for_each; intros ? ?
    | apply emits_only_bind; [|intros ?] ].
Qed.
End MarketMain.

(** C9. [main] of [market.py] calls [upload_prices], which is declared
    [async def], without awaiting it: the call builds a coroutine and
    nothing of its body runs.  So no run of [main] sends a price update,
    whereas the sequential orchestrator of the specification sends one
    per channel.  Shown on a catalog with the single offer ["A"] and a
    feed with the single row for ["A"]. *)
Theorem main_never_runs_upload_prices :
  (∀ w fuel market_token campaign_fbs_id campaign_dbs_id
     warehouse_fbs_id warehouse_dbs_id st,
     ∃ evs,
       log (snd (Market.main w fuel market_token campaign_fbs_id
                   campaign_dbs_id warehouse_fbs_id warehouse_dbs_id st))
       = log st ++ evs
       ∧ ∀ prices c t, Market.OfferPrices prices c t ∉ evs)
  ∧ (let w := World Market.page
                (λ _, inr (Market.Page [Market.Entry (Market.Offer "A")] None))
                (λ _, None)
                (inr [Watch "A" "5" "100.00"])
                (λ _, "2024-01-01T00:00:00") in
     let st : state Market.event := State ∅ [] in
     let price := {| Market.id := "A";
                     Market.price := {| Market.value := 100;
                                        Market.currencyId := "RUR" |} |} in
     price_uploads
       (log (snd (Market.main w 1 "token" "fbs" "dbs" "w1" "w2" st))) = []
     ∧ price_uploads
         (log (snd (main_sequential w 1 "token" "fbs" "dbs" "w1" "w2" st)))
       = [Market.OfferPrices [price] "fbs" "token";
          Market.OfferPrices [price] "dbs" "token"]
     ∧ fst (Market.main w 1 "token" "fbs" "dbs" "w1" "w2" st) = Ok tt
     ∧ fst (main_sequential w 1 "token" "fbs" "dbs" "w1" "w2" st) = Ok tt).
Proof.
  split.
  - intros w fuel market_token campaign_fbs_id campaign_dbs_id
      warehouse_fbs_id warehouse_dbs_id st.
    destruct (market_main_emits w fuel market_token campaign_fbs_id
                campaign_dbs_id warehouse_fbs_id warehouse_dbs_id st)
      as (evs & Hlog & Hall).
    exists evs. split; [done|]. intros prices c t Hin.
    exact (proj1 (Forall_forall _ _) Hall _ Hin).
  - by vm_compute.
Qed.

(** ** The scenarios of the specification *)

Example scenario_stocks :
  let rows := [Watch "A" "5" "100.00"; Watch "B" ">10" "200.50"] in
  let st : state Seller.event := State {[ 1%positive := ["A"; "B"; "C"] ]} [] in
  fst (Seller.create_stocks rows 1%positive st)
  = Ok [Seller.Stock "A" 5; Seller.Stock "B" 100; Seller.Stock "C" 0].
Proof. by vm_compute. Qed.

Example scenario_prices :
  let rows := [Watch "A" "5" "100.00"; Watch "B" ">10" "200.50"] in
  let st : state Market.event := State {[ 1%positive := ["A"; "B"; "C"] ]} [] in
  fst (Market.create_prices rows 1%positive st)
  = Ok [Market.Price "A" (Market.PriceValue 100 "RUR");
        Market.Price "B" (Market.PriceValue 200 "RUR")].
Proof. by vm_compute. Qed.

Example scenario_chunks :
  option_map (map (@length nat)) (divide (seq 1 1050) 500)
  = Some [500%nat; 500%nat; 50%nat].
Proof. by vm_compute. Qed.

(** * Further properties of the code *)

(** ** [price_conversion] as a function on texts *)

Section PriceTexts.

Lemma re_sub_digits d : all_digits d = true → Py.re_sub_non_digits d = d.
Proof.
  induction d as [|c r IH]; simpl; [done|].
  intros [Hc Hr]%andb_true_iff. rewrite Hc. by rewrite IH.
Qed.

Lemma re_sub_app a b :
  Py.re_sub_non_digits (a +:+ b)
  = Py.re_sub_non_digits a +:+ Py.re_sub_non_digits b.
Proof.
  induction a as [|c r IH]; simpl; [done|].
  destruct (Py.is_digit c); simpl; by rewrite IH.
Qed.

Lemma before_dot_no_dot a : all_chars not_dot a = true → before_dot a = a.
Proof.
  induction a as [|c r IH]; simpl; [done|].
  intros [Hc Hr]%andb_true_iff. unfold not_dot in Hc.
  apply negb_true_iff in Hc. rewrite Hc. by rewrite IH.
Qed.

Lemma before_dot_app a b :
  all_chars not_dot a = true → before_dot (a +:+ String "." b) = a.
Proof.
  induction a as [|c r IH]; simpl; [done|].
  intros [Hc Hr]%andb_true_iff. unfold not_dot in Hc.
  apply negb_true_iff in Hc. rewrite Hc. by rewrite IH.
Qed.

Lemma all_digits_no_dot d : all_digits d = true → all_chars not_dot d = true.
Proof.
  induction d as [|c r IH]; simpl; [done|].
  intros [Hc Hr]%andb_true_iff. rewrite IH by done.
  destruct (digit_not_special c Hc) as (_ & _ & _ & _ & Hdot).
  unfold not_dot. by rewrite Hdot.
Qed.

Lemma all_chars_app p a b :
  all_chars p (a +:+ b) = all_chars p a && all_chars p b.
Proof.
  induction a as [|c r IH]; simpl; [done|]. by rewrite IH, andb_assoc.
Qed.

Lemma price_conversion_no_dot a :
  all_chars not_dot a = true → price_conversion a = Py.re_sub_non_digits a.
Proof.
  intros H. rewrite (proj1 (price_conversion_spec a)).
  by rewrite before_dot_no_dot.
Qed.
End PriceTexts.

(** X1. [price_conversion] leaves a text of digits as it is, and applying
    it to its own result changes nothing: a price that went through it
    once can go through it again. *)
Theorem price_conversion_idempotent :
  (∀ d, all_digits d = true → price_conversion d = d)
  ∧ (∀ raw, price_conversion (price_conversion raw) = price_conversion raw).
Proof.
  assert (Hfix : ∀ d, all_digits d = true → price_conversion d = d).
  { intros d Hd. rewrite price_conversion_no_dot by by apply all_digits_no_dot.
    by apply re_sub_digits. }
  split; [exact Hfix|]. intros raw. apply Hfix, price_conversion_spec.
Qed.

Lemma price_conversion_idempotent_witness :
  price_conversion "005990" = "005990".
Proof.
  destruct price_conversion_idempotent as [Hfix _].
  apply (Hfix "005990"). reflexivity.
Defined.

(** X2. [price_conversion] cuts the text at the first full stop and never
    looks at what follows it, so the fraction of a price is dropped, not
    rounded.  Any other separator is dropped and the digits on both of
    its sides are kept: with a comma as decimal mark the digits of the
    fraction are appended to those of the whole part. *)
Theorem price_conversion_separators (a b : string) :
  all_chars not_dot a = true →
  price_conversion (a +:+ String "." b) = price_conversion a
  ∧ (∀ sep, Py.is_digit sep = false → not_dot sep = true →
       all_chars not_dot b = true →
       price_conversion (a +:+ String sep b)
       = price_conversion a +:+ price_conversion b).
Proof.
  intros Ha. split.
  - rewrite (proj1 (price_conversion_spec (a +:+ String "." b))).
    rewrite before_dot_app by done. by rewrite price_conversion_no_dot.
  - intros sep Hsep Hnd Hb.
    rewrite !price_conversion_no_dot; try done.
    + rewrite re_sub_app. simpl. by rewrite Hsep.
    + rewrite all_chars_app. simpl. by rewrite Ha, Hnd, Hb.
Qed.

Lemma price_conversion_separators_witness :
  price_conversion ("5'990" +:+ String "." "99 руб.") = price_conversion "5'990"
  ∧ price_conversion ("5990" +:+ String "," "50")
    = price_conversion "5990" +:+ price_conversion "50".
Proof.
  split.
  - apply (price_conversion_separators "5'990" "99 руб."). reflexivity.
  - destruct (price_conversion_separators "5990" "50" eq_refl) as [_ Hsep].
    apply (Hsep ","%char); reflexivity.
Defined.

(** ** More on the chunker *)

(** X3. For a positive size [divide] cuts the list into the length
    divided by the size, rounded up, chunks; no chunk is empty and none
    is longer than the size, and an empty list gives no chunk at all. *)
Theorem divide_chunk_count {A} (items : list A) (n : Z) :
  0 < n →
  ∃ chunks,
    divide items n = Some chunks
    ∧ Z.of_nat (length chunks) = (Z.of_nat (length items) + n - 1) / n
    ∧ Forall (λ c, 0 < Z.of_nat (length c) ≤ n) chunks
    ∧ (items = [] → chunks = []).
Proof.
  intros Hn. eexists. split; [by apply divide_chunks|].
  destruct (chunk_count_pos items n Hn) as (Hm0 & Hcover & Hlast & Hpos).
  set (len := Z.of_nat (length items)) in *.
  assert (Hcount : chunk_count items n = (len + n - 1) / n).
  { unfold chunk_count, range_len. fold len.
    destruct (Z.ltb_spec 0 n) as [_|?]; [|lia].
    destruct (Z.ltb_spec 0 len) as [Hlen|Hlen].
    - replace (len + n - 1) with (len - 1 + 1 * n) by lia.
      rewrite Z.div_add by lia. by rewrite Z.sub_0_r.
    - assert (len = 0) as -> by (subst len; lia).
      symmetry. apply Z.div_small. lia. }
  unfold chunks_upto. rewrite length_map, length_seq. split_and!.
  - rewrite <- Hcount. apply Z2Nat.id, Hm0.
  - apply Forall_forall. intros c Hc.
    change (@map nat (list A)) with (@fmap list _ nat (list A)) in Hc.
    apply list_elem_of_fmap in Hc as (k & -> & Hk).
    apply elem_of_seq in Hk as [_ Hk]. simpl in Hk.
    rewrite length_take, length_drop.
    assert (0 < len) by (apply Hpos; lia).
    specialize (Hlast ltac:(done)).
    assert (Z.of_nat k * n < len) by nia.
    subst len. split; [|lia]. nia.
  - intros ->. assert (chunk_count (@nil A) n = 0) as ->; [|done].
    subst len. simpl in Hpos. lia.
Qed.

Lemma divide_chunk_count_witness :
  ∃ chunks,
    divide [1; 2; 3; 4; 5; 6; 7] 3 = Some chunks
    ∧ Z.of_nat (length chunks) = (Z.of_nat (length [1; 2; 3; 4; 5; 6; 7]) + 3 - 1) / 3
    ∧ Forall (λ c, 0 < Z.of_nat (length c) ≤ 3) chunks
    ∧ ([1; 2; 3; 4; 5; 6; 7] = [] → chunks = []).
Proof. apply (divide_chunk_count [1; 2; 3; 4; 5; 6; 7] 3). lia. Defined.

(** ** More on the stock reconciler *)

Section StockPassMore.
Context {E entry : Type} (mk : string → Z → entry) (key : entry → string).
Hypothesis key_mk : ∀ x q, key (mk x q) = x.

(** Rows whose quantities are all readable do not end the pass. *)
Lemma stock_pass_app pre : ∀ rest ids acc,
  Forall (λ r, is_Some (stock_of_quantity (kolichestvo r))) pre →
  ∃ acc',
    stock_pass mk (pre ++ rest) ids acc
    = stock_pass mk rest (remaining (kod <$> pre) ids) acc'.
Proof.
  induction pre as [|r pre IH]; intros rest ids acc Hpre; simpl.
  - by exists acc.
  - apply Forall_cons in Hpre as [[q Hq] Hpre]. rewrite Hq.
    destruct (Py.contains (kod r) ids) eqn:Hin.
    + by apply IH.
    + apply bool_decide_eq_false in Hin.
      rewrite (proj2 (remove_absent _ _ Hin)). by apply IH.
Qed.

Lemma stock_pass_Forall (P : entry → Prop) rows : ∀ ids acc stocks ids',
  (∀ x q, P (mk x q)) → Forall P acc →
  stock_pass mk rows ids acc = (Ok stocks, ids') → Forall P stocks.
Proof.
  induction rows as [|r rest IH]; intros ids acc stocks ids' Hmk Hacc H; simpl in H.
  - by injection H as <- _.
  - destruct (Py.contains (kod r) ids).
    + destruct (stock_of_quantity (kolichestvo r)) as [q|]; [|done].
      eapply IH; [done| |done]. apply Forall_app. split; [done|].
      by apply Forall_singleton.
    + by eapply IH.
Qed.

Lemma elem_of_remove_first_NoDup c x ids :
  NoDup ids → x ∈ remove_first c ids ↔ x ∈ ids ∧ x ≠ c.
Proof.
  intros Hnd. rewrite remove_first_filter by done.
  rewrite list_elem_of_filter. tauto.
Qed.

(** The matched entries come in the order in which their codes first
    occur in the feed. *)
Lemma stock_pass_order rows : ∀ ids acc stocks ids',
  NoDup ids →
  stock_pass mk rows ids acc = (Ok stocks, ids') →
  key <$> stocks
  = (key <$> acc) ++ filter (λ x, x ∈ ids) (first_occurrences (kod <$> rows)).
Proof.
  induction rows as [|r rest IH]; intros ids acc stocks ids' Hnd H; simpl in H.
  - injection H as <- _. simpl. by rewrite app_nil_r.
  - rewrite fmap_cons. simpl first_occurrences.
    destruct (Py.contains (kod r) ids) eqn:Hin.
    + apply bool_decide_eq_true in Hin.
      destruct (stock_of_quantity (kolichestvo r)) as [q|]; [|done].
      rewrite (IH _ _ _ _ (sublist_NoDup _ _ Hnd (remove_first_sublist _ _)) H).
      rewrite fmap_app. simpl. rewrite key_mk, <- app_assoc. simpl.
      rewrite filter_cons_True by done. do 2 f_equal.
      rewrite list_filter_filter. apply list_filter_iff. intros x.
      by apply elem_of_remove_first_NoDup.
    + apply bool_decide_eq_false in Hin.
      rewrite (IH _ _ _ _ Hnd H). f_equal.
      rewrite filter_cons_False by done.
      rewrite list_filter_filter. apply list_filter_iff. intros x.
      split; [|tauto]. intros Hx. split; [done|]. by intros ->.
Qed.

(** The three further facts about one call of [create_stocks]. *)
Lemma create_stocks_with_more rows l ids (st : state E) :
  heap st !! l = Some ids →
  (∀ stocks st',
     create_stocks_with mk rows l st = (Ok stocks, st') →
     (∀ P : entry → Prop, (∀ x q, P (mk x q)) → Forall P stocks)
     ∧ (NoDup ids →
        ∃ matched,
          stocks = matched ++ ((λ x, mk x 0) <$> filter (λ x, x ∉ kod <$> rows) ids)
          ∧ key <$> matched
            = filter (λ x, x ∈ ids) (first_occurrences (kod <$> rows))))
  ∧ (∀ pre w post,
       rows = pre ++ w :: post →
       Forall (λ r, is_Some (stock_of_quantity (kolichestvo r))) pre →
       kod w ∈ remaining (kod <$> pre) ids →
       stock_of_quantity (kolichestvo w) = None →
       create_stocks_with mk rows l st
       = (Raise Py.ValueError, set_list l (remaining (kod <$> pre) ids) st)).
Proof.
  intros Hl. rewrite (create_stocks_with_run mk rows l ids st Hl). split.
  - intros stocks st' Hrun.
    destruct (stock_pass mk rows ids []) as [[matched|e|f] ids'] eqn:Hpass;
      simpl in Hrun; [|done..].
    injection Hrun as <- <-. split.
    + intros P HP. apply Forall_app. split.
      * by eapply stock_pass_Forall.
      * apply Forall_fmap, Forall_forall. intros x _. apply HP.
    + intros Hnd. exists matched.
      destruct (stock_pass_ok mk key key_mk _ _ _ _ _ Hpass) as (-> & _ & _).
      rewrite remaining_filter by done. split; [done|].
      by rewrite (stock_pass_order _ _ _ _ _ Hnd Hpass).
  - intros pre w post -> Hpre Hin Hq.
    destruct (stock_pass_app pre (w :: post) ids [] Hpre) as [acc' ->].
    simpl. unfold Py.contains. rewrite (bool_decide_eq_true_2 _ Hin), Hq. done.
Qed.
End StockPassMore.

(** X4. Whatever the list of offer ids, duplicates included, a call of
    [create_stocks] that returns gives every offer id as many entries as
    the id occurs in the list: the offer ids of the entries are a
    rearrangement of the list. *)
Theorem create_stocks_keeps_multiplicity (rows : list watch) (l : loc)
    (ids : list string) :
  (∀ (st st' : state Seller.event) stocks,
     heap st !! l = Some ids →
     Seller.create_stocks rows l st = (Ok stocks, st') →
     Seller.s_offer_id <$> stocks ≡ₚ ids)
  ∧ (∀ w warehouse_id (st st' : state Market.event) stocks,
       heap st !! l = Some ids →
       Market.create_stocks w rows l warehouse_id st = (Ok stocks, st') →
       Market.sku <$> stocks ≡ₚ ids).
Proof.
  split.
  - intros st st' stocks Hl Hrun.
    pose proof (create_stocks_with_spec (E := Seller.event)
                  (λ x q, Seller.Stock x q) Seller.s_offer_id
                  ltac:(done) rows l ids st Hl) as Hspec.
    unfold Seller.create_stocks in Hrun. rewrite Hrun in Hspec. apply Hspec.
  - intros w warehouse_id st st' stocks Hl Hrun.
    rewrite market_create_stocks_unfold in Hrun.
    pose proof (create_stocks_with_spec (E := Market.event)
                  (market_stock w warehouse_id (length (log st))) Market.sku
                  ltac:(done) rows l ids st Hl) as Hspec.
    rewrite Hrun in Hspec. apply Hspec.
Qed.

Lemma create_stocks_keeps_multiplicity_witness :
  let rows := [Watch "A" "5" "1.00"; Watch "B" "7" "2.00"] in
  let st : state Seller.event := State {[ 1%positive := ["A"; "A"; "C"] ]} [] in
  Seller.s_offer_id <$> [Seller.Stock "A" 5; Seller.Stock "A" 0; Seller.Stock "C" 0]
  ≡ₚ ["A"; "A"; "C"].
Proof.
  intros rows st.
  destruct (create_stocks_keeps_multiplicity rows 1%positive ["A"; "A"; "C"])
    as [Hseller _].
  apply (Hseller st (snd (Seller.create_stocks rows 1%positive st))).
  - reflexivity.
  - by vm_compute.
Defined.

(** X5. When [create_stocks] meets a matched row whose quantity [int]
    cannot read, it raises [ValueError] and returns nothing, but the
    offer ids matched by the rows before that one are already gone from
    the caller's list. *)
Theorem create_stocks_raise_leaves_partial (pre post : list watch) (w : watch)
    (l : loc) (ids : list string) :
  Forall (λ r, is_Some (stock_of_quantity (kolichestvo r))) pre →
  kod w ∈ remaining (kod <$> pre) ids →
  stock_of_quantity (kolichestvo w) = None →
  (∀ st : state Seller.event,
     heap st !! l = Some ids →
     Seller.create_stocks (pre ++ w :: post) l st
     = (Raise Py.ValueError,
        State (<[l := remaining (kod <$> pre) ids]> (heap st)) (log st)))
  ∧ (∀ wm warehouse_id (st : state Market.event),
       heap st !! l = Some ids →
       Market.create_stocks wm (pre ++ w :: post) l warehouse_id st
       = (Raise Py.ValueError,
          State (<[l := remaining (kod <$> pre) ids]> (heap st)) (log st))).
Proof.
  intros Hpre Hin Hq. split.
  - intros st Hl.
    destruct (create_stocks_with_more (E := Seller.event)
                (λ x q, Seller.Stock x q) Seller.s_offer_id ltac:(done)
                (pre ++ w :: post) l ids st Hl) as [_ Hraise].
    by apply (Hraise pre w post).
  - intros wm warehouse_id st Hl. rewrite market_create_stocks_unfold.
    destruct (create_stocks_with_more (E := Market.event)
                (market_stock wm warehouse_id (length (log st))) Market.sku
                ltac:(done) (pre ++ w :: post) l ids st Hl) as [_ Hraise].
    by apply (Hraise pre w post).
Qed.

Lemma create_stocks_raise_leaves_partial_witness :
  let st : state Seller.event := State {[ 1%positive := ["A"; "B"; "C"] ]} [] in
  Seller.create_stocks ([Watch "A" "5" "1.00"] ++ Watch "B" "много" "2.00" :: []) 1%positive st
  = (Raise Py.ValueError,
     State (<[1%positive := remaining (kod <$> [Watch "A" "5" "1.00"]) ["A"; "B"; "C"]]>
              (heap st)) (log st)).
Proof.
  intros st.
  destruct (create_stocks_raise_leaves_partial [Watch "A" "5" "1.00"] []
              (Watch "B" "много" "2.00") 1%positive ["A"; "B"; "C"])
    as [Hseller _].
  - apply Forall_singleton. by eexists.
  - simpl. apply (bool_decide_unpack _). by vm_compute.
  - reflexivity.
  - apply (Hseller st). reflexivity.
Defined.

(** X6. For offer ids without duplicates the list that [create_stocks]
    returns is ordered: first the entries of the matched codes, in the
    order in which the codes first occur in the feed, then an entry with
    stock zero for every offer id that no feed row carries, in the order
    of the offer id list. *)
Theorem create_stocks_output_order (rows : list watch) (l : loc)
    (ids : list string) :
  NoDup ids →
  (∀ (st st' : state Seller.event) stocks,
     heap st !! l = Some ids →
     Seller.create_stocks rows l st = (Ok stocks, st') →
     ∃ matched,
       stocks = matched ++ ((λ x, Seller.Stock x 0)
                              <$> filter (λ x, x ∉ kod <$> rows) ids)
       ∧ Seller.s_offer_id <$> matched
         = filter (λ x, x ∈ ids) (first_occurrences (kod <$> rows)))
  ∧ (∀ w warehouse_id (st st' : state Market.event) stocks,
       heap st !! l = Some ids →
       Market.create_stocks w rows l warehouse_id st = (Ok stocks, st') →
       ∃ matched,
         stocks = matched ++ ((λ x, market_stock w warehouse_id (length (log st)) x 0)
                                <$> filter (λ x, x ∉ kod <$> rows) ids)
         ∧ Market.sku <$> matched
           = filter (λ x, x ∈ ids) (first_occurrences (kod <$> rows))).
Proof.
  intros Hnd. split.
  - intros st st' stocks Hl Hrun.
    destruct (create_stocks_with_more (E := Seller.event)
                (λ x q, Seller.Stock x q) Seller.s_offer_id ltac:(done)
                rows l ids st Hl) as [Hok _].
    by destruct (Hok stocks st' Hrun) as [_ Horder]; apply Horder.
  - intros w warehouse_id st st' stocks Hl Hrun.
    rewrite market_create_stocks_unfold in Hrun.
    destruct (create_stocks_with_more (E := Market.event)
                (market_stock w warehouse_id (length (log st))) Market.sku
                ltac:(done) rows l ids st Hl) as [Hok _].
    by destruct (Hok stocks st' Hrun) as [_ Horder]; apply Horder.
Qed.

Lemma create_stocks_output_order_witness :
  let rows := [Watch "C" "2" "1.00"; Watch "A" "5" "1.00"; Watch "C" "9" "2.00"] in
  let ids := ["A"; "B"; "C"; "D"] in
  let st : state Seller.event := State {[ 1%positive := ids ]} [] in
  ∃ matched,
    [Seller.Stock "C" 2; Seller.Stock "A" 5; Seller.Stock "B" 0; Seller.Stock "D" 0]
    = matched ++ ((λ x, Seller.Stock x 0) <$> filter (λ x, x ∉ kod <$> rows) ids)
    ∧ Seller.s_offer_id <$> matched
      = filter (λ x, x ∈ ids) (first_occurrences (kod <$> rows)).
Proof.
  intros rows ids st.
  assert (Hnd : NoDup ids) by (apply (bool_decide_unpack _); by vm_compute).
  destruct (create_stocks_output_order rows 1%positive ids Hnd) as [Hseller _].
  apply (Hseller st (snd (Seller.create_stocks rows 1%positive st))).
  - reflexivity.
  - by vm_compute.
Defined.

(** X7. All the entries of one call of [create_stocks] in [market.py]
    carry the warehouse passed to the call and a single item of type
    [FIT], stamped with the one reading of the clock taken when the
    call began, followed by ["Z"]. *)
Theorem market_stock_entries_shape (w : world Market.page) (rows : list watch)
    (l : loc) (ids : list string) (warehouse_id : string)
    (st st' : state Market.event) (stocks : list Market.stock_entry) :
  heap st !! l = Some ids →
  Market.create_stocks w rows l warehouse_id st = (Ok stocks, st') →
  Forall (λ e,
            Market.warehouseId e = warehouse_id
            ∧ ∃ q, Market.items e
                   = [ {| Market.count := q;
                          Market.type := "FIT";
                          Market.updatedAt := utcnow w (length (log st)) +:+ "Z" |} ])
         stocks.
Proof.
  intros Hl Hrun. rewrite market_create_stocks_unfold in Hrun.
  destruct (create_stocks_with_more (E := Market.event)
              (market_stock w warehouse_id (length (log st))) Market.sku
              ltac:(done) rows l ids st Hl) as [Hok _].
  destruct (Hok stocks st' Hrun) as [Hall _]. apply Hall.
  intros x q. split; [done|]. by exists q.
Qed.

Lemma market_stock_entries_shape_witness :
  let w := World Market.page (λ _, inr (Market.Page [] None)) (λ _, None)
             (inr []) (λ _, "2024-01-01T00:00:00") in
  let st : state Market.event := State {[ 1%positive := ["A"; "B"] ]} [] in
  let run := Market.create_stocks w [Watch "A" "5" "1.00"] 1%positive "wh" st in
  let stocks := match fst run with Ok stocks => stocks | _ => [] end in
  Forall (λ e,
            Market.warehouseId e = "wh"
            ∧ ∃ q, Market.items e
                   = [ {| Market.count := q;
                          Market.type := "FIT";
                          Market.updatedAt := utcnow w (length (log st)) +:+ "Z" |} ])
         stocks.
Proof.
  intros w st run stocks.
  apply (market_stock_entries_shape w [Watch "A" "5" "1.00"] 1%positive ["A"; "B"]
           "wh" st (snd run) stocks).
  - reflexivity.
  - by vm_compute.
Defined.

(** ** More on the price reconciler *)

Lemma market_price_some r :
  market_price r
  = if decide (price_conversion (tsena r) = "") then None
    else Some (market_price_entry r).
Proof.
  unfold market_price. rewrite int_price_conversion. by case_decide.
Qed.

Lemma market_create_prices_cases (rows : list watch) (l : loc)
    (ids : list string) (st : state Market.event) :
  heap st !! l = Some ids →
  Market.create_prices rows l st
  = (if decide (Forall (λ r, price_conversion (tsena r) ≠ "") (matching ids rows))
     then Ok (market_price_entry <$> matching ids rows)
     else Raise Py.ValueError,
     st).
Proof.
  intros Hl. rewrite (market_create_prices_run _ _ _ _ Hl). f_equal.
  case_decide as Hall.
  - replace (mapM market_price (matching ids rows))
      with (Some (market_price_entry <$> matching ids rows)); [done|].
    symmetry. apply mapM_Some.
    induction Hall as [|r rs Hr _ IH]; [by constructor|].
    rewrite fmap_cons. constructor; [|done].
    rewrite market_price_some. by rewrite decide_False.
  - replace (mapM market_price (matching ids rows)) with (@None (list Market.price_entry));
      [done|].
    symmetry. apply mapM_None. apply not_Forall_Exists in Hall; [|apply _].
    eapply Exists_impl; [done|]. intros r Hr. simpl in Hr.
    rewrite market_price_some. rewrite decide_True; [done|].
    by destruct (decide (price_conversion (tsena r) = "")).
Qed.

(** X8. [create_prices] of [market.py] returns exactly when every feed
    row whose code is an offer id keeps a digit of its price before the
    first full stop; the entries then carry the code, the number those
    digits denote and the currency ["RUR"], one per such row in feed
    order.  Otherwise it raises [ValueError].  Either way the offer ids
    and the log are left as they were. *)
Theorem market_create_prices_values (rows : list watch) (l : loc)
    (ids : list string) (st : state Market.event) :
  heap st !! l = Some ids →
  Market.create_prices rows l st
  = (if decide (Forall (λ r, price_conversion (tsena r) ≠ "") (matching ids rows))
     then Ok (market_price_entry <$> matching ids rows)
     else Raise Py.ValueError,
     st).
Proof. apply market_create_prices_cases. Qed.

Lemma market_create_prices_values_witness :
  let rows := [Watch "A" "5" "1'250.90 руб."; Watch "Z" "1" "нет"] in
  let st : state Market.event := State {[ 1%positive := ["A"; "B"] ]} [] in
  Market.create_prices rows 1%positive st
  = (if decide (Forall (λ r, price_conversion (tsena r) ≠ "")
                       (matching ["A"; "B"] rows))
     then Ok (market_price_entry <$> matching ["A"; "B"] rows)
     else Raise Py.ValueError,
     st).
Proof.
  intros rows st.
  apply (market_create_prices_values rows 1%positive ["A"; "B"] st). reflexivity.
Defined.

(** ** More on the catalogs *)

Section MarketCatalog.
Variable wm : world Market.page.
Variables campaign_id market_token : string.

Lemma answered_tail (st : state Market.event) ev p ps :
  answered wm st (p :: ps) → answered wm (State (heap st) (log st ++ [ev])) ps.
Proof.
  intros H j q Hq. simpl. rewrite length_app. simpl.
  replace (length (log st) + 1 + j)%nat with (length (log st) + S j)%nat by lia.
  by apply H.
Qed.

Lemma answered_head (st : state Market.event) p ps :
  answered wm st (p :: ps) → page_reply wm (length (log st)) = inr p.
Proof. intros H. specialize (H 0%nat p eq_refl). by rewrite Nat.add_0_r in H. Qed.

Lemma market_loop_stops ps : ∀ acc cursor (st : state Market.event) last fuel,
  answered wm st (ps ++ [last]) →
  more_pages ps →
  Market.no_page (Market.nextPageToken last) = true →
  (length ps < fuel)%nat →
  Market.get_offer_ids_loop wm fuel cursor acc campaign_id market_token st
  = (Ok (acc ++ listed (ps ++ [last])),
     State (heap st) (log st ++ page_requests campaign_id market_token cursor ps)).
Proof.
  induction ps as [|p r IH]; intros acc cursor st last fuel Hs Hgo Hlast Hfuel;
    (destruct fuel as [|fuel]; [simpl in Hfuel; lia|]); simpl in Hs.
  - simpl. unfold bind at 1.
    rewrite market_get_product_list_run, (answered_head _ _ _ Hs). rewrite Hlast.
    unfold listed. simpl. by rewrite app_nil_r.
  - apply Forall_cons in Hgo as [Hne Hgo].
    simpl. unfold bind at 1.
    rewrite market_get_product_list_run, (answered_head _ _ _ Hs). rewrite Hne.
    rewrite (IH (acc ++ Market.offerMappingEntries p)
               (default "" (Market.nextPageToken p)) _ last fuel).
    + unfold listed, page_requests. simpl. rewrite <- !app_assoc. done.
    + by eapply answered_tail.
    + done.
    + done.
    + simpl in Hfuel. lia.
Qed.

Lemma market_loop_raises ps : ∀ acc cursor (st : state Market.event) e fuel,
  answered wm st ps →
  more_pages ps →
  page_reply wm (length (log st) + length ps) = inl e →
  (length ps < fuel)%nat →
  Market.get_offer_ids_loop wm fuel cursor acc campaign_id market_token st
  = (Raise e,
     State (heap st) (log st ++ page_requests campaign_id market_token cursor ps)).
Proof.
  induction ps as [|p r IH]; intros acc cursor st e fuel Hs Hgo He Hfuel;
    (destruct fuel as [|fuel]; [simpl in Hfuel; lia|]).
  - simpl. unfold bind at 1. rewrite market_get_product_list_run.
    simpl in He. rewrite Nat.add_0_r in He. by rewrite He.
  - apply Forall_cons in Hgo as [Hne Hgo].
    simpl. unfold bind at 1.
    rewrite market_get_product_list_run, (answered_head _ _ _ Hs). rewrite Hne.
    rewrite (IH (acc ++ Market.offerMappingEntries p)
               (default "" (Market.nextPageToken p)) _ e fuel).
    + unfold page_requests. simpl. rewrite <- !app_assoc. done.
    + by eapply answered_tail.
    + done.
    + simpl. rewrite length_app. simpl. rewrite <- He. f_equal. simpl. lia.
    + simpl in Hfuel. lia.
Qed.

Lemma market_loop_runs_on ps : ∀ acc cursor (st : state Market.event),
  answered wm st ps →
  more_pages ps →
  Market.get_offer_ids_loop wm (length ps) cursor acc campaign_id market_token st
  = (Fault OutOfFuel,
     State (heap st)
       (log st ++ take (length ps)
                    (page_requests campaign_id market_token cursor ps))).
Proof.
  induction ps as [|p r IH]; intros acc cursor st Hs Hgo.
  - simpl. destruct st. simpl. by rewrite app_nil_r.
  - apply Forall_cons in Hgo as [Hne Hgo].
    simpl. unfold bind at 1.
    rewrite market_get_product_list_run, (answered_head _ _ _ Hs). rewrite Hne.
    rewrite IH; [|by eapply answered_tail|done].
    unfold page_requests. simpl. rewrite <- !app_assoc. done.
Qed.

Lemma market_projection_run (product_list : list Market.entry) :
  ∀ offer_ids (st : state Market.event),
  for_each product_list offer_ids (fun offer_ids product =>
    ret (offer_ids ++ [Market.shopSku (Market.entry_offer product)])) st
  = (Ok (offer_ids
         ++ ((λ product, Market.shopSku (Market.entry_offer product))
               <$> product_list)), st).
Proof.
  induction product_list as [|x r IH]; intros offer_ids st; simpl.
  - by rewrite app_nil_r.
  - unfold bind, ret at 1. rewrite IH. by rewrite <- app_assoc.
Qed.
End MarketCatalog.

Section SellerCatalogMore.
Variable w : world Seller.page.
Variables client_id seller_token : string.

Lemma seller_loop_runs_on ps : ∀ acc cursor (st : state Seller.event),
  served w st ps →
  keeps_going acc ps →
  Seller.get_offer_ids_loop w (length ps) cursor acc client_id seller_token st
  = (Fault OutOfFuel,
     State (heap st)
       (log st ++ take (length ps) (requests client_id seller_token cursor ps))).
Proof.
  induction ps as [|p r IH]; intros acc cursor st Hs Hgo.
  - simpl. destruct st. simpl. by rewrite app_nil_r.
  - destruct Hgo as [Hne Hgo].
    simpl. unfold bind at 1.
    rewrite get_product_list_run, (served_head _ _ _ _ Hs).
    apply Z.eqb_neq in Hne. rewrite Hne.
    rewrite IH; [|by eapply served_tail|done].
    unfold requests. simpl. rewrite <- !app_assoc. done.
Qed.

(** A list of products that the loop returns has the length that the
    page received last declares. *)
Lemma seller_loop_sound fuel : ∀ cursor acc (st st' : state Seller.event) ps,
  Seller.get_offer_ids_loop w fuel cursor acc client_id seller_token st
  = (Ok ps, st') →
  heap st' = heap st
  ∧ (length (log st) < length (log st'))%nat
  ∧ ∃ p, page_reply w (length (log st') - 1) = inr p
         ∧ Seller.total p = Z.of_nat (length ps).
Proof.
  induction fuel as [|fuel IH]; intros cursor acc st st' ps; simpl; [done|].
  unfold bind at 1. rewrite get_product_list_run.
  destruct (page_reply w (length (log st))) as [e|p] eqn:Hp; [done|].
  destruct (Z.eqb_spec (Seller.total p)
              (Z.of_nat (length (acc ++ Seller.items p)))) as [Heq|Hne].
  - intros [= <- <-]. simpl. rewrite length_app. simpl.
    split_and!; [done|lia|]. exists p.
    replace (length (log st) + 1 - 1)%nat with (length (log st)) by lia. done.
  - intros Hrun. apply IH in Hrun as (Hheap & Hlen & Hlast). simpl in *.
    rewrite length_app in Hlen. simpl in Hlen. split_and!; [done|lia|done].
Qed.
End SellerCatalogMore.

(** X9. [get_offer_ids] of [market.py] asks for the first page with an
    empty token and for each next page with the token the page before
    named, and stops with the first page that names none (a missing or
    an empty token); it returns a new list with the [shopSku] of every
    entry read, in page order.  When a request raises, at whatever page,
    the exception leaves [get_offer_ids] and no request is repeated. *)
Theorem market_get_offer_ids_cursor_based (wm : world Market.page)
    (campaign_id market_token : string) (st : state Market.event)
    (ps : list Market.page) (fuel : nat) :
  more_pages ps →
  (length ps < fuel)%nat →
  let r := fresh (dom (heap st)) in
  heap st !! r = None
  ∧ (∀ last,
       answered wm st (ps ++ [last]) →
       Market.no_page (Market.nextPageToken last) = true →
       Market.get_offer_ids wm fuel campaign_id market_token st
       = (Ok r,
          State (<[r := (λ product, Market.shopSku (Market.entry_offer product))
                          <$> listed (ps ++ [last])]> (heap st))
                (log st ++ page_requests campaign_id market_token "" ps)))
  ∧ (∀ e,
       answered wm st ps →
       page_reply wm (length (log st) + length ps) = inl e →
       Market.get_offer_ids wm fuel campaign_id market_token st
       = (Raise e,
          State (heap st)
                (log st ++ page_requests campaign_id market_token "" ps))).
Proof.
  intros Hgo Hfuel r. split_and!.
  - apply (not_elem_of_dom (heap st)). apply is_fresh.
  - intros last Hs Hlast. unfold Market.get_offer_ids. unfold bind at 1.
    rewrite (market_loop_stops wm campaign_id market_token ps [] "" st last fuel
               Hs Hgo Hlast Hfuel).
    simpl. unfold bind at 1. by rewrite market_projection_run.
  - intros e Hs He. unfold Market.get_offer_ids. unfold bind at 1.
    by rewrite (market_loop_raises wm campaign_id market_token ps [] "" st e fuel
                  Hs Hgo He Hfuel).
Qed.

Lemma market_get_offer_ids_cursor_based_witness :
  let p0 := Market.Page [Market.Entry (Market.Offer "A")] (Some "t1") in
  let p1 := Market.Page [Market.Entry (Market.Offer "B")] (Some "") in
  let wm := World Market.page
              (λ k, match k with O => inr p0 | _ => inr p1 end)
              (λ _, None) (inr []) (λ _, "") in
  let st : state Market.event := State ∅ [] in
  let r := fresh (dom (heap st)) in
  Market.get_offer_ids wm 3 "fbs" "token" st
  = (Ok r,
     State (<[r := (λ product, Market.shopSku (Market.entry_offer product))
                     <$> listed ([p0] ++ [p1])]> (heap st))
           (log st ++ page_requests "fbs" "token" "" [p0])).
Proof.
  intros p0 p1 wm st r.
  assert (Hgo : more_pages [p0]) by (apply Forall_singleton; reflexivity).
  assert (Hfuel : (length [p0] < 3)%nat) by (simpl; lia).
  destruct (market_get_offer_ids_cursor_based wm "fbs" "token" st [p0] 3 Hgo Hfuel)
    as (_ & Hstop & _).
  apply (Hstop p1); [|reflexivity].
  intros j p Hj. destruct j as [|[|j]]; simpl in Hj; [| |done];
    by injection Hj as <-.
Defined.

(** X10. Whenever [get_offer_ids] of [seller.py] returns, it has sent at
    least one request, the list it returns is a new one, no other list
    has changed, and the number of offer ids in it is the total that the
    page received last declares. *)
Theorem seller_get_offer_ids_returns_total (w : world Seller.page)
    (client_id seller_token : string) (fuel : nat)
    (st st' : state Seller.event) (r : loc) :
  Seller.get_offer_ids w fuel client_id seller_token st = (Ok r, st') →
  heap st !! r = None
  ∧ (length (log st) < length (log st'))%nat
  ∧ ∃ ids p,
      heap st' = <[r := ids]> (heap st)
      ∧ page_reply w (length (log st') - 1) = inr p
      ∧ Seller.total p = Z.of_nat (length ids).
Proof.
  unfold Seller.get_offer_ids. unfold bind at 1.
  destruct (Seller.get_offer_ids_loop w fuel "" [] client_id seller_token st)
    as [[ps|e|f] st1] eqn:Hloop; [|done..].
  apply seller_loop_sound in Hloop as (Hheap & Hlen & p & Hp & Htotal).
  unfold bind. rewrite projection_run. unfold new_list. intros [= <- <-]. simpl.
  rewrite Hheap. split_and!.
  - apply (not_elem_of_dom (heap st)). apply is_fresh.
  - done.
  - exists (Seller.offer_id <$> ps), p. by rewrite length_fmap.
Qed.

Lemma seller_get_offer_ids_returns_total_witness :
  let page := Seller.Page [Seller.Product "A"; Seller.Product "B"] 2 "B" in
  let w := World Seller.page (λ _, inr page) (λ _, None) (inr []) (λ _, "") in
  let st : state Seller.event := State ∅ [] in
  let run := Seller.get_offer_ids w 4 "id" "token" st in
  heap st !! 1%positive = None
  ∧ (length (log st) < length (log (snd run)))%nat
  ∧ ∃ ids p,
      heap (snd run) = <[1%positive := ids]> (heap st)
      ∧ page_reply w (length (log (snd run)) - 1) = inr p
      ∧ Seller.total p = Z.of_nat (length ids).
Proof.
  intros page w st run.
  apply (seller_get_offer_ids_returns_total w "id" "token" 4 st (snd run) 1%positive).
  by vm_compute.
Defined.

(** X11. Neither catalog loop gives up on its own.  As long as every
    page of the Ozon channel leaves the number of products different
    from the total it declares, and as long as every page of the Yandex
    channel names a next page, [get_offer_ids] is still asking after any
    number of turns: it has sent one request per turn and returned
    nothing. *)
Theorem get_offer_ids_runs_on :
  (∀ (w : world Seller.page) client_id seller_token
     (st : state Seller.event) ps,
     served w st ps → keeps_going [] ps →
     Seller.get_offer_ids w (length ps) client_id seller_token st
     = (Fault OutOfFuel,
        State (heap st)
          (log st ++ take (length ps) (requests client_id seller_token "" ps))))
  ∧ (∀ (wm : world Market.page) campaign_id market_token
       (st : state Market.event) ps,
       answered wm st ps → more_pages ps →
       Market.get_offer_ids wm (length ps) campaign_id market_token st
       = (Fault OutOfFuel,
          State (heap st)
            (log st ++ take (length ps)
                         (page_requests campaign_id market_token "" ps)))).
Proof.
  split.
  - intros w client_id seller_token st ps Hs Hgo.
    unfold Seller.get_offer_ids. unfold bind at 1.
    by rewrite (seller_loop_runs_on w client_id seller_token ps [] "" st Hs Hgo).
  - intros wm campaign_id market_token st ps Hs Hgo.
    unfold Market.get_offer_ids. unfold bind at 1.
    by rewrite (market_loop_runs_on wm campaign_id market_token ps [] "" st Hs Hgo).
Qed.

Lemma get_offer_ids_runs_on_witness :
  let page := Seller.Page [Seller.Product "A"; Seller.Product "B"] 1 "B" in
  let w := World Seller.page (λ _, inr page) (λ _, None) (inr []) (λ _, "") in
  let st : state Seller.event := State ∅ [] in
  let ps := [page; page; page] in
  Seller.get_offer_ids w (length ps) "id" "token" st
  = (Fault OutOfFuel,
     State (heap st) (log st ++ take (length ps) (requests "id" "token" "" ps))).
Proof.
  intros page w st ps.
  destruct get_offer_ids_runs_on as [Hseller _].
  apply (Hseller w "id" "token" st ps).
  - intros j p Hj. apply list_elem_of_lookup_2 in Hj.
    repeat (apply elem_of_cons in Hj as [->|Hj]; [reflexivity|]).
    by apply elem_of_nil in Hj.
  - simpl. repeat split; lia.
Defined.

(** ** The dispatch of the batches *)

Section Dispatch.
Context {page E A : Type} (w : world page).
Context (upload : A → M E unit) (request : A → E).
Hypothesis upload_run : ∀ c st,
  upload c st
  = (match push_reply w (length (log st)) with
     | Some e => Raise e
     | None => Ok tt
     end,
     State (heap st) (log st ++ [request c])).

Lemma accepted_tail (st : state E) ev n :
  accepted w st (S n) → accepted w (State (heap st) (log st ++ [ev])) n.
Proof.
  intros H j Hj. simpl. rewrite length_app. simpl.
  replace (length (log st) + 1 + j)%nat with (length (log st) + S j)%nat by lia.
  apply H. lia.
Qed.

Lemma accepted_head (st : state E) n :
  accepted w st (S n) → push_reply w (length (log st)) = None.
Proof. intros H. specialize (H 0%nat ltac:(lia)). by rewrite Nat.add_0_r in H. Qed.

Lemma dispatch_all chunks : ∀ st,
  accepted w st (length chunks) →
  for_each chunks tt (fun _ c => upload c) st
  = (Ok tt, State (heap st) (log st ++ (request <$> chunks))).
Proof.
  induction chunks as [|c r IH]; intros st Hacc; simpl.
  - destruct st. simpl. by rewrite app_nil_r.
  - unfold bind at 1. rewrite upload_run, (accepted_head _ _ Hacc).
    rewrite IH by by apply accepted_tail. simpl. by rewrite <- app_assoc.
Qed.

Lemma dispatch_fails chunks : ∀ st j e,
  accepted w st j →
  push_reply w (length (log st) + j) = Some e →
  (j < length chunks)%nat →
  for_each chunks tt (fun _ c => upload c) st
  = (Raise e, State (heap st) (log st ++ (request <$> take (S j) chunks))).
Proof.
  induction chunks as [|c r IH]; intros st j e Hacc He Hj; simpl in Hj; [lia|].
  simpl for_each. unfold bind at 1. rewrite upload_run.
  destruct j as [|j].
  - rewrite Nat.add_0_r in He. rewrite He. simpl. by destruct r.
  - rewrite (accepted_head _ _ Hacc).
    rewrite (IH _ j e); [|by apply accepted_tail| |lia].
    + simpl. by rewrite <- app_assoc.
    + simpl. rewrite length_app. simpl. rewrite <- He. f_equal. lia.
Qed.
End Dispatch.

Lemma seller_update_stocks_run (w : world Seller.page) client_id seller_token
    stocks (st : state Seller.event) :
  Seller.update_stocks w stocks client_id seller_token st
  = (match push_reply w (length (log st)) with
     | Some e => Raise e
     | None => Ok tt
     end,
     State (heap st) (log st ++ [Seller.ImportStocks stocks client_id seller_token])).
Proof.
  unfold Seller.update_stocks, bind, clock, emit. simpl.
  by destruct (push_reply w (length (log st))).
Qed.

Lemma seller_update_price_run (w : world Seller.page) client_id seller_token
    prices (st : state Seller.event) :
  Seller.update_price w prices client_id seller_token st
  = (match push_reply w (length (log st)) with
     | Some e => Raise e
     | None => Ok tt
     end,
     State (heap st) (log st ++ [Seller.ImportPrices prices client_id seller_token])).
Proof.
  unfold Seller.update_price, bind, clock, emit. simpl.
  by destruct (push_reply w (length (log st))).
Qed.

Lemma market_update_stocks_run (w : world Market.page) campaign_id access_token
    stocks (st : state Market.event) :
  Market.update_stocks w stocks campaign_id access_token st
  = (match push_reply w (length (log st)) with
     | Some e => Raise e
     | None => Ok tt
     end,
     State (heap st) (log st ++ [Market.OfferStocks stocks campaign_id access_token])).
Proof.
  unfold Market.update_stocks, bind, clock, emit. simpl.
  by destruct (push_reply w (length (log st))).
Qed.

Lemma market_update_price_run (w : world Market.page) campaign_id access_token
    prices (st : state Market.event) :
  Market.update_price w prices campaign_id access_token st
  = (match push_reply w (length (log st)) with
     | Some e => Raise e
     | None => Ok tt
     end,
     State (heap st) (log st ++ [Market.OfferPrices prices campaign_id access_token])).
Proof.
  unfold Market.update_price, bind, clock, emit. simpl.
  by destruct (push_reply w (length (log st))).
Qed.

(** X12. The loops that send the batches stop at the first refusal.  If
    the marketplace accepts the first [j] batches and answers batch
    [j] with an exception, exactly the batches up to that one have been
    sent, in order and once each, the exception leaves the loop and no
    later batch is sent; no list of offer ids is touched.  Shown for the
    stock loop of [seller.py] and the price loop of [market.py]. *)
Theorem dispatch_stops_at_first_refusal (j : nat) (e : Py.exn) :
  (∀ (w : world Seller.page) client_id seller_token
     (chunks : list (list Seller.stock_entry)) (st : state Seller.event),
     accepted w st j →
     push_reply w (length (log st) + j) = Some e →
     (j < length chunks)%nat →
     for_each chunks tt (fun _ some_stock =>
       Seller.update_stocks w some_stock client_id seller_token) st
     = (Raise e,
        State (heap st)
          (log st ++ ((λ c, Seller.ImportStocks c client_id seller_token)
                        <$> take (S j) chunks))))
  ∧ (∀ (w : world Market.page) campaign_id market_token
       (chunks : list (list Market.price_entry)) (st : state Market.event),
       accepted w st j →
       push_reply w (length (log st) + j) = Some e →
       (j < length chunks)%nat →
       for_each chunks tt (fun _ some_prices =>
         Market.update_price w some_prices campaign_id market_token) st
       = (Raise e,
          State (heap st)
            (log st ++ ((λ c, Market.OfferPrices c campaign_id market_token)
                          <$> take (S j) chunks)))).
Proof.
  split.
  - intros w client_id seller_token chunks st Hacc He Hj.
    apply (dispatch_fails w
             (λ c, Seller.update_stocks w c client_id seller_token)
             (λ c, Seller.ImportStocks c client_id seller_token)); [|done..].
    intros c st0. apply seller_update_stocks_run.
  - intros w campaign_id market_token chunks st Hacc He Hj.
    apply (dispatch_fails w
             (λ c, Market.update_price w c campaign_id market_token)
             (λ c, Market.OfferPrices c campaign_id market_token)); [|done..].
    intros c st0. apply market_update_price_run.
Qed.

Lemma dispatch_stops_at_first_refusal_witness :
  let w := World Seller.page (λ _, inl Py.HTTPError)
             (λ k, match k with 1%nat => Some Py.ReadTimeout | _ => None end)
             (inr []) (λ _, "") in
  let st : state Seller.event := State ∅ [] in
  let chunks := [[Seller.Stock "A" 1]; [Seller.Stock "B" 2]; [Seller.Stock "C" 3]] in
  for_each chunks tt (fun _ some_stock =>
    Seller.update_stocks w some_stock "id" "token") st
  = (Raise Py.ReadTimeout,
     State (heap st)
       (log st ++ ((λ c, Seller.ImportStocks c "id" "token") <$> take 2 chunks))).
Proof.
  intros w st chunks.
  destruct (dispatch_stops_at_first_refusal 1 Py.ReadTimeout) as [Hseller _].
  apply (Hseller w "id" "token" chunks st).
  - intros k Hk. assert (k = 0%nat) as -> by lia. reflexivity.
  - reflexivity.
  - simpl. lia.
Defined.

(** ** The outcome of the two orchestrators *)

Section Reports.
Context {E : Type} (Q : E → Prop).

Lemma emits_only_create_prices_with {entry} (mk : watch → M E entry) rows l :
  (∀ r, emits_only Q (mk r)) → emits_only Q (create_prices_with mk rows l).
Proof.
  intros Hmk. apply emits_only_for_each. intros acc x.
  apply emits_only_bind; [apply emits_only_list_contains|]. intros [].
  - apply emits_only_bind; [apply Hmk|]. intros p. apply emits_only_ret.
  - apply emits_only_ret.
Qed.

(** A [try] whose body logs only events of [Q] and whose handler logs
    one event outside [Q]: the event of the handler, if there is one,
    comes last, and the statement raises nothing. *)
Lemma try_except_report (body : M E unit) (handler : Py.exn → M E unit) :
  emits_only Q body →
  (∀ e st, ∃ ev, ¬ Q ev ∧ handler e st = (Ok tt, State (heap st) (log st ++ [ev]))) →
  ∀ st,
    (∀ e, fst (try_except body handler st) ≠ Raise e)
    ∧ ∃ evs,
        log (snd (try_except body handler st)) = log st ++ evs
        ∧ (Forall Q evs
           ∨ ∃ evs' ev, evs = evs' ++ [ev] ∧ ¬ Q ev ∧ Forall Q evs').
Proof.
  intros Hbody Hh st. unfold try_except.
  destruct (Hbody st) as (evs & Hlog & Hall).
  destruct (body st) as [[[]|e|f] st1]; simpl in Hlog.
  - split; [done|]. exists evs. split; [done|]. by left.
  - destruct (Hh e st1) as (ev & Hev & ->). simpl. split; [done|].
    exists (evs ++ [ev]). rewrite Hlog, app_assoc. split; [done|].
    right. by exists evs, ev.
  - split; [done|]. exists evs. split; [done|]. by left.
Qed.
End Reports.

Section SellerReports.
Variable w : world Seller.page.
Variable P : Seller.event → Prop.
Hypothesis P_request : ∀ ev, ¬ seller_report ev → P ev.

Lemma seller_get_offer_ids_emits fuel client_id seller_token :
  emits_only P (Seller.get_offer_ids w fuel client_id seller_token).
Proof.
  assert (Hloop : ∀ cursor acc,
            emits_only P
              (Seller.get_offer_ids_loop w fuel cursor acc client_id seller_token)).
  { induction fuel as [|fuel' IH]; intros cursor acc; simpl.
    - by apply emits_only_silent.
    - apply emits_only_bind.
      + apply emits_only_bind; [apply emits_only_clock|]. intros k.
        apply emits_only_bind; [apply emits_only_emit, P_request; by intros []|].
        intros _.
        destruct (page_reply w k); [apply emits_only_raise|apply emits_only_ret].
      + intros p. destruct (Seller.total p =? _); [apply emits_only_ret|apply IH]. }
  apply emits_only_bind; [apply Hloop|]. intros ps.
  apply emits_only_bind; [|intros ids; apply emits_only_new_list].
  apply emits_only_for_each. intros acc x. apply emits_only_ret.
Qed.

Lemma seller_update_stocks_emits stocks client_id seller_token :
  emits_only P (Seller.update_stocks w stocks client_id seller_token).
Proof.
  apply emits_only_bind; [apply emits_only_clock|]. intros k.
  apply emits_only_bind; [apply emits_only_emit, P_request; by intros []|].
  intros _. destruct (push_reply w k); [apply emits_only_raise|apply emits_only_ret].
Qed.

Lemma seller_update_price_emits prices client_id seller_token :
  emits_only P (Seller.update_price w prices client_id seller_token).
Proof.
  apply emits_only_bind; [apply emits_only_clock|]. intros k.
  apply emits_only_bind; [apply emits_only_emit, P_request; by intros []|].
  intros _. destruct (push_reply w k); [apply emits_only_raise|apply emits_only_ret].
Qed.

Lemma seller_download_stock_emits : emits_only P (Seller.download_stock w).
Proof.
  apply emits_only_bind; [apply emits_only_emit, P_request; by intros []|].
  intros _. destruct (feed w); [apply emits_only_raise|apply emits_only_ret].
Qed.

Lemma seller_create_stocks_emits rows l :
  emits_only P (Seller.create_stocks rows l).
Proof. apply emits_only_create_stocks_with. Qed.

Lemma seller_create_prices_emits rows l :
  emits_only P (Seller.create_prices rows l).
Proof. apply emits_only_create_prices_with. intros r. apply emits_only_ret. Qed.
End SellerReports.

Section MarketReports.
Variable w : world Market.page.
Variable P : Market.event → Prop.
Hypothesis P_request : ∀ ev, ¬ market_report ev → P ev.

Lemma market_get_offer_ids_requests fuel campaign_id market_token :
  emits_only P (Market.get_offer_ids w fuel campaign_id market_token).
Proof.
  assert (Hloop : ∀ page acc,
            emits_only P
              (Market.get_offer_ids_loop w fuel page acc campaign_id market_token)).
  { induction fuel as [|fuel' IH]; intros page acc; simpl.
    - by apply emits_only_silent.
    - apply emits_only_bind.
      + apply emits_only_bind; [apply emits_only_clock|]. intros k.
        apply emits_only_bind; [apply emits_only_emit, P_request; by intros []|].
        intros _.
        destruct (page_reply w k); [apply emits_only_raise|apply emits_only_ret].
      + intros p. destruct (Market.no_page _); [apply emits_only_ret|apply IH]. }
  apply emits_only_bind; [apply Hloop|]. intros ps.
  apply emits_only_bind; [|intros ids; apply emits_only_new_list].
  apply emits_only_for_each. intros acc x. apply emits_only_ret.
Qed.

Lemma market_update_stocks_requests stocks campaign_id market_token :
  emits_only P (Market.update_stocks w stocks campaign_id market_token).
Proof.
  apply emits_only_bind; [apply emits_only_clock|]. intros k.
  apply emits_only_bind; [apply emits_only_emit, P_request; by intros []|].
  intros _. destruct (push_reply w k); [apply emits_only_raise|apply emits_only_ret].
Qed.

Lemma market_create_stocks_requests rows l warehouse_id :
  emits_only P (Market.create_stocks w rows l warehouse_id).
Proof.
  apply emits_only_bind; [apply emits_only_clock|]. intros k.
  apply emits_only_create_stocks_with.
Qed.
End MarketReports.

Lemma market_download_stock_run (w : world Market.page) (st : state Market.event) :
  Market.download_stock w st
  = (match feed w with inl e => Raise e | inr rows => Ok rows end,
     State (heap st) (log st ++ [Market.DownloadStock])).
Proof. unfold Market.download_stock, bind, emit. simpl. by destruct (feed w). Qed.

Lemma seller_main_report (w : world Seller.page) fuel client_id seller_token st :
  (∀ e, fst (Seller.main w fuel client_id seller_token st) ≠ Raise e)
  ∧ ∃ evs,
      log (snd (Seller.main w fuel client_id seller_token st)) = log st ++ evs
      ∧ (Forall (λ ev, ¬ seller_report ev) evs
         ∨ ∃ evs' ev, evs = evs' ++ [ev] ∧ ¬ ¬ seller_report ev
                      ∧ Forall (λ ev, ¬ seller_report ev) evs').
Proof.
  unfold Seller.main.
  apply (try_except_report (λ ev, ¬ seller_report ev)).
  - repeat first
      [ apply seller_get_offer_ids_emits
      | apply seller_download_stock_emits
      | apply seller_create_stocks_emits
      | apply seller_create_prices_emits
      | apply seller_update_stocks_emits
      | apply seller_update_price_emits
      | apply emits_only_value_of
      | apply emits_only_for_each; intros ? ?
      | apply emits_only_bind; [|intros ?]
      | done ].
  - intros e st0. destruct e; eexists; (split; [|reflexivity]); simpl; tauto.
Qed.

Lemma market_try_report (w : world Market.page) fuel market_token
    campaign_fbs_id campaign_dbs_id warehouse_fbs_id warehouse_dbs_id rows st :
  let run :=
    try_except
      (let* offer_ids := Market.get_offer_ids w fuel campaign_fbs_id market_token in
       let* stocks := Market.create_stocks w rows offer_ids warehouse_fbs_id in
       let* chunks := value_of (divide stocks 2000) in
       for_each chunks tt (fun _ some_stock =>
         Market.update_stocks w some_stock campaign_fbs_id market_token);;
       expr_stmt (Market.upload_prices w fuel rows campaign_fbs_id market_token);;
       let* offer_ids := Market.get_offer_ids w fuel campaign_dbs_id market_token in
       let* stocks := Market.create_stocks w rows offer_ids warehouse_dbs_id in
       let* chunks := value_of (divide stocks 2000) in
       for_each chunks tt (fun _ some_stock =>
         Market.update_stocks w some_stock campaign_dbs_id market_token);;
       expr_stmt (Market.upload_prices w fuel rows campaign_dbs_id market_token))
      Market.handler st in
  (∀ e, fst run ≠ Raise e)
  ∧ ∃ evs,
      log (snd run) = log st ++ evs
      ∧ (Forall (λ ev, ¬ market_report ev) evs
         ∨ ∃ evs' ev, evs = evs' ++ [ev] ∧ ¬ ¬ market_report ev
                      ∧ Forall (λ ev, ¬ market_report ev) evs').
Proof.
  apply (try_except_report (λ ev, ¬ market_report ev)).
  - repeat first
      [ apply market_get_offer_ids_requests
      | apply market_create_stocks_requests
      | apply market_update_stocks_requests
      | apply emits_only_value_of
      | apply emits_only_expr_stmt
      | apply emits_only_for_each; intros ? ?
      | apply emits_only_bind; [|intros ?]
      | done ].
  - intros e st0. destruct e; eexists; (split; [|reflexivity]); simpl; tauto.
Qed.

(** X13. [main] of [seller.py] lets no exception out: whatever the
    marketplace and the dealer's site do, the run ends normally.
    [main] of [market.py] lets an exception out in one case only, when
    the download of the feed raises, since that call stands before the
    [try]; nothing has been sent to the marketplace then. *)
Theorem main_contains_exceptions :
  (∀ (w : world Seller.page) fuel client_id seller_token st e,
     fst (Seller.main w fuel client_id seller_token st) ≠ Raise e)
  ∧ (∀ (w : world Market.page) fuel market_token campaign_fbs_id campaign_dbs_id
       warehouse_fbs_id warehouse_dbs_id st e,
       (fst (Market.main w fuel market_token campaign_fbs_id campaign_dbs_id
               warehouse_fbs_id warehouse_dbs_id st) = Raise e
        ↔ feed w = inl e)
       ∧ (feed w = inl e →
          Market.main w fuel market_token campaign_fbs_id campaign_dbs_id
            warehouse_fbs_id warehouse_dbs_id st
          = (Raise e, State (heap st) (log st ++ [Market.DownloadStock])))).
Proof.
  split.
  - intros w fuel client_id seller_token st e.
    apply (seller_main_report w fuel client_id seller_token st).
  - intros w fuel market_token campaign_fbs_id campaign_dbs_id
      warehouse_fbs_id warehouse_dbs_id st e.
    destruct (feed w) as [e'|rows] eqn:Hfeed.
    + assert (Hrun : Market.main w fuel market_token campaign_fbs_id
                       campaign_dbs_id warehouse_fbs_id warehouse_dbs_id st
                     = (Raise e', State (heap st) (log st ++ [Market.DownloadStock]))).
      { unfold Market.main. unfold bind at 1.
        by rewrite market_download_stock_run, Hfeed. }
      rewrite Hrun. simpl. split; [split; congruence|]. by intros [= ->].
    + split; [|done]. split; [|done]. unfold Market.main. unfold bind at 1.
      rewrite market_download_stock_run, Hfeed.
      destruct (market_try_report w fuel market_token campaign_fbs_id
                  campaign_dbs_id warehouse_fbs_id warehouse_dbs_id rows
                  (State (heap st) (log st ++ [Market.DownloadStock])))
        as [Hno _].
      intros Hraise. by destruct (Hno e).
Qed.

(** X14. A run of either [main] reports at most one failure, and the
    report is the last thing the run does: once a step inside the [try]
    has raised, nothing more is sent.  In [market.py] one [try] spans
    both campaigns, so a failure in the FBS steps leaves all the DBS
    steps undone. *)
Theorem main_reports_once_and_stops :
  (∀ (w : world Seller.page) fuel client_id seller_token st,
     ∃ evs,
       log (snd (Seller.main w fuel client_id seller_token st)) = log st ++ evs
       ∧ (Forall (λ ev, ¬ seller_report ev) evs
          ∨ ∃ evs' error text,
              evs = evs' ++ [Seller.Print error text]
              ∧ Forall (λ ev, ¬ seller_report ev) evs'))
  ∧ (∀ (w : world Market.page) fuel market_token campaign_fbs_id campaign_dbs_id
       warehouse_fbs_id warehouse_dbs_id st,
       ∃ evs,
         log (snd (Market.main w fuel market_token campaign_fbs_id campaign_dbs_id
                     warehouse_fbs_id warehouse_dbs_id st))
         = log st ++ Market.DownloadStock :: evs
         ∧ (Forall (λ ev, ¬ market_report ev) evs
            ∨ ∃ evs' error text,
                evs = evs' ++ [Market.Print error text]
                ∧ Forall (λ ev, ¬ market_report ev) evs')).
Proof.
  split.
  - intros w fuel client_id seller_token st.
    destruct (seller_main_report w fuel client_id seller_token st)
      as (_ & evs & Hlog & Hevs).
    exists evs. split; [done|]. destruct Hevs as [Hall|(evs' & ev & -> & Hev & Hall)].
    + by left.
    + right. destruct ev as [| | | |error text]; try (exfalso; apply Hev; by intros []).
      by exists evs', error, text.
  - intros w fuel market_token campaign_fbs_id campaign_dbs_id
      warehouse_fbs_id warehouse_dbs_id st.
    unfold Market.main. unfold bind at 1. rewrite market_download_stock_run.
    destruct (feed w) as [e|rows].
    + exists []. simpl. split; [done|]. by left.
    + destruct (market_try_report w fuel market_token campaign_fbs_id
                  campaign_dbs_id warehouse_fbs_id warehouse_dbs_id rows
                  (State (heap st) (log st ++ [Market.DownloadStock])))
        as (_ & evs & Hlog & Hevs).
      exists evs. split; [by rewrite Hlog; simpl; rewrite <- app_assoc|].
      destruct Hevs as [Hall|(evs' & ev & -> & Hev & Hall)].
      * by left.
      * right. destruct ev as [| | | |error text];
          try (exfalso; apply Hev; by intros []).
        by exists evs', error, text.
Qed.

Lemma main_contains_exceptions_witness :
  let w := World Market.page (λ _, inr (Market.Page [] None)) (λ _, None)
             (inl Py.ConnectionError) (λ _, "") in
  let st : state Market.event := State ∅ [] in
  Market.main w 3 "token" "fbs" "dbs" "w1" "w2" st
  = (Raise Py.ConnectionError, State (heap st) (log st ++ [Market.DownloadStock])).
Proof.
  intros w st. destruct main_contains_exceptions as [_ Hmarket].
  destruct (Hmarket w 3%nat "token" "fbs" "dbs" "w1" "w2" st Py.ConnectionError)
    as [_ Hraise].
  apply Hraise. reflexivity.
Defined.

(** ** A run of [main] in [seller.py] without failures *)

Section SellerRun.
Variable w : world Seller.page.
Variables client_id seller_token : string.

Lemma seller_get_offer_ids_run (st : state Seller.event) ps last fuel :
  served w st (ps ++ [last]) →
  keeps_going [] ps →
  Seller.total last = Z.of_nat (length (products (ps ++ [last]))) →
  (length ps < fuel)%nat →
  Seller.get_offer_ids w fuel client_id seller_token st
  = (Ok (fresh (dom (heap st))),
     State (<[fresh (dom (heap st))
              := Seller.offer_id <$> products (ps ++ [last])]> (heap st))
           (log st ++ requests client_id seller_token "" ps)).
Proof.
  intros Hs Hgo Hlast Hfuel. unfold Seller.get_offer_ids. unfold bind at 1.
  rewrite (loop_stops w client_id seller_token ps [] "" st last fuel Hs Hgo Hlast Hfuel).
  simpl. unfold bind at 1. by rewrite projection_run.
Qed.

Lemma seller_create_stocks_total rows l ids (st : state Seller.event) :
  heap st !! l = Some ids →
  Forall (λ r, kod r ∈ ids → is_Some (stock_of_quantity (kolichestvo r))) rows →
  ∃ stocks,
    Seller.create_stocks rows l st
    = (Ok stocks, set_list l (remaining (kod <$> rows) ids) st)
    ∧ Seller.s_offer_id <$> stocks ≡ₚ ids.
Proof.
  intros Hl Hrows.
  pose proof (create_stocks_with_spec (E := Seller.event)
                (λ x q, Seller.Stock x q) Seller.s_offer_id
                ltac:(done) rows l ids st Hl) as Hspec.
  unfold Seller.create_stocks.
  destruct (create_stocks_with _ rows l st) as [[stocks|e|f] st'].
  - destruct Hspec as (Hperm & -> & _). by exists stocks.
  - destruct Hspec as (_ & r & Hr & Hin & Hq). exfalso.
    apply (proj1 (Forall_forall _ _) Hrows r Hr) in Hin as [q Hq'].
    congruence.
  - done.
Qed.

Lemma seller_stock_dispatch_run chunks (st : state Seller.event) :
  accepted w st (length chunks) →
  for_each chunks tt (fun _ some_stock =>
    Seller.update_stocks w some_stock client_id seller_token) st
  = (Ok tt,
     State (heap st)
       (log st ++ ((λ c, Seller.ImportStocks c client_id seller_token) <$> chunks))).
Proof.
  intros Hacc.
  apply (dispatch_all w (λ c, Seller.update_stocks w c client_id seller_token)
           (λ c, Seller.ImportStocks c client_id seller_token)); [|done].
  intros c st0. apply seller_update_stocks_run.
Qed.

Lemma seller_price_dispatch_run chunks (st : state Seller.event) :
  accepted w st (length chunks) →
  for_each chunks tt (fun _ some_price =>
    Seller.update_price w some_price client_id seller_token) st
  = (Ok tt,
     State (heap st)
       (log st ++ ((λ c, Seller.ImportPrices c client_id seller_token) <$> chunks))).
Proof.
  intros Hacc.
  apply (dispatch_all w (λ c, Seller.update_price w c client_id seller_token)
           (λ c, Seller.ImportPrices c client_id seller_token)); [|done].
  intros c st0. apply seller_update_price_run.
Qed.
End SellerRun.

(** X15. A run of [main] in [seller.py] in which nothing fails: the
    catalog is read to its end and holds no offer id twice, the feed is
    downloaded, every matched row has a readable quantity and every
    upload is accepted.  Then [main] ends normally after sending, in
    this order, the page requests, the download, and the stock entries
    in batches of at most 100 that together are one entry per offer id;
    it sends nothing else, and the list of offer ids is left with the
    ids that no feed row carries. *)
Theorem seller_main_uploads_every_offer (w : world Seller.page)
    (client_id seller_token : string) (st : state Seller.event)
    (ps : list Seller.page) (last : Seller.page) (fuel : nat) (rows : list watch) :
  let ids := Seller.offer_id <$> products (ps ++ [last]) in
  served w st (ps ++ [last]) →
  keeps_going [] ps →
  Seller.total last = Z.of_nat (length (products (ps ++ [last]))) →
  (length ps < fuel)%nat →
  NoDup ids →
  feed w = inr rows →
  Forall (λ r, kod r ∈ ids → is_Some (stock_of_quantity (kolichestvo r))) rows →
  (∀ j, push_reply w (length (log st) + length ps + 2 + j) = None) →
  ∃ stocks chunks,
    divide stocks 100 = Some chunks
    ∧ concat chunks = stocks
    ∧ Seller.s_offer_id <$> stocks ≡ₚ ids
    ∧ Seller.main w fuel client_id seller_token st
      = (Ok tt,
         State (<[fresh (dom (heap st)) := filter (λ x, x ∉ kod <$> rows) ids]>
                  (heap st))
               (log st
                ++ requests client_id seller_token "" ps
                ++ [Seller.DownloadStock]
                ++ ((λ c, Seller.ImportStocks c client_id seller_token) <$> chunks))).
Proof.
  intros ids Hs Hgo Hlast Hfuel Hnd Hfeed Hrows Hpush.
  set (r := fresh (dom (heap st))).
  pose proof (seller_get_offer_ids_run w client_id seller_token st ps last fuel
                Hs Hgo Hlast Hfuel) as Hcat.
  fold r ids in Hcat.
  set (st1 := State (<[r := ids]> (heap st))
                (log st ++ requests client_id seller_token "" ps)) in *.
  pose proof (download_stock_run w st1) as Hdl. rewrite Hfeed in Hdl.
  set (st2 := State (heap st1) (log st1 ++ [Seller.DownloadStock])) in *.
  assert (Hl2 : heap st2 !! r = Some ids) by apply lookup_insert_eq.
  destruct (seller_create_stocks_total rows r ids st2 Hl2 Hrows)
    as (stocks & Hstock & Hperm).
  set (st3 := set_list r (remaining (kod <$> rows) ids) st2) in *.
  set (chunks := chunks_upto (Z.to_nat 100) stocks
                   (Z.to_nat (chunk_count stocks 100))).
  assert (Hdiv : divide stocks 100 = Some chunks) by (by apply divide_chunks).
  assert (Hacc : accepted w st3 (length chunks)).
  { intros j _. simpl. rewrite !length_app. unfold requests.
    rewrite length_fmap. simpl. rewrite length_fmap.
    rewrite <- (Hpush j). f_equal. lia. }
  pose proof (seller_stock_dispatch_run w client_id seller_token chunks st3 Hacc)
    as Hsend.
  set (st4 := State (heap st3) (log st3 ++ _)) in *.
  assert (Hl4 : heap st4 !! r = Some (remaining (kod <$> rows) ids))
    by apply lookup_insert_eq.
  pose proof (price_step_after_stock rows r ids st4 Hnd Hl4) as Hprice.
  exists stocks, chunks. split_and!; [done| |done|].
  - subst chunks. rewrite concat_chunks_upto. apply take_ge.
    destruct (chunk_count_pos stocks 100 ltac:(lia)) as (Hm0 & Hcover & _). nia.
  - unfold Seller.main, try_except.
    rewrite (bind_ok _ _ _ _ _ Hcat), (bind_ok _ _ _ _ _ Hdl).
    rewrite (bind_ok _ _ _ _ _ Hstock). rewrite Hdiv.
    simpl value_of. unfold bind at 1, ret at 1.
    rewrite (bind_ok _ _ _ _ _ Hsend), (bind_ok _ _ _ _ _ Hprice).
    simpl. f_equal. subst st4 st3 st2 st1. unfold set_list. simpl.
    rewrite insert_insert_eq, remaining_filter by done.
    by rewrite <- !app_assoc.
Qed.

Lemma seller_main_uploads_every_offer_witness :
  let page := Seller.Page [Seller.Product "A"; Seller.Product "B";
                           Seller.Product "C"] 3 "C" in
  let rows := [Watch "A" "5" "100.00"; Watch "B" ">10" "200.50"] in
  let w := World Seller.page (λ _, inr page) (λ _, None) (inr rows) (λ _, "") in
  let st : state Seller.event := State ∅ [] in
  let ids := Seller.offer_id <$> products ([] ++ [page]) in
  ∃ stocks chunks,
    divide stocks 100 = Some chunks
    ∧ concat chunks = stocks
    ∧ Seller.s_offer_id <$> stocks ≡ₚ ids
    ∧ Seller.main w 2 "id" "token" st
      = (Ok tt,
         State (<[fresh (dom (heap st)) := filter (λ x, x ∉ kod <$> rows) ids]>
                  (heap st))
               (log st
                ++ requests "id" "token" "" []
                ++ [Seller.DownloadStock]
                ++ ((λ c, Seller.ImportStocks c "id" "token") <$> chunks))).
Proof.
  intros page rows w st ids.
  apply (seller_main_uploads_every_offer w "id" "token" st [] page 2 rows).
  - intros j p Hj. destruct j as [|j]; [|done]. by injection Hj as <-.
  - exact I.
  - reflexivity.
  - simpl. lia.
  - apply (bool_decide_unpack _). by vm_compute.
  - reflexivity.
  - repeat constructor; intros _; by eexists.
  - intros j. reflexivity.
Defined.

(** ** The coroutines, when they are awaited *)

Lemma divide_concat {A} (items : list A) (n : Z) :
  0 < n →
  ∃ chunks, divide items n = Some chunks ∧ concat chunks = items.
Proof.
  intros Hn. eexists. split; [by apply divide_chunks|].
  rewrite concat_chunks_upto. apply take_ge.
  destruct (chunk_count_pos items n Hn) as (Hm0 & Hcover & _). nia.
Qed.

Lemma market_get_offer_ids_run (wm : world Market.page) campaign_id market_token
    (st : state Market.event) ps last fuel :
  answered wm st (ps ++ [last]) →
  more_pages ps →
  Market.no_page (Market.nextPageToken last) = true →
  (length ps < fuel)%nat →
  Market.get_offer_ids wm fuel campaign_id market_token st
  = (Ok (fresh (dom (heap st))),
     State (<[fresh (dom (heap st))
              := (λ product, Market.shopSku (Market.entry_offer product))
                   <$> listed (ps ++ [last])]> (heap st))
           (log st ++ page_requests campaign_id market_token "" ps)).
Proof.
  intros Hs Hgo Hlast Hfuel. unfold Market.get_offer_ids. unfold bind at 1.
  rewrite (market_loop_stops wm campaign_id market_token ps [] "" st last fuel
             Hs Hgo Hlast Hfuel).
  simpl. unfold bind at 1. by rewrite market_projection_run.
Qed.

Lemma market_price_dispatch_run (wm : world Market.page) campaign_id market_token
    chunks (st : state Market.event) :
  accepted wm st (length chunks) →
  for_each chunks tt (fun _ some_prices =>
    Market.update_price wm some_prices campaign_id market_token) st
  = (Ok tt,
     State (heap st)
       (log st ++ ((λ c, Market.OfferPrices c campaign_id market_token) <$> chunks))).
Proof.
  intros Hacc.
  apply (dispatch_all wm (λ c, Market.update_price wm c campaign_id market_token)
           (λ c, Market.OfferPrices c campaign_id market_token)); [|done].
  intros c st0. apply market_update_price_run.
Qed.

(** X16. [upload_prices] of [seller.py], when it is awaited, reads the
    catalog into a list of its own and sends a price for every feed row
    whose code is an offer id, in feed order and in batches of at most
    1000; it returns these prices.  The offer ids are not consumed. *)
Theorem seller_upload_prices_awaited (w : world Seller.page)
    (client_id seller_token : string) (st : state Seller.event)
    (ps : list Seller.page) (last : Seller.page) (fuel : nat) (rows : list watch) :
  let ids := Seller.offer_id <$> products (ps ++ [last]) in
  let prices := seller_price <$> matching ids rows in
  served w st (ps ++ [last]) →
  keeps_going [] ps →
  Seller.total last = Z.of_nat (length (products (ps ++ [last]))) →
  (length ps < fuel)%nat →
  (∀ j, push_reply w (length (log st) + length ps + 1 + j) = None) →
  ∃ chunks,
    divide prices 1000 = Some chunks
    ∧ concat chunks = prices
    ∧ await (Seller.upload_prices w fuel rows client_id seller_token) st
      = (Ok prices,
         State (<[fresh (dom (heap st)) := ids]> (heap st))
               (log st
                ++ requests client_id seller_token "" ps
                ++ ((λ c, Seller.ImportPrices c client_id seller_token) <$> chunks))).
Proof.
  intros ids prices Hs Hgo Hlast Hfuel Hpush.
  set (r := fresh (dom (heap st))).
  pose proof (seller_get_offer_ids_run w client_id seller_token st ps last fuel
                Hs Hgo Hlast Hfuel) as Hcat.
  fold r ids in Hcat.
  set (st1 := State (<[r := ids]> (heap st))
                (log st ++ requests client_id seller_token "" ps)) in *.
  assert (Hl1 : heap st1 !! r = Some ids) by apply lookup_insert_eq.
  pose proof (seller_create_prices_run rows r ids st1 Hl1) as Hprice.
  fold prices in Hprice.
  destruct (divide_concat prices 1000 ltac:(lia)) as (chunks & Hdiv & Hcat').
  assert (Hacc : accepted w st1 (length chunks)).
  { intros j _. simpl. rewrite !length_app. unfold requests.
    rewrite length_fmap. simpl. rewrite length_fmap.
    rewrite <- (Hpush j). f_equal. lia. }
  pose proof (seller_price_dispatch_run w client_id seller_token chunks st1 Hacc)
    as Hsend.
  exists chunks. split_and!; [done..|].
  unfold await, Seller.upload_prices.
  rewrite (bind_ok _ _ _ _ _ Hcat), (bind_ok _ _ _ _ _ Hprice). rewrite Hdiv.
  simpl value_of. unfold bind at 1, ret at 1.
  rewrite (bind_ok _ _ _ _ _ Hsend). unfold ret. subst st1. simpl.
  by rewrite <- !app_assoc.
Qed.

Lemma seller_upload_prices_awaited_witness :
  let page := Seller.Page [Seller.Product "A"; Seller.Product "B"] 2 "B" in
  let rows := [Watch "A" "5" "100.00"; Watch "A" "7" "150.00"; Watch "Z" "1" "9"] in
  let w := World Seller.page (λ _, inr page) (λ _, None) (inr rows) (λ _, "") in
  let st : state Seller.event := State ∅ [] in
  let ids := Seller.offer_id <$> products ([] ++ [page]) in
  let prices := seller_price <$> matching ids rows in
  ∃ chunks,
    divide prices 1000 = Some chunks
    ∧ concat chunks = prices
    ∧ await (Seller.upload_prices w 2 rows "id" "token") st
      = (Ok prices,
         State (<[fresh (dom (heap st)) := ids]> (heap st))
               (log st
                ++ requests "id" "token" "" []
                ++ ((λ c, Seller.ImportPrices c "id" "token") <$> chunks))).
Proof.
  intros page rows w st ids prices.
  apply (seller_upload_prices_awaited w "id" "token" st [] page 2 rows).
  - intros j p Hj. destruct j as [|j]; [|done]. by injection Hj as <-.
  - exact I.
  - reflexivity.
  - simpl. lia.
  - intros j. reflexivity.
Defined.

(** X17. [upload_prices] of [market.py], when it is awaited, checks every
    price before it sends any.  If each feed row whose code is an offer
    id keeps a digit of its price, the prices are sent in batches of at
    most 500 after the page requests and returned.  If one such row
    keeps none, the coroutine raises [ValueError] right after the page
    requests, and not a single price has been sent. *)
Theorem market_upload_prices_awaited (wm : world Market.page)
    (campaign_id market_token : string) (st : state Market.event)
    (ps : list Market.page) (last : Market.page) (fuel : nat) (rows : list watch) :
  let ids := (λ product, Market.shopSku (Market.entry_offer product))
               <$> listed (ps ++ [last]) in
  let prices := market_price_entry <$> matching ids rows in
  let st1 := State (<[fresh (dom (heap st)) := ids]> (heap st))
               (log st ++ page_requests campaign_id market_token "" ps) in
  answered wm st (ps ++ [last]) →
  more_pages ps →
  Market.no_page (Market.nextPageToken last) = true →
  (length ps < fuel)%nat →
  (Forall (λ r, price_conversion (tsena r) ≠ "") (matching ids rows) →
   (∀ j, push_reply wm (length (log st) + length ps + 1 + j) = None) →
   ∃ chunks,
     divide prices 500 = Some chunks
     ∧ concat chunks = prices
     ∧ await (Market.upload_prices wm fuel rows campaign_id market_token) st
       = (Ok prices,
          State (heap st1)
            (log st1 ++ ((λ c, Market.OfferPrices c campaign_id market_token)
                           <$> chunks))))
  ∧ (¬ Forall (λ r, price_conversion (tsena r) ≠ "") (matching ids rows) →
     await (Market.upload_prices wm fuel rows campaign_id market_token) st
     = (Raise Py.ValueError, st1)).
Proof.
  intros ids prices st1 Hs Hgo Hlast Hfuel.
  pose proof (market_get_offer_ids_run wm campaign_id market_token st ps last fuel
                Hs Hgo Hlast Hfuel) as Hcat.
  fold ids in Hcat. fold st1 in Hcat.
  assert (Hl1 : heap st1 !! fresh (dom (heap st)) = Some ids)
    by apply lookup_insert_eq.
  pose proof (market_create_prices_cases rows _ ids st1 Hl1) as Hprice.
  split.
  - intros Hall Hpush. rewrite decide_True in Hprice by done. fold prices in Hprice.
    destruct (divide_concat prices 500 ltac:(lia)) as (chunks & Hdiv & Hcat').
    assert (Hacc : accepted wm st1 (length chunks)).
    { intros j _. simpl. rewrite !length_app. unfold page_requests.
      rewrite length_fmap. simpl. rewrite length_fmap.
      rewrite <- (Hpush j). f_equal. lia. }
    pose proof (market_price_dispatch_run wm campaign_id market_token chunks st1 Hacc)
      as Hsend.
    exists chunks. split_and!; [done..|].
    unfold await, Market.upload_prices.
    rewrite (bind_ok _ _ _ _ _ Hcat), (bind_ok _ _ _ _ _ Hprice). rewrite Hdiv.
    simpl value_of. unfold bind at 1, ret at 1.
    by rewrite (bind_ok _ _ _ _ _ Hsend).
  - intros Hbad. rewrite decide_False in Hprice by done.
    unfold await, Market.upload_prices.
    by rewrite (bind_ok _ _ _ _ _ Hcat), (bind_raise _ _ _ _ _ Hprice).
Qed.

Lemma market_upload_prices_awaited_witness :
  let page := Market.Page [Market.Entry (Market.Offer "A");
                           Market.Entry (Market.Offer "B")] None in
  let rows := [Watch "A" "5" "100.00"; Watch "B" "7" "по запросу"] in
  let wm := World Market.page (λ _, inr page) (λ _, None) (inr rows) (λ _, "") in
  let st : state Market.event := State ∅ [] in
  let ids := (λ product, Market.shopSku (Market.entry_offer product))
               <$> listed ([] ++ [page]) in
  await (Market.upload_prices wm 2 rows "fbs" "token") st
  = (Raise Py.ValueError,
     State (<[fresh (dom (heap st)) := ids]> (heap st))
           (log st ++ page_requests "fbs" "token" "" [])).
Proof.
  intros page rows wm st ids.
  destruct (market_upload_prices_awaited wm "fbs" "token" st [] page 2 rows)
    as [_ Hbad].
  - intros j p Hj. destruct j as [|j]; [|done]. by injection Hj as <-.
  - by apply Forall_nil.
  - reflexivity.
  - simpl. lia.
  - apply Hbad. intros Hall.
    assert (Hrows : matching ((λ product, Market.shopSku (Market.entry_offer product))
                                <$> listed ([] ++ [page])) rows = rows)
      by (by vm_compute).
    rewrite Hrows in Hall.
    apply Forall_cons in Hall as [_ Hall]. apply Forall_cons in Hall as [Hb _].
    by apply Hb.
Defined.

(** X18. A feed row whose code is an offer id and whose quantity [int]
    cannot read stops a run of [main] in [seller.py] before any upload:
    after the page requests and the download the run only reports the
    [ValueError] under ["ERROR_2"] and ends normally.  The offer ids
    matched by the rows before that one are gone from the list. *)
Theorem seller_main_unreadable_quantity (w : world Seller.page)
    (client_id seller_token : string) (st : state Seller.event)
    (ps : list Seller.page) (last : Seller.page) (fuel : nat)
    (pre post : list watch) (bad : watch) :
  let ids := Seller.offer_id <$> products (ps ++ [last]) in
  served w st (ps ++ [last]) →
  keeps_going [] ps →
  Seller.total last = Z.of_nat (length (products (ps ++ [last]))) →
  (length ps < fuel)%nat →
  feed w = inr (pre ++ bad :: post) →
  Forall (λ r, is_Some (stock_of_quantity (kolichestvo r))) pre →
  kod bad ∈ remaining (kod <$> pre) ids →
  stock_of_quantity (kolichestvo bad) = None →
  Seller.main w fuel client_id seller_token st
  = (Ok tt,
     State (<[fresh (dom (heap st)) := remaining (kod <$> pre) ids]> (heap st))
           (log st
            ++ requests client_id seller_token "" ps
            ++ [Seller.DownloadStock;
                Seller.Print (Some Py.ValueError) "ERROR_2"])).
Proof.
  intros ids Hs Hgo Hlast Hfuel Hfeed Hpre Hin Hbad.
  set (r := fresh (dom (heap st))).
  pose proof (seller_get_offer_ids_run w client_id seller_token st ps last fuel
                Hs Hgo Hlast Hfuel) as Hcat.
  fold r ids in Hcat.
  set (st1 := State (<[r := ids]> (heap st))
                (log st ++ requests client_id seller_token "" ps)) in *.
  pose proof (download_stock_run w st1) as Hdl. rewrite Hfeed in Hdl.
  set (st2 := State (heap st1) (log st1 ++ [Seller.DownloadStock])) in *.
  assert (Hl2 : heap st2 !! r = Some ids) by apply lookup_insert_eq.
  destruct (create_stocks_with_more (E := Seller.event)
              (λ x q, Seller.Stock x q) Seller.s_offer_id ltac:(done)
              (pre ++ bad :: post) r ids st2 Hl2) as [_ Hraise].
  specialize (Hraise pre bad post eq_refl Hpre Hin Hbad).
  unfold Seller.main, try_except.
  rewrite (bind_ok _ _ _ _ _ Hcat), (bind_ok _ _ _ _ _ Hdl).
  unfold Seller.create_stocks. rewrite (bind_raise _ _ _ _ _ Hraise).
  unfold emit, set_list. simpl. rewrite insert_insert_eq.
  by rewrite <- !app_assoc.
Qed.

Lemma seller_main_unreadable_quantity_witness :
  let page := Seller.Page [Seller.Product "A"; Seller.Product "B"] 2 "B" in
  let rows := [Watch "A" "5" "100.00"] ++ Watch "B" "много" "200.50" :: [] in
  let w := World Seller.page (λ _, inr page) (λ _, None) (inr rows) (λ _, "") in
  let st : state Seller.event := State ∅ [] in
  let ids := Seller.offer_id <$> products ([] ++ [page]) in
  Seller.main w 2 "id" "token" st
  = (Ok tt,
     State (<[fresh (dom (heap st))
              := remaining (kod <$> [Watch "A" "5" "100.00"]) ids]> (heap st))
           (log st
            ++ requests "id" "token" "" []
            ++ [Seller.DownloadStock;
                Seller.Print (Some Py.ValueError) "ERROR_2"])).
Proof.
  intros page rows w st ids.
  apply (seller_main_unreadable_quantity w "id" "token" st [] page 2
           [Watch "A" "5" "100.00"] [] (Watch "B" "много" "200.50")).
  - intros j p Hj. destruct j as [|j]; [|done]. by injection Hj as <-.
  - exact I.
  - reflexivity.
  - simpl. lia.
  - reflexivity.
  - apply Forall_singleton. by eexists.
  - apply (bool_decide_unpack _). by vm_compute.
  - reflexivity.
Defined.

(** ** The entries that [upload_stocks] reports as not empty *)

Section StockOrigins.
Context {E entry : Type} (mk : string → Z → entry).

Lemma stock_pass_origin rows : ∀ ids acc stocks ids',
  stock_pass mk rows ids acc = (Ok stocks, ids') →
  ∃ matched,
    stocks = acc ++ matched
    ∧ Forall (λ e, ∃ r q, r ∈ rows ∧ e = mk (kod r) q) matched.
Proof.
  induction rows as [|r rest IH]; intros ids acc stocks ids' H; simpl in H.
  - injection H as <- _. exists []. by rewrite app_nil_r.
  - destruct (Py.contains (kod r) ids).
    + destruct (stock_of_quantity (kolichestvo r)) as [q|]; [|done].
      apply IH in H as (matched & -> & Hall).
      exists (mk (kod r) q :: matched). rewrite <- app_assoc. split; [done|].
      apply Forall_cons. split.
      * exists r, q. split; [by apply elem_of_cons; left|done].
      * eapply Forall_impl; [done|]. intros e (r' & q' & Hr' & ->).
        exists r', q'. split; [by apply elem_of_cons; right|done].
    + apply IH in H as (matched & -> & Hall). exists matched. split; [done|].
      eapply Forall_impl; [done|]. intros e (r' & q' & Hr' & ->).
      exists r', q'. split; [by apply elem_of_cons; right|done].
Qed.

(** The entries of a call that returns: those built from feed rows, then
    those with stock zero. *)
Lemma create_stocks_with_origin rows l ids (st st' : state E) stocks :
  heap st !! l = Some ids →
  create_stocks_with mk rows l st = (Ok stocks, st') →
  log st' = log st
  ∧ ∃ matched left,
      stocks = matched ++ ((λ x, mk x 0) <$> left)
      ∧ Forall (λ e, ∃ r q, r ∈ rows ∧ e = mk (kod r) q) matched.
Proof.
  intros Hl. rewrite (create_stocks_with_run mk rows l ids st Hl).
  destruct (stock_pass mk rows ids []) as [[matched|e|f] ids'] eqn:Hpass;
    simpl; [|done..].
  intros [= <- <-]. split; [done|].
  apply stock_pass_origin in Hpass as (matched' & -> & Hall).
  by exists matched', ids'.
Qed.
End StockOrigins.

Section DispatchInverse.
Context {page E A : Type} (w : world page).
Context (upload : A → M E unit) (request : A → E).
Hypothesis upload_run : ∀ c st,
  upload c st
  = (match push_reply w (length (log st)) with
     | Some e => Raise e
     | None => Ok tt
     end,
     State (heap st) (log st ++ [request c])).

(** A loop of uploads that ends normally has sent every batch. *)
Lemma dispatch_ok_inv chunks : ∀ st st',
  for_each chunks tt (fun _ c => upload c) st = (Ok tt, st') →
  st' = State (heap st) (log st ++ (request <$> chunks)).
Proof.
  induction chunks as [|c r IH]; intros st st'; simpl.
  - intros [= <-]. destruct st. simpl. by rewrite app_nil_r.
  - unfold bind at 1. rewrite upload_run.
    destruct (push_reply w (length (log st))); [done|].
    intros H%IH. rewrite H. simpl. by rewrite <- app_assoc.
Qed.
End DispatchInverse.

Lemma seller_catalog_requests (w : world Seller.page) client_id seller_token fuel :
  emits_only (λ ev, ∃ cursor, ev = Seller.ProductList cursor client_id seller_token)
    (Seller.get_offer_ids w fuel client_id seller_token).
Proof.
  assert (Hloop : ∀ cursor acc,
            emits_only
              (λ ev, ∃ cursor, ev = Seller.ProductList cursor client_id seller_token)
              (Seller.get_offer_ids_loop w fuel cursor acc client_id seller_token)).
  { induction fuel as [|fuel' IH]; intros cursor acc; simpl.
    - by apply emits_only_silent.
    - apply emits_only_bind.
      + apply emits_only_bind; [apply emits_only_clock|]. intros k.
        apply emits_only_bind; [apply emits_only_emit; by eexists|]. intros _.
        destruct (page_reply w k); [apply emits_only_raise|apply emits_only_ret].
      + intros p. destruct (Seller.total p =? _); [apply emits_only_ret|apply IH]. }
  apply emits_only_bind; [apply Hloop|]. intros ps.
  apply emits_only_bind; [|intros ids; apply emits_only_new_list].
  apply emits_only_for_each. intros acc x. apply emits_only_ret.
Qed.

(** X19. When the awaited [upload_stocks] of [seller.py] returns, the
    stock entries it has sent, after its page requests, are the batches
    of the whole list [stocks], zero entries included; the list
    [not_empty] it returns beside [stocks] played no part in that.
    Every entry of [not_empty] has a stock other than zero and belongs
    to an offer whose code a feed row carries, and every entry of
    [stocks] with a stock other than zero is in [not_empty]. *)
Theorem seller_upload_stocks_returns (w : world Seller.page)
    (client_id seller_token : string) (fuel : nat) (rows : list watch)
    (st st' : state Seller.event) (not_empty stocks : list Seller.stock_entry) :
  await (Seller.upload_stocks w fuel rows client_id seller_token) st
  = (Ok (not_empty, stocks), st') →
  (∀ e, e ∈ not_empty ↔ e ∈ stocks ∧ Seller.s_stock e ≠ 0)
  ∧ Forall (λ e, Seller.s_offer_id e ∈ kod <$> rows) not_empty
  ∧ ∃ evs chunks,
      divide stocks 100 = Some chunks
      ∧ concat chunks = stocks
      ∧ Forall (λ ev, ∃ cursor, ev = Seller.ProductList cursor client_id seller_token)
               evs
      ∧ log st'
        = log st ++ evs
          ++ ((λ c, Seller.ImportStocks c client_id seller_token) <$> chunks).
Proof.
  unfold await, Seller.upload_stocks. intros Hrun.
  destruct (seller_catalog_requests w client_id seller_token fuel st)
    as (evs & Hlog1 & Hevs).
  destruct (Seller.get_offer_ids w fuel client_id seller_token st)
    as [[l|e|f] st1] eqn:Hcat;
    [rewrite (bind_ok _ _ _ _ _ Hcat) in Hrun
    |by rewrite (bind_raise _ _ _ _ _ Hcat) in Hrun
    |by rewrite (bind_fault _ _ _ _ _ Hcat) in Hrun].
  simpl in Hlog1.
  destruct (get_offer_ids_ok w client_id seller_token fuel st l st1 Hcat) as [ids Hl1].
  destruct (Seller.create_stocks rows l st1) as [[all|e|f] st2] eqn:Hstock;
    [rewrite (bind_ok _ _ _ _ _ Hstock) in Hrun
    |by rewrite (bind_raise _ _ _ _ _ Hstock) in Hrun
    |by rewrite (bind_fault _ _ _ _ _ Hstock) in Hrun].
  destruct (create_stocks_with_origin (λ x q, Seller.Stock x q) rows l ids st1 st2
              all Hl1 Hstock) as (Hlog2 & matched & left & Hall & Hmatched).
  destruct (divide_concat all 100 ltac:(lia)) as (chunks & Hdiv & Hconcat).
  rewrite Hdiv in Hrun. simpl value_of in Hrun. unfold bind at 1, ret at 1 in Hrun.
  destruct (for_each chunks tt
              (fun _ some_stock =>
                 Seller.update_stocks w some_stock client_id seller_token) st2)
    as [[[]|e|f] st3] eqn:Hsend;
    [rewrite (bind_ok _ _ _ _ _ Hsend) in Hrun
    |by rewrite (bind_raise _ _ _ _ _ Hsend) in Hrun
    |by rewrite (bind_fault _ _ _ _ _ Hsend) in Hrun].
  apply (dispatch_ok_inv w (λ c, Seller.update_stocks w c client_id seller_token)
           (λ c, Seller.ImportStocks c client_id seller_token)) in Hsend;
    [|intros c st0; apply seller_update_stocks_run].
  unfold ret in Hrun. injection Hrun as <- <- <-.
  assert (Hmem : ∀ e, e ∈ List.filter (λ stock, negb (Seller.s_stock stock =? 0)) all
                      ↔ e ∈ all ∧ Seller.s_stock e ≠ 0).
  { intros e. rewrite !list_elem_of_In, filter_In, negb_true_iff, Z.eqb_neq. done. }
  split_and!.
  - exact Hmem.
  - apply Forall_forall. intros e [He Hne]%Hmem. rewrite Hall in He.
    apply elem_of_app in He as [He|He].
    + apply (proj1 (Forall_forall _ _) Hmatched) in He as (r & q & Hr & ->).
      simpl. by apply list_elem_of_fmap_2.
    + apply list_elem_of_fmap in He as (x & -> & _). by simpl in Hne.
  - exists evs, chunks. split_and!; [done..|].
    rewrite Hsend. simpl. rewrite Hlog2, Hlog1. by rewrite <- app_assoc.
Qed.

Lemma seller_upload_stocks_returns_witness :
  let page := Seller.Page [Seller.Product "A"; Seller.Product "B"] 2 "B" in
  let rows := [Watch "A" "5" "100.00"; Watch "Z" "3" "1.00"] in
  let w := World Seller.page (λ _, inr page) (λ _, None) (inr rows) (λ _, "") in
  let st : state Seller.event := State ∅ [] in
  let st' := snd (await (Seller.upload_stocks w 2 rows "id" "token") st) in
  let not_empty := [Seller.Stock "A" 5] in
  let stocks := [Seller.Stock "A" 5; Seller.Stock "B" 0] in
  (∀ e, e ∈ not_empty ↔ e ∈ stocks ∧ Seller.s_stock e ≠ 0)
  ∧ Forall (λ e, Seller.s_offer_id e ∈ kod <$> rows) not_empty
  ∧ ∃ evs chunks,
      divide stocks 100 = Some chunks
      ∧ concat chunks = stocks
      ∧ Forall (λ ev, ∃ cursor, ev = Seller.ProductList cursor "id" "token") evs
      ∧ log st'
        = log st ++ evs ++ ((λ c, Seller.ImportStocks c "id" "token") <$> chunks).
Proof.
  intros page rows w st st' not_empty stocks.
  apply (seller_upload_stocks_returns w "id" "token" 2 rows st st' not_empty stocks).
  by vm_compute.
Defined.

(** ** A run of [main] in [market.py] without failures *)

Section MarketRun.
Variable wm : world Market.page.

Lemma market_create_stocks_total rows l ids warehouse_id (st : state Market.event) :
  heap st !! l = Some ids →
  Forall (λ r, kod r ∈ ids → is_Some (stock_of_quantity (kolichestvo r))) rows →
  ∃ stocks,
    Market.create_stocks wm rows l warehouse_id st
    = (Ok stocks, set_list l (remaining (kod <$> rows) ids) st)
    ∧ Market.sku <$> stocks ≡ₚ ids.
Proof.
  intros Hl Hrows. rewrite market_create_stocks_unfold.
  pose proof (create_stocks_with_spec (E := Market.event)
                (market_stock wm warehouse_id (length (log st))) Market.sku
                ltac:(done) rows l ids st Hl) as Hspec.
  destruct (create_stocks_with _ rows l st) as [[stocks|e|f] st'].
  - destruct Hspec as (Hperm & -> & _). by exists stocks.
  - destruct Hspec as (_ & r & Hr & Hin & Hq). exfalso.
    apply (proj1 (Forall_forall _ _) Hrows r Hr) in Hin as [q Hq'].
    congruence.
  - done.
Qed.

Lemma market_stock_dispatch_run campaign_id market_token chunks
    (st : state Market.event) :
  accepted wm st (length chunks) →
  for_each chunks tt (fun _ some_stock =>
    Market.update_stocks wm some_stock campaign_id market_token) st
  = (Ok tt,
     State (heap st)
       (log st ++ ((λ c, Market.OfferStocks c campaign_id market_token) <$> chunks))).
Proof.
  intros Hacc.
  apply (dispatch_all wm (λ c, Market.update_stocks wm c campaign_id market_token)
           (λ c, Market.OfferStocks c campaign_id market_token)); [|done].
  intros c st0. apply market_update_stocks_run.
Qed.

(** One campaign of [main]: the catalog, the stock entries and their
    dispatch, followed by the rest [k] of the body. *)
Lemma market_campaign_run campaign_id market_token warehouse_id fuel rows
    (st : state Market.event) ps last {B} (k : unit → M Market.event B) :
  let ids := (λ product, Market.shopSku (Market.entry_offer product))
               <$> listed (ps ++ [last]) in
  answered wm st (ps ++ [last]) →
  more_pages ps →
  Market.no_page (Market.nextPageToken last) = true →
  (length ps < fuel)%nat →
  Forall (λ r, kod r ∈ ids → is_Some (stock_of_quantity (kolichestvo r))) rows →
  (∀ j, push_reply wm j = None) →
  ∃ stocks chunks,
    divide stocks 2000 = Some chunks
    ∧ concat chunks = stocks
    ∧ Market.sku <$> stocks ≡ₚ ids
    ∧ length chunks = Z.to_nat (chunk_count ids 2000)
    ∧ (let* offer_ids := Market.get_offer_ids wm fuel campaign_id market_token in
       let* stocks := Market.create_stocks wm rows offer_ids warehouse_id in
       let* chunks := value_of (divide stocks 2000) in
       for_each chunks tt (fun _ some_stock =>
         Market.update_stocks wm some_stock campaign_id market_token);;
       k tt) st
      = k tt (State (<[fresh (dom (heap st)) := remaining (kod <$> rows) ids]> (heap st))
                (log st
                 ++ page_requests campaign_id market_token "" ps
                 ++ ((λ c, Market.OfferStocks c campaign_id market_token) <$> chunks))).
Proof.
  intros ids Hs Hgo Hlast Hfuel Hrows Hpush.
  set (r := fresh (dom (heap st))).
  pose proof (market_get_offer_ids_run wm campaign_id market_token st ps last fuel
                Hs Hgo Hlast Hfuel) as Hcat.
  fold r ids in Hcat.
  set (st1 := State (<[r := ids]> (heap st))
                (log st ++ page_requests campaign_id market_token "" ps)) in *.
  assert (Hl1 : heap st1 !! r = Some ids) by apply lookup_insert_eq.
  destruct (market_create_stocks_total rows r ids warehouse_id st1 Hl1 Hrows)
    as (stocks & Hstock & Hperm).
  set (st2 := set_list r (remaining (kod <$> rows) ids) st1) in *.
  set (chunks := chunks_upto (Z.to_nat 2000) stocks
                   (Z.to_nat (chunk_count stocks 2000))).
  assert (Hdiv : divide stocks 2000 = Some chunks) by (by apply divide_chunks).
  assert (Hacc : accepted wm st2 (length chunks)) by (intros j _; apply Hpush).
  pose proof (market_stock_dispatch_run campaign_id market_token chunks st2 Hacc)
    as Hsend.
  exists stocks, chunks. split_and!; [done| |done| |].
  - subst chunks. rewrite concat_chunks_upto. apply take_ge.
    destruct (chunk_count_pos stocks 2000 ltac:(lia)) as (Hm0 & Hcover & _). nia.
  - subst chunks. unfold chunks_upto. rewrite length_map, length_seq.
    unfold chunk_count. apply Permutation_length in Hperm.
    rewrite length_fmap in Hperm. by rewrite Hperm.
  - rewrite (bind_ok _ _ _ _ _ Hcat), (bind_ok _ _ _ _ _ Hstock). rewrite Hdiv.
    simpl value_of. unfold bind at 1, ret at 1.
    rewrite (bind_ok _ _ _ _ _ Hsend).
    f_equal. subst st2 st1. unfold set_list. simpl.
    rewrite insert_insert_eq. by rewrite <- !app_assoc.
Qed.
End MarketRun.

(** X20. A run of [main] in [market.py] in which nothing fails: the feed
    is read once; for the FBS campaign and then for the DBS campaign the
    catalog is fetched afresh, every offer of it gets one stock entry
    and the entries are sent in batches; no price is sent, and each
    campaign leaves its own list of the offers the feed does not
    cover. *)
Theorem market_main_uploads_both_campaigns (w : world Market.page) fuel
    market_token campaign_fbs_id campaign_dbs_id warehouse_fbs_id warehouse_dbs_id
    rows (st : state Market.event) ps1 last1 ps2 last2 :
  let ids1 := (λ product, Market.shopSku (Market.entry_offer product))
                <$> listed (ps1 ++ [last1]) in
  let ids2 := (λ product, Market.shopSku (Market.entry_offer product))
                <$> listed (ps2 ++ [last2]) in
  let n1 := (length (log st) + 1)%nat in
  let n2 := (n1 + length ps1 + 1 + Z.to_nat (chunk_count ids1 2000))%nat in
  feed w = inr rows →
  (∀ j p, (ps1 ++ [last1]) !! j = Some p → page_reply w (n1 + j) = inr p) →
  (∀ j p, (ps2 ++ [last2]) !! j = Some p → page_reply w (n2 + j) = inr p) →
  more_pages ps1 → Market.no_page (Market.nextPageToken last1) = true →
  more_pages ps2 → Market.no_page (Market.nextPageToken last2) = true →
  (length ps1 < fuel)%nat → (length ps2 < fuel)%nat →
  Forall (λ r, kod r ∈ ids1 ++ ids2 → is_Some (stock_of_quantity (kolichestvo r)))
    rows →
  (∀ j, push_reply w j = None) →
  ∃ stocks1 chunks1 stocks2 chunks2,
    divide stocks1 2000 = Some chunks1 ∧ concat chunks1 = stocks1
    ∧ Market.sku <$> stocks1 ≡ₚ ids1
    ∧ divide stocks2 2000 = Some chunks2 ∧ concat chunks2 = stocks2
    ∧ Market.sku <$> stocks2 ≡ₚ ids2
    ∧ Market.main w fuel market_token campaign_fbs_id campaign_dbs_id
        warehouse_fbs_id warehouse_dbs_id st
      = (Ok tt,
         State (<[fresh (dom (<[fresh (dom (heap st))
                                  := remaining (kod <$> rows) ids1]> (heap st)))
                    := remaining (kod <$> rows) ids2]>
                  (<[fresh (dom (heap st)) := remaining (kod <$> rows) ids1]>
                     (heap st)))
           (log st ++ [Market.DownloadStock]
            ++ page_requests campaign_fbs_id market_token "" ps1
            ++ ((λ c, Market.OfferStocks c campaign_fbs_id market_token) <$> chunks1)
            ++ page_requests campaign_dbs_id market_token "" ps2
            ++ ((λ c, Market.OfferStocks c campaign_dbs_id market_token)
                  <$> chunks2))).
Proof.
  intros ids1 ids2 n1 n2 Hfeed Hp1 Hp2 Hgo1 Hlast1 Hgo2 Hlast2 Hf1 Hf2 Hrows Hpush.
  set (st0 := State (heap st) (log st ++ [Market.DownloadStock])).
  assert (Hdl : Market.download_stock w st = (Ok rows, st0))
    by (by rewrite market_download_stock_run, Hfeed).
  assert (Hs1 : answered w st0 (ps1 ++ [last1])).
  { intros j p Hj. simpl. rewrite length_app. simpl. by apply Hp1. }
  assert (Hrows1 : Forall (λ r, kod r ∈ ids1 →
                      is_Some (stock_of_quantity (kolichestvo r))) rows).
  { eapply Forall_impl; [exact Hrows|]. intros r Hr Hin. apply Hr.
    apply elem_of_app. by left. }
  assert (Hrows2 : Forall (λ r, kod r ∈ ids2 →
                      is_Some (stock_of_quantity (kolichestvo r))) rows).
  { eapply Forall_impl; [exact Hrows|]. intros r Hr Hin. apply Hr.
    apply elem_of_app. by right. }
  unfold Market.main. rewrite (bind_ok _ _ _ _ _ Hdl). unfold try_except.
  edestruct (market_campaign_run w campaign_fbs_id market_token warehouse_fbs_id
               fuel rows st0 ps1 last1
               (λ _ : unit,
                  expr_stmt (Market.upload_prices w fuel rows campaign_fbs_id
                               market_token);;
                  let* offer_ids :=
                    Market.get_offer_ids w fuel campaign_dbs_id market_token in
                  let* stocks :=
                    Market.create_stocks w rows offer_ids warehouse_dbs_id in
                  let* chunks := value_of (divide stocks 2000) in
                  for_each chunks tt (fun _ some_stock =>
                    Market.update_stocks w some_stock campaign_dbs_id market_token);;
                  expr_stmt (Market.upload_prices w fuel rows campaign_dbs_id
                               market_token))
               Hs1 Hgo1 Hlast1 Hf1 Hrows1 Hpush)
    as (stocks1 & chunks1 & Hdiv1 & Hcat1 & Hperm1 & Hlen1 & Hrun1).
  fold ids1 in Hperm1, Hlen1, Hrun1.
  rewrite Hrun1. clear Hrun1.
  set (st3 := State _ _).
  assert (Hs2 : answered w st3 (ps2 ++ [last2])).
  { intros j p Hj. subst st3. simpl.
    rewrite !length_app. simpl. rewrite length_app, !length_fmap, Hlen1.
    rewrite <- (Hp2 j p Hj). f_equal. subst n2 n1. lia. }
  unfold bind at 1, expr_stmt at 1, ret at 1.
  edestruct (market_campaign_run w campaign_dbs_id market_token warehouse_dbs_id
               fuel rows st3 ps2 last2
               (λ _ : unit,
                  expr_stmt (Market.upload_prices w fuel rows campaign_dbs_id
                               market_token))
               Hs2 Hgo2 Hlast2 Hf2 Hrows2 Hpush)
    as (stocks2 & chunks2 & Hdiv2 & Hcat2 & Hperm2 & Hlen2 & Hrun2).
  fold ids2 in Hperm2, Hlen2, Hrun2.
  rewrite Hrun2. clear Hrun2.
  exists stocks1, chunks1, stocks2, chunks2. split_and!; try done.
  unfold expr_stmt, ret. subst st3 st0. simpl. f_equal. f_equal.
  rewrite <- !app_assoc. simpl. by rewrite <- !app_assoc.
Qed.

Lemma market_main_uploads_both_campaigns_witness :
  let last1 := Market.Page [Market.Entry (Market.Offer "A")] None in
  let p2 := Market.Page [Market.Entry (Market.Offer "B")] (Some "t") in
  let last2 := Market.Page [Market.Entry (Market.Offer "C")] (Some "") in
  let rows := [Watch "A" "5" "100"; Watch "B" ">10" "5"] in
  let w := World Market.page
             (λ k, match k with
                   | 1%nat => inr last1
                   | 3%nat => inr p2
                   | _ => inr last2
                   end)
             (λ _, None) (inr rows) (λ _, "now") in
  let st : state Market.event := State ∅ [] in
  ∃ stocks1 chunks1 stocks2 chunks2,
    divide stocks1 2000 = Some chunks1 ∧ concat chunks1 = stocks1
    ∧ Market.sku <$> stocks1 ≡ₚ ["A"]
    ∧ divide stocks2 2000 = Some chunks2 ∧ concat chunks2 = stocks2
    ∧ Market.sku <$> stocks2 ≡ₚ ["B"; "C"]
    ∧ Market.main w 3 "token" "fbs" "dbs" "w1" "w2" st
      = (Ok tt,
         State (<[fresh (dom (<[fresh (dom (heap st)) := []]> (heap st)))
                    := ["C"]]>
                  (<[fresh (dom (heap st)) := []]> (heap st)))
           (log st ++ [Market.DownloadStock]
            ++ page_requests "fbs" "token" "" []
            ++ ((λ c, Market.OfferStocks c "fbs" "token") <$> chunks1)
            ++ page_requests "dbs" "token" "" [p2]
            ++ ((λ c, Market.OfferStocks c "dbs" "token") <$> chunks2))).
Proof.
  intros last1 p2 last2 rows w st.
  apply (market_main_uploads_both_campaigns w 3 "token" "fbs" "dbs" "w1" "w2"
           rows st [] last1 [p2] last2).
  - reflexivity.
  - intros j p Hj. destruct j as [|j]; simpl in Hj; [|done]. by injection Hj as <-.
  - intros j p Hj. destruct j as [|[|j]]; simpl in Hj; [| |done];
      by injection Hj as <-.
  - apply Forall_nil_2.
  - reflexivity.
  - apply Forall_singleton. reflexivity.
  - reflexivity.
  - simpl. lia.
  - simpl. lia.
  - apply Forall_cons. split; [intros _; by eexists|].
    apply Forall_cons. split; [intros _; by eexists|]. apply Forall_nil_2.
  - done.
Defined.
